(** * Memory search engine of the portfolio tracker: a shallow embedding

    This development embeds [skills/memory-manager/scripts/memory.py] --
    the keyword extractor, the tag matcher, the two scorers, the snippet
    extractor and the corpus walker -- and checks the statements of the
    specification against it.

    Conventions of the embedding.
    - A Python [str] is a list of characters.  Characters are the 256 code
      points of Latin-1 ([ascii]); [str.lower], [str.isspace] and the
      regex classes [\s], [\w], [\d] are the restrictions of the Python
      ones to these code points.  Queries and files with other characters
      are outside the embedding.  On these 256 code points [re.IGNORECASE]
      and [str.lower] identify the same letters; beyond them they do not
      (the pattern [s] matches the long s, U+017F, which [str.lower]
      leaves as it is), so what is proved here about the two together is
      proved for Latin-1 text.
    - Scores are Python floats in the source.  Every score is a sum of
      products of an occurrence count with 1.0, 2.0, 3.0 or 1.5, possibly
      multiplied once by 1.5, hence a multiple of 0.25 that binary floating
      point represents exactly; scores are rationals here.
    - The file system and the clock are passed explicitly ([env]).
    - Code that can raise returns an [outcome]. *)

From Stdlib Require Import Ascii String Bool Arith ZArith QArith Lia.
From Stdlib Require Import List Sorting.Permutation Sorting.Sorted.
Import ListNotations.

Set Implicit Arguments.
Close Scope Q_scope.
Open Scope nat_scope.

(** ** Python strings *)

Module Str.

Definition str := list ascii.

(** String literals of the source are written [py "..."]. *)
Definition py (s : string) : str := list_ascii_of_string s.

Definition code (c : ascii) : nat := nat_of_ascii c.

Definition in_range (lo hi : nat) (c : ascii) : bool :=
  (lo <=? code c) && (code c <=? hi).

Definition chr_eqb (a b : ascii) : bool := Ascii.eqb a b.

(** Code points with a lower-case mapping: A-Z, and U+00C0..U+00DE but the
    multiplication sign U+00D7. *)
Definition is_upper (c : ascii) : bool :=
  in_range 65 90 c || (in_range 192 222 c && negb (code c =? 215)).

Definition lower_char (c : ascii) : ascii :=
  if is_upper c then ascii_of_nat (code c + 32) else c.

(** The inverse mapping, for the code points whose upper case is again in
    Latin-1. *)
Definition has_upper (c : ascii) : bool :=
  in_range 97 122 c || (in_range 224 254 c && negb (code c =? 247)).

Definition upper_char (c : ascii) : ascii :=
  if has_upper c then ascii_of_nat (code c - 32) else c.

(** [s.lower()] *)
Definition lower (s : str) : str := map lower_char s.

(** [c.isspace()], also the regex class [\s]. *)
Definition isspace (c : ascii) : bool :=
  in_range 9 13 c || in_range 28 32 c || (code c =? 133) || (code c =? 160).

(** The regex class [[a-zA-Z]]. *)
Definition is_ascii_letter (c : ascii) : bool :=
  in_range 65 90 c || in_range 97 122 c.

Definition is_lower_letter (c : ascii) : bool := in_range 97 122 c.

(** The regex class [\d]. *)
Definition is_digit (c : ascii) : bool := in_range 48 57 c.

(** The regex class [\w]: alphanumeric code points and the underscore. *)
Definition is_word (c : ascii) : bool :=
  is_ascii_letter c || is_digit c || (code c =? 95)
  || (code c =? 170) || (code c =? 178) || (code c =? 179)
  || (code c =? 181) || (code c =? 185) || (code c =? 186)
  || in_range 188 190 c
  || in_range 192 214 c || in_range 216 246 c || in_range 248 255 c.

Definition newline : ascii := ascii_of_nat 10.

Fixpoint str_eqb (a b : str) : bool :=
  match a, b with
  | [], [] => true
  | x :: a', y :: b' => chr_eqb x y && str_eqb a' b'
  | _, _ => false
  end.

(** [s.startswith(p)] *)
Fixpoint startswith (s p : str) : bool :=
  match p, s with
  | [], _ => true
  | x :: p', y :: s' => chr_eqb x y && startswith s' p'
  | _ :: _, [] => false
  end.

(** [sub in s] *)
Fixpoint contains (s sub : str) : bool :=
  startswith s sub ||
  match s with
  | [] => false
  | _ :: s' => contains s' sub
  end.

(** [s.count(sub)]: occurrences found from left to right without overlap;
    the empty string occurs [len(s) + 1] times. *)
Fixpoint count_skip (sub : str) (skip : nat) (s : str) : nat :=
  match s with
  | [] => 0
  | _ :: s' =>
      match skip with
      | S k => count_skip sub k s'
      | O => if startswith s sub
             then S (count_skip sub (length sub - 1) s')
             else count_skip sub 0 s'
      end
  end.

Definition count (s sub : str) : nat :=
  match sub with
  | [] => S (length s)
  | _ => count_skip sub 0 s
  end.

(** [s.split('\n')]: never empty. *)
Fixpoint split_lines (s : str) : list str :=
  match s with
  | [] => [ [] ]
  | c :: s' =>
      if chr_eqb c newline then [] :: split_lines s'
      else match split_lines s' with
           | l :: ls => (c :: l) :: ls
           | [] => [ [c] ]
           end
  end.

(** ['\n'.join(ls)] *)
Fixpoint join_lines (ls : list str) : str :=
  match ls with
  | [] => []
  | [l] => l
  | l :: ls' => l ++ newline :: join_lines ls'
  end.

(** [s.lstrip()], [s.rstrip()], [s.strip()] *)
Fixpoint lstrip (s : str) : str :=
  match s with
  | c :: s' => if isspace c then lstrip s' else s
  | [] => []
  end.

Definition rstrip (s : str) : str := rev (lstrip (rev s)).

Definition strip (s : str) : str := rstrip (lstrip s).

(** [s[a:b]] for [0 <= a], [0 <= b]. *)
Definition slice (s : str) (a b : nat) : str := firstn (b - a) (skipn a s).

(** [s.rfind('\n', 0, e) + 1]: the offset at which the line holding offset
    [e] starts. *)
Fixpoint line_start_aux (s : str) (e : nat) (pos start : nat) : nat :=
  match e, s with
  | S e', c :: s' =>
      line_start_aux s' e' (S pos) (if chr_eqb c newline then S pos else start)
  | _, _ => start
  end.

Definition line_start (s : str) (e : nat) : nat := line_start_aux s e 0 0.

(** [s[:e].count('\n')] *)
Definition line_number (s : str) (e : nat) : nat :=
  length (filter (chr_eqb newline) (firstn e s)).

End Str.

Import Str.

(** ** Outcomes of code that can raise *)

Inductive exn : Type :=
| re_error          (* re.error: the pattern does not compile *)
| OverflowError.    (* timedelta or datetime arithmetic out of range *)

(** [Unmodelled] marks a run that evaluates a regular expression outside
    the fragment of Python's [re] syntax described in module [Re] below;
    nothing is stated about such runs. *)
Inductive outcome (A : Type) : Type :=
| Done (a : A)
| Raised (e : exn)
| Unmodelled.

Arguments Raised {A} e.
Arguments Unmodelled {A}.

Definition bind {A B : Type} (o : outcome A) (f : A -> outcome B) : outcome B :=
  match o with
  | Done a => f a
  | Raised e => Raised e
  | Unmodelled => Unmodelled
  end.

Notation "x <- o ;; k" := (bind o (fun x => k))
  (at level 61, o at next level, right associativity).

(** ** A fragment of Python's [re]

    Patterns of the fragment: literal characters, [.], [^], [$], the
    escapes [\s \S \d \D \w \W \b \n \t \r \f \v] and backslash before a
    character that is neither an ASCII letter nor a digit, character sets
    [[...]] of characters, ranges and [\s \d \w], capturing groups,
    alternation, and the greedy quantifiers [* + ?] on a body that cannot
    match the empty string.  A pattern that leaves the fragment is reported
    as [PUnmodelled], never as compiled or as an error. *)

Module Re.

Inductive citem : Type :=
| IChar (c : ascii)
| IRange (lo hi : ascii)
| ISpace
| IDigit
| IWord.

Inductive regex : Type :=
| Eps
| Lit (c : ascii)
| Dot
| Cls (negated : bool) (items : list citem)
| Bol
| Eol
| WordB
| Seq (r1 r2 : regex)
| Alt (r1 r2 : regex)
| Star (r : regex)
| Plus (r : regex)
| Opt (r : regex).

Inductive pres (A : Type) : Type :=
| POk (a : A)
| PError
| PUnmodelled.

Arguments PError {A}.
Arguments PUnmodelled {A}.

Definition ch (s : string) : ascii :=
  match s with
  | String c _ => c
  | EmptyString => zero
  end.

(** [* + ?] *)
Definition is_quant (c : ascii) : bool :=
  chr_eqb c (ch "*") || chr_eqb c (ch "+") || chr_eqb c (ch "?").

(** Zero-width atoms: a quantifier after one of them is "nothing to
    repeat". *)
Definition is_anchor (r : regex) : bool :=
  match r with
  | Bol | Eol | WordB => true
  | _ => false
  end.

(** Can [r] match the empty string? *)
Fixpoint nullable (r : regex) : bool :=
  match r with
  | Eps | Bol | Eol | WordB => true
  | Lit _ | Dot | Cls _ _ => false
  | Seq r1 r2 => nullable r1 && nullable r2
  | Alt r1 r2 => nullable r1 || nullable r2
  | Star _ | Opt _ => true
  | Plus r1 => nullable r1
  end.

(** The character after a backslash, outside a character set. *)
Definition p_escape (c : ascii) : pres regex :=
  if chr_eqb c (ch "s") then POk (Cls false [ISpace])
  else if chr_eqb c (ch "S") then POk (Cls true [ISpace])
  else if chr_eqb c (ch "d") then POk (Cls false [IDigit])
  else if chr_eqb c (ch "D") then POk (Cls true [IDigit])
  else if chr_eqb c (ch "w") then POk (Cls false [IWord])
  else if chr_eqb c (ch "W") then POk (Cls true [IWord])
  else if chr_eqb c (ch "b") then POk WordB
  else if chr_eqb c (ch "n") then POk (Lit (ascii_of_nat 10))
  else if chr_eqb c (ch "t") then POk (Lit (ascii_of_nat 9))
  else if chr_eqb c (ch "r") then POk (Lit (ascii_of_nat 13))
  else if chr_eqb c (ch "f") then POk (Lit (ascii_of_nat 12))
  else if chr_eqb c (ch "v") then POk (Lit (ascii_of_nat 11))
  else if is_ascii_letter c || is_digit c then PUnmodelled
  else POk (Lit c).

(** The character after a backslash, inside a character set. *)
Definition p_class_escape (c : ascii) : pres citem :=
  if chr_eqb c (ch "s") then POk ISpace
  else if chr_eqb c (ch "d") then POk IDigit
  else if chr_eqb c (ch "w") then POk IWord
  else if is_ascii_letter c || is_digit c then PUnmodelled
  else POk (IChar c).

(** The body of a character set, after [[] or [[^]; [first] holds until an
    item has been read, so that a leading []] is a literal. *)
Fixpoint p_class (first : bool) (acc : list citem) (s : str)
  : pres (list citem * str) :=
  match s with
  | [] => PError
  | c :: s1 =>
      if chr_eqb c (ch "]") && negb first then POk (rev acc, s1)
      else if chr_eqb c (ch "[") then PUnmodelled
      else if chr_eqb c (ch "\") then
        match s1 with
        | [] => PError
        | e :: s2 =>
            match p_class_escape e with
            | POk it =>
                match s2 with
                | d :: _ => if chr_eqb d (ch "-") then PUnmodelled
                            else p_class false (it :: acc) s2
                | [] => PError
                end
            | PError => PError
            | PUnmodelled => PUnmodelled
            end
        end
      else
        match s1 with
        | d :: s2 =>
            if chr_eqb d (ch "-") then
              match s2 with
              | [] => PError
              | hi :: s3 =>
                  if chr_eqb hi (ch "]")
                  then POk (rev (IChar d :: IChar c :: acc), s3)
                  else if chr_eqb hi (ch "\") || chr_eqb hi (ch "[")
                  then PUnmodelled
                  else if code hi <? code c then PError
                  else p_class false (IRange c hi :: acc) s3
              end
            else p_class false (IChar c :: acc) s1
        | [] => PError
        end
  end.

Definition apply_quant (q : ascii) (r : regex) : regex :=
  if chr_eqb q (ch "*") then Star r
  else if chr_eqb q (ch "+") then Plus r
  else Opt r.

(** The quantifier, if any, that follows the atom [a]. *)
Definition p_quant (a : regex) (s : str) : pres (regex * str) :=
  match s with
  | q :: s1 =>
      if is_quant q then
        if is_anchor a then PError
        else match s1 with
             | q' :: _ =>
                 if chr_eqb q' (ch "?") || chr_eqb q' (ch "+") then PUnmodelled
                 else if chr_eqb q' (ch "*") then PError
                 else if chr_eqb q' (ch "{") then PUnmodelled
                 else if nullable a then PUnmodelled
                 else POk (apply_quant q a, s1)
             | [] => if nullable a then PUnmodelled
                     else POk (apply_quant q a, s1)
             end
      else if chr_eqb q (ch "{") then PUnmodelled
      else POk (a, s)
  | [] => POk (a, s)
  end.

(** Recursive descent.  [p_alt] reads alternatives up to a closing
    parenthesis or the end, [p_seq] a sequence of quantified atoms and
    [p_piece] one of them; [group] is the parser of the inside of a
    group.  The fuel of [p_alt] bounds the nesting of groups and
    alternatives and that of [p_seq] the number of atoms; the length of
    the pattern plus one is enough for both. *)
Definition p_piece (group : str -> pres (regex * str)) (s : str)
  : pres (regex * str) :=
  match s with
  | [] => PUnmodelled
  | c :: s1 =>
      if is_quant c then PError
      else if chr_eqb c (ch "{") then PUnmodelled
      else if chr_eqb c (ch ".") then p_quant Dot s1
      else if chr_eqb c (ch "^") then p_quant Bol s1
      else if chr_eqb c (ch "$") then p_quant Eol s1
      else if chr_eqb c (ch "\") then
        match s1 with
        | [] => PError
        | e :: s2 =>
            match p_escape e with
            | POk a => p_quant a s2
            | PError => PError
            | PUnmodelled => PUnmodelled
            end
        end
      else if chr_eqb c (ch "[") then
        let '(neg, body) :=
          match s1 with
          | x :: s2 => if chr_eqb x (ch "^") then (true, s2) else (false, s1)
          | [] => (false, s1)
          end in
        match p_class true [] body with
        | POk (items, s3) => p_quant (Cls neg items) s3
        | PError => PError
        | PUnmodelled => PUnmodelled
        end
      else if chr_eqb c (ch "(") then
        match s1 with
        | x :: _ =>
            if chr_eqb x (ch "?") then PUnmodelled
            else match group s1 with
                 | POk (r, y :: s3) =>
                     if chr_eqb y (ch ")") then p_quant r s3 else PError
                 | POk (_, []) => PError
                 | PError => PError
                 | PUnmodelled => PUnmodelled
                 end
        | [] => PError
        end
      else p_quant (Lit c) s1
  end.

Fixpoint p_seq (group : str -> pres (regex * str)) (k : nat) (s : str)
  : pres (regex * str) :=
  match k with
  | O => PUnmodelled
  | S k' =>
      match s with
      | [] => POk (Eps, s)
      | c :: _ =>
          if chr_eqb c (ch "|") || chr_eqb c (ch ")") then POk (Eps, s)
          else match p_piece group s with
               | POk (r, s') =>
                   match p_seq group k' s' with
                   | POk (r', s'') => POk (Seq r r', s'')
                   | PError => PError
                   | PUnmodelled => PUnmodelled
                   end
               | PError => PError
               | PUnmodelled => PUnmodelled
               end
      end
  end.

Fixpoint p_alt (fuel : nat) (s : str) : pres (regex * str) :=
  match fuel with
  | O => PUnmodelled
  | S n =>
      match p_seq (p_alt n) (S (length s)) s with
      | POk (r, c :: s') =>
          if chr_eqb c (ch "|") then
            match p_alt n s' with
            | POk (r', s'') => POk (Alt r r', s'')
            | PError => PError
            | PUnmodelled => PUnmodelled
            end
          else POk (r, c :: s')
      | other => other
      end
  end.

(** [re.compile(pattern)]: [PError] is [re.error]. *)
Definition parse (pattern : str) : pres regex :=
  match p_alt (S (length pattern)) pattern with
  | POk (r, []) => POk r
  | POk (_, _ :: _) => PError     (* an unbalanced closing parenthesis *)
  | PError => PError
  | PUnmodelled => PUnmodelled
  end.

(** *** Matching

    A backtracking matcher in continuation-passing style: alternatives
    are tried from left to right and quantifiers are greedy, as in
    Python.  A position is the character before it, if any, and the rest
    of the subject. *)

Record flags : Type := { ignorecase : bool; multiline : bool }.

Definition position : Type := (option ascii * str)%type.

Definition cont : Type := option ascii -> str -> option position.

Definition item_match (ic : bool) (c : ascii) (it : citem) : bool :=
  match it with
  | IChar x =>
      if ic then chr_eqb (lower_char c) (lower_char x) else chr_eqb c x
  | IRange lo hi =>
      let t := fun x => (code lo <=? code x) && (code x <=? code hi) in
      t c || (ic && (t (lower_char c) || t (upper_char c)))
  | ISpace => isspace c
  | IDigit => is_digit c
  | IWord => is_word c
  end.

Definition cls_match (ic neg : bool) (items : list citem) (c : ascii) : bool :=
  xorb neg (existsb (item_match ic c) items).

Definition at_bol (fl : flags) (prev : option ascii) : bool :=
  match prev with
  | None => true
  | Some c => multiline fl && chr_eqb c newline
  end.

Definition at_eol (fl : flags) (s : str) : bool :=
  match s with
  | [] => true
  | c :: s' =>
      chr_eqb c newline && (multiline fl || match s' with [] => true | _ => false end)
  end.

Definition word_before (prev : option ascii) : bool :=
  match prev with Some c => is_word c | None => false end.

Definition word_after (s : str) : bool :=
  match s with c :: _ => is_word c | [] => false end.

(** Greedy repetition of [body]; an iteration has to consume input. *)
Fixpoint star (body : cont -> cont) (k : cont) (n : nat)
  (prev : option ascii) (s : str) : option position :=
  match n with
  | O => k prev s
  | S n' =>
      match body (fun p' s' =>
                    if length s' <? length s then star body k n' p' s'
                    else None) prev s with
      | Some x => Some x
      | None => k prev s
      end
  end.

Fixpoint m (fl : flags) (r : regex) (k : cont) (prev : option ascii) (s : str)
  : option position :=
  match r with
  | Eps => k prev s
  | Lit x =>
      match s with
      | c :: s' => if item_match (ignorecase fl) c (IChar x)
                   then k (Some c) s' else None
      | [] => None
      end
  | Dot =>
      match s with
      | c :: s' => if chr_eqb c newline then None else k (Some c) s'
      | [] => None
      end
  | Cls neg items =>
      match s with
      | c :: s' => if cls_match (ignorecase fl) neg items c
                   then k (Some c) s' else None
      | [] => None
      end
  | Bol => if at_bol fl prev then k prev s else None
  | Eol => if at_eol fl s then k prev s else None
  | WordB => if xorb (word_before prev) (word_after s) then k prev s else None
  | Seq r1 r2 => m fl r1 (m fl r2 k) prev s
  | Alt r1 r2 =>
      match m fl r1 k prev s with
      | Some x => Some x
      | None => m fl r2 k prev s
      end
  | Star r1 => star (m fl r1) k (length s) prev s
  | Plus r1 => m fl r1 (fun p' s' => star (m fl r1) k (length s') p' s') prev s
  | Opt r1 =>
      match m fl r1 k prev s with
      | Some x => Some x
      | None => k prev s
      end
  end.

(** One match attempt at the current position.  With [must_advance] (set
    after an empty match) an empty match is refused. *)
Definition match_here (fl : flags) (r : regex) (must_advance : bool)
  (prev : option ascii) (s : str) : option position :=
  m fl r (fun p' s' =>
            if must_advance && (length s' =? length s) then None
            else Some (p', s')) prev s.

(** A span is the pair (start, end) of a match object. *)
Definition span : Type := (nat * nat)%type.

(** Leftmost match at or after offset [pos], where the subject continues
    with [s]; returns the span and the position after the match. *)
Fixpoint search_at (fl : flags) (r : regex) (must_advance : bool)
  (prev : option ascii) (s : str) (pos : nat) : option (span * position) :=
  match match_here fl r must_advance prev s with
  | Some (p', s') => Some ((pos, pos + (length s - length s')), (p', s'))
  | None =>
      match s with
      | [] => None
      | c :: s1 => search_at fl r false (Some c) s1 (S pos)
      end
  end.

(** [re.search(pattern, s)] succeeds *)
Definition search (fl : flags) (r : regex) (s : str) : bool :=
  match search_at fl r false None s 0 with
  | Some _ => true
  | None => false
  end.

Fixpoint finditer_from (fuel : nat) (fl : flags) (r : regex)
  (must_advance : bool) (prev : option ascii) (s : str) (pos : nat)
  : list span :=
  match fuel with
  | O => []
  | S fuel' =>
      match search_at fl r must_advance prev s pos with
      | None => []
      | Some ((st, en), (p', s')) =>
          (st, en) :: finditer_from fuel' fl r (en =? st) p' s' en
      end
  end.

(** [pattern.finditer(s)], as the list of the spans of the matches. *)
Definition finditer (fl : flags) (r : regex) (s : str) : list span :=
  finditer_from (2 * length s + 2) fl r false None s 0.

End Re.

Import Re.

(** ** Dates

    A [datetime] without time zone is the number of microseconds since
    0001-01-01T00:00:00 in the proleptic Gregorian calendar. *)

Module Date.

Local Open Scope Z_scope.

Definition datetime : Type := Z.

Definition us_per_day : Z := 86400000000.

Definition is_leap (y : Z) : bool :=
  (y mod 4 =? 0) && (negb (y mod 100 =? 0) || (y mod 400 =? 0)).

Definition days_in_month (y m : Z) : Z :=
  if m =? 2 then (if is_leap y then 29 else 28)
  else if (m =? 4) || (m =? 6) || (m =? 9) || (m =? 11) then 30
  else 31.

Definition days_before_year (y : Z) : Z :=
  let p := y - 1 in p * 365 + p / 4 - p / 100 + p / 400.

Fixpoint days_before_month_aux (y : Z) (k : nat) : Z :=
  match k with
  | O => 0
  | S k' => days_before_month_aux y k' + days_in_month y (Z.of_nat k)
  end.

Definition days_before_month (y m : Z) : Z :=
  days_before_month_aux y (Z.to_nat (m - 1)).

(** [datetime(y, m, d)]; [None] is [ValueError]. *)
Definition make_date (y m d : Z) : option datetime :=
  if (1 <=? y) && (y <=? 9999) && (1 <=? m) && (m <=? 12)
     && (1 <=? d) && (d <=? days_in_month y m)
  then Some ((days_before_year y + days_before_month y m + d - 1) * us_per_day)
  else None.

Definition digit_val (c : ascii) : Z := Z.of_nat (code c) - 48.

Definition is_chr_in (lo hi : string) (c : ascii) : bool :=
  in_range (code (ch lo)) (code (ch hi)) c.

(** The month field of [strptime], [1[0-2]|0[1-9]|[1-9]], followed by
    the hyphen of the format. *)
Definition parse_month (s : str) : option (Z * str) :=
  match s with
  | a :: b :: c :: rest =>
      if chr_eqb a (ch "1") && is_chr_in "0" "2" b && chr_eqb c (ch "-")
      then Some (10 + digit_val b, rest)
      else if chr_eqb a (ch "0") && is_chr_in "1" "9" b && chr_eqb c (ch "-")
      then Some (digit_val b, rest)
      else if is_chr_in "1" "9" a && chr_eqb b (ch "-")
      then Some (digit_val a, c :: rest)
      else None
  | [a; b] =>
      if is_chr_in "1" "9" a && chr_eqb b (ch "-")
      then Some (digit_val a, [])
      else None
  | _ => None
  end.

(** The day field, [3[0-1]|[1-2]\d|0[1-9]|[1-9]| [1-9]]: the first
    alternative that matches is taken and has to use up the string
    (otherwise: unconverted data remains). *)
Definition parse_day (s : str) : option Z :=
  match s with
  | [a] => if is_chr_in "1" "9" a then Some (digit_val a) else None
  | [a; b] =>
      if chr_eqb a (ch "3") && is_chr_in "0" "1" b then Some (30 + digit_val b)
      else if is_chr_in "1" "2" a && is_digit b
      then Some (10 * digit_val a + digit_val b)
      else if chr_eqb a (ch "0") && is_chr_in "1" "9" b then Some (digit_val b)
      else if chr_eqb a (ch " ") && is_chr_in "1" "9" b then Some (digit_val b)
      else None
  | _ => None
  end.

(** [datetime.strptime(s, "%Y-%m-%d")]; [None] is [ValueError]. *)
Definition strptime_ymd (s : str) : option datetime :=
  match s with
  | y1 :: y2 :: y3 :: y4 :: dash :: rest =>
      if is_digit y1 && is_digit y2 && is_digit y3 && is_digit y4
         && chr_eqb dash (ch "-")
      then match parse_month rest with
           | Some (m, rest') =>
               match parse_day rest' with
               | Some d =>
                   make_date (1000 * digit_val y1 + 100 * digit_val y2
                              + 10 * digit_val y3 + digit_val y4) m d
               | None => None
               end
           | None => None
           end
      else None
  | _ => None
  end.

(** The first instant after [datetime.max]. *)
Definition datetime_end : Z := 3652059 * us_per_day.

(** [now - timedelta(days=d)] *)
Definition minus_days (now : datetime) (d : Z) : outcome datetime :=
  if 999999999 <? Z.abs d then Raised OverflowError
  else let t := now - d * us_per_day in
       if (0 <=? t) && (t <? datetime_end) then Done t
       else Raised OverflowError.

End Date.

Import Date.

(** ** The file system and the clock *)

Record file : Type := {
  name : str;          (* the final path component *)
  content : str;       (* read_text(encoding='utf-8') *)
  st_size : Z;
  st_mtime : Z
}.

(** [memory_dir] lists the entries of MEMORY_DIR ([None]: the directory
    does not exist), [memory_file] is MEMORY_FILE if it exists and [now]
    the reading of the clock during the call. *)
Record env : Type := {
  now : datetime;
  memory_dir : option (list file);
  memory_file : option file
}.

Definition MEMORY_DIR : str := py "/root/.openclaw/workspace/memory".
Definition MEMORY_FILE : str := py "/root/.openclaw/workspace/MEMORY.md".

(** [str(MEMORY_DIR / name)] *)
Definition path_of (f : file) : str := MEMORY_DIR ++ py "/" ++ name f.

Definition endswith (s suffix : str) : bool :=
  startswith (rev s) (rev suffix).

(** [Path.stem]: the name without its last suffix; a name that only
    starts with a dot has no suffix. *)
Definition stem (n : str) : str :=
  if endswith n (py ".md") && (3 <? length n)
  then firstn (length n - 3) n
  else n.

(** Order of code points, the order of [str] and of paths in one
    directory. *)
Fixpoint str_ltb (a b : str) : bool :=
  match a, b with
  | _, [] => false
  | [], _ :: _ => true
  | x :: a', y :: b' =>
      (code x <? code y) || ((code x =? code y) && str_ltb a' b')
  end.

(** A stable sort in descending order: [sorted(l, key, reverse=True)]
    and [l.sort(key, reverse=True)].  [lt k1 k2] is [k1 < k2] on keys. *)
Section Sort.
Variables (A K : Type) (key : A -> K) (lt : K -> K -> bool).

Fixpoint insert_desc (x : A) (l : list A) : list A :=
  match l with
  | [] => [x]
  | y :: l' =>
      if lt (key x) (key y) then y :: insert_desc x l'
      else x :: l
  end.

Fixpoint sort_desc (l : list A) : list A :=
  match l with
  | [] => []
  | x :: l' => insert_desc x (sort_desc l')
  end.
End Sort.

(** [sorted(MEMORY_DIR.glob("*.md"), reverse=True)] *)
Definition glob_md_sorted (files : list file) : list file :=
  sort_desc name str_ltb
    (filter (fun f => endswith (name f) (py ".md")) files).

(** ** memory.py *)

Definition no_flags : flags := {| ignorecase := false; multiline := false |}.
Definition IGNORECASE : flags := {| ignorecase := true; multiline := false |}.
Definition MULTILINE : flags := {| ignorecase := false; multiline := true |}.
Definition MULTILINE_IGNORECASE : flags :=
  {| ignorecase := true; multiline := true |}.

(** [re.search(pattern, s, flags)] as a truth value. *)
Definition re_search (fl : flags) (pattern s : str) : outcome bool :=
  match parse pattern with
  | POk r => Done (search fl r s)
  | PError => Raised re_error
  | PUnmodelled => Unmodelled
  end.

(** *** extract_keywords *)

Definition stop_words : list str :=
  map py
    ["the"; "a"; "an"; "is"; "are"; "was"; "were"; "be"; "been";
     "being"; "have"; "has"; "had"; "do"; "does"; "did"; "will";
     "would"; "could"; "should"; "may"; "might"; "must"; "shall";
     "can"; "need"; "dare"; "ought"; "used"; "to"; "of"; "in";
     "for"; "on"; "with"; "at"; "by"; "from"; "as"; "into";
     "through"; "during"; "before"; "after"; "above"; "below";
     "between"; "under"; "and"; "but"; "or"; "yet"; "so"; "if";
     "because"; "although"; "though"; "while"; "where"; "when";
     "that"; "which"; "who"; "whom"; "whose"; "what"; "this";
     "these"; "those"; "i"; "you"; "he"; "she"; "it"; "we"; "they";
     "me"; "him"; "her"; "us"; "them"; "my"; "your"; "his"; "its";
     "our"; "their"; "mine"; "yours"; "hers"; "ours"; "theirs"]%string.

Definition in_list (w : str) (l : list str) : bool := existsb (str_eqb w) l.

(** The pattern [\b[a-zA-Z]+\b], compiled. *)
Definition word_pattern : str := py "\b[a-zA-Z]+\b".

Definition word_re : regex :=
  Eval vm_compute in
    match parse word_pattern with
    | POk r => r
    | _ => Eps
    end.

(** [re.findall] for a pattern without groups: the matched substrings. *)
Definition findall (fl : flags) (r : regex) (s : str) : list str :=
  map (fun sp => slice s (fst sp) (snd sp)) (finditer fl r s).

Definition extract_keywords (query : str) : list str :=
  let words := findall no_flags word_re (lower query) in
  filter (fun w => negb (in_list w stop_words) && (2 <? length w)) words.

(** *** score_content *)

Definition heading_prefix : str := py "^#+\s.*".
Definition bullet_prefix : str := py "^\s*[-*]\s.*".

Definition times (count : nat) (weight : Q) : Q :=
  (inject_Z (Z.of_nat count) * weight)%Q.

Fixpoint score_content_loop (content content_lower : str)
  (keywords : list str) (score : Q) : outcome Q :=
  match keywords with
  | [] => Done score
  | keyword :: rest =>
      if contains content_lower keyword then
        let count := count content_lower keyword in
        heading <- re_search MULTILINE_IGNORECASE
                     (heading_prefix ++ keyword) content ;;
        if (heading : bool) then
          score_content_loop content content_lower rest (score + times count 3)%Q
        else
          bullet <- re_search MULTILINE_IGNORECASE
                      (bullet_prefix ++ keyword) content ;;
          if (bullet : bool) then
            score_content_loop content content_lower rest (score + times count 2)%Q
          else
            score_content_loop content content_lower rest (score + times count 1)%Q
      else score_content_loop content content_lower rest score
  end.

Definition score_content (content : str) (keywords : list str) : outcome Q :=
  score_content_loop content (lower content) keywords 0%Q.

(** *** has_tags *)

(** [re.escape]: a backslash before each of the special characters. *)
Definition special_chars : str :=
  py "()[]{}?*+-|^$\.&~# "
  ++ map ascii_of_nat [9; 10; 13; 11; 12].

Definition is_special (c : ascii) : bool := existsb (chr_eqb c) special_chars.

Definition escape_char (c : ascii) : str :=
  if is_special c then [ch "\"; c] else [c].

Definition re_escape (s : str) : str := flat_map escape_char s.

Fixpoint has_tags_loop (content_lower : str) (tags : list str) : outcome bool :=
  match tags with
  | [] => Done false
  | tag :: rest =>
      let tag_lower := lower tag in
      if contains content_lower (py "#" ++ tag_lower) then Done true
      else if contains content_lower (py "[" ++ tag_lower ++ py "]") then Done true
      else if contains content_lower (py "[[" ++ tag_lower ++ py "]]") then Done true
      else
        found <- re_search MULTILINE
                   (py "^\s*" ++ re_escape tag_lower ++ py "\s*:") content_lower ;;
        if (found : bool) then Done true
        else has_tags_loop content_lower rest
  end.

Definition has_tags (content : str) (tags : list str) : outcome bool :=
  has_tags_loop (lower content) tags.

(** *** score_content_regex *)

(** [line.strip().startswith(('- ', '* ', '+ '))] *)
Definition starts_with_bullet (line : str) : bool :=
  let t := strip line in
  startswith t (py "- ") || startswith t (py "* ") || startswith t (py "+ ").

Fixpoint bonus_loop (content : str) (matches : list span) (score : Q) : Q :=
  match matches with
  | [] => score
  | (m_start, m_end) :: rest =>
      let line_start := line_start content m_start in
      let line := slice content line_start m_end in
      if startswith line (py "#") then bonus_loop content rest (score + 3)%Q
      else if starts_with_bullet line
      then bonus_loop content rest (score + (3 # 2))%Q
      else bonus_loop content rest score
  end.

(** [pattern] is a pattern compiled with [re.IGNORECASE]. *)
Definition score_content_regex (content : str) (pattern : regex) : Q :=
  let matches := finditer IGNORECASE pattern content in
  match matches with
  | [] => 0%Q
  | _ => bonus_loop content matches (times (length matches) 2)
  end.

(** *** Snippets *)

(** [lines[a:b]] *)
Definition slice_lines (lines : list str) (a b : nat) : list str :=
  firstn (b - a) (skipn a lines).

(** ['\n'.join(lines[max(0, i - c) : min(len(lines), i + c + 1)])] *)
Definition window (lines : list str) (context_lines i : nat) : str :=
  let start := Nat.max 0 (i - context_lines) in
  let stop := Nat.min (length lines) (i + context_lines + 1) in
  join_lines (slice_lines lines start stop).

(** The loop that removes duplicates: [seen] is the set of the snippets
    met so far. *)
Fixpoint unique_loop (snippets seen unique_snippets : list str) : list str :=
  match snippets with
  | [] => unique_snippets
  | s :: rest =>
      if in_list s seen then unique_loop rest seen unique_snippets
      else unique_loop rest (s :: seen) (unique_snippets ++ [s])
  end.

Definition extract_snippets_regex (content : str) (pattern : regex)
  (context_lines : nat) : list str :=
  let lines := split_lines content in
  let snippets :=
    map (fun sp => window lines context_lines (line_number content (fst sp)))
        (finditer IGNORECASE pattern content) in
  unique_loop snippets [] [].

(** The inner loop over the keywords, left at the first hit. *)
Fixpoint keyword_hit (keywords : list str) (line_lower : str) : bool :=
  match keywords with
  | [] => false
  | keyword :: rest =>
      if contains line_lower keyword then true
      else keyword_hit rest line_lower
  end.

(** The loop over [enumerate(lines)], from index [i] on. *)
Fixpoint snippets_loop (lines : list str) (context_lines : nat)
  (keywords : list str) (i : nat) (todo : list str) (snippets : list str)
  : list str :=
  match todo with
  | [] => snippets
  | line :: rest =>
      let line_lower := lower line in
      if keyword_hit keywords line_lower
      then snippets_loop lines context_lines keywords (S i) rest
             (snippets ++ [window lines context_lines i])
      else snippets_loop lines context_lines keywords (S i) rest snippets
  end.

Definition extract_snippets (content : str) (keywords : list str)
  (context_lines : nat) : list str :=
  let lines := split_lines content in
  let snippets := snippets_loop lines context_lines keywords 0 lines [] in
  unique_loop snippets [] [].

(** *** search_memory_files *)

(** One entry of the result list: the dictionary with the keys ['path'],
    ['date'], ['score'] and ['snippets']. *)
Record result : Type := {
  path : str;
  date : str;
  score : Q;
  snippets : list str
}.

(** What lines 80-92 leave behind: either [use_regex] still holds and
    [pattern] is compiled, or the search goes by [keywords]. *)
Inductive matcher : Type :=
| ByPattern (pattern : regex)
| ByKeywords (keywords : list str).

(** [keywords = extract_keywords(query)], and [[query.lower()]] if that
    is empty. *)
Definition keywords_of (query : str) : list str :=
  match extract_keywords query with
  | [] => [lower query]
  | keywords => keywords
  end.

Definition choose_matcher (query : str) (use_regex : bool) : outcome matcher :=
  if use_regex then
    match parse query with
    | POk pattern => Done (ByPattern pattern)
    | PError => Done (ByKeywords (keywords_of query))
    | PUnmodelled => Unmodelled
    end
  else Done (ByKeywords (keywords_of query)).

Definition score_with (mt : matcher) (content : str) : outcome Q :=
  match mt with
  | ByPattern pattern => Done (score_content_regex content pattern)
  | ByKeywords keywords => score_content content keywords
  end.

Definition snippets_with (mt : matcher) (content : str) : list str :=
  match mt with
  | ByPattern pattern => extract_snippets_regex content pattern 2
  | ByKeywords keywords => extract_snippets content keywords 2
  end.

(** [not (tags and not has_tags(content, tags))] *)
Definition tags_pass (tags : option (list str)) (content : str) : outcome bool :=
  match tags with
  | None | Some [] => Done true
  | Some ts => has_tags content ts
  end.

Definition Qpositive (q : Q) : bool := negb (Qle_bool q 0).

(** The part that the daily loop and the long-term branch share: the tag
    check, the score and, for a positive score, the first three
    snippets. *)
Definition examine (mt : matcher) (tags : option (list str)) (content : str)
  : outcome (option (Q * list str)) :=
  pass <- tags_pass tags content ;;
  if (pass : bool) then
    score <- score_with mt content ;;
    if Qpositive score
    then Done (Some (score, firstn 3 (snippets_with mt content)))
    else Done None
  else Done None.

Definition too_old (cutoff_date : option datetime) (file_date : datetime) : bool :=
  match cutoff_date with
  | Some cutoff => (file_date <? cutoff)%Z
  | None => false
  end.

Fixpoint daily_loop (mt : matcher) (tags : option (list str))
  (cutoff_date : option datetime) (files : list file) (results : list result)
  : outcome (list result) :=
  match files with
  | [] => Done results
  | mem_file :: rest =>
      match strptime_ymd (stem (name mem_file)) with
      | None => daily_loop mt tags cutoff_date rest results
      | Some file_date =>
          if too_old cutoff_date file_date
          then daily_loop mt tags cutoff_date rest results
          else
            found <- examine mt tags (content mem_file) ;;
            match found with
            | Some (score, snippets) =>
                daily_loop mt tags cutoff_date rest
                  (results ++ [ {| path := path_of mem_file;
                                   date := stem (name mem_file);
                                   score := score;
                                   snippets := snippets |} ])
            | None => daily_loop mt tags cutoff_date rest results
            end
      end
  end.

Definition long_term (mt : matcher) (tags : option (list str))
  (f : option file) (results : list result) : outcome (list result) :=
  match f with
  | None => Done results
  | Some f =>
      found <- examine mt tags (content f) ;;
      match found with
      | Some (score, snippets) =>
          Done (results ++ [ {| path := MEMORY_FILE;
                                date := py "long-term";
                                score := (score * (3 # 2))%Q;
                                snippets := snippets |} ])
      | None => Done results
      end
  end.

(** [if days: cutoff_date = datetime.now() - timedelta(days=days)] *)
Definition cutoff_of (now : datetime) (days : option Z) : outcome (option datetime) :=
  match days with
  | None => Done None
  | Some d =>
      if (d =? 0)%Z then Done None
      else cutoff <- minus_days now d ;; Done (Some cutoff)
  end.

Definition Qltb (a b : Q) : bool := negb (Qle_bool b a).

(** [l[:n]] *)
Definition take (A : Type) (l : list A) (n : Z) : list A :=
  if (0 <=? n)%Z then firstn (Z.to_nat n) l
  else firstn (length l - Z.to_nat (- n)) l.

(** The list [results] before it is sorted and cut. *)
Definition collect (e : env) (query : str) (days : option Z)
  (use_regex : bool) (tags : option (list str)) : outcome (list result) :=
  cutoff_date <- cutoff_of (now e) days ;;
  mt <- choose_matcher query use_regex ;;
  results <- match memory_dir e with
             | Some files =>
                 daily_loop mt tags cutoff_date (glob_md_sorted files) []
             | None => Done []
             end ;;
  long_term mt tags (memory_file e) results.

Definition search_memory_files (e : env) (query : str) (max_results : Z)
  (days : option Z) (use_regex : bool) (tags : option (list str))
  : outcome (list result) :=
  results <- collect e query days use_regex tags ;;
  Done (take (sort_desc score Qltb results) max_results).

(** *** list_memories *)

(** ['modified'] is kept as the time stamp, without the conversion to
    ISO format. *)
Record memory : Type := {
  mem_path : str;
  mem_date : str;
  mem_size : Z;
  mem_modified : Z
}.

Fixpoint list_loop (now : datetime) (days : option Z) (files : list file)
  (memories : list memory) : outcome (list memory) :=
  match files with
  | [] => Done memories
  | mem_file :: rest =>
      match strptime_ymd (stem (name mem_file)) with
      | None => list_loop now days rest memories
      | Some file_date =>
          cutoff <- cutoff_of now days ;;
          if too_old cutoff file_date
          then list_loop now days rest memories
          else list_loop now days rest
                 (memories ++ [ {| mem_path := path_of mem_file;
                                   mem_date := stem (name mem_file);
                                   mem_size := st_size mem_file;
                                   mem_modified := st_mtime mem_file |} ])
      end
  end.

Definition list_memories (e : env) (days : option Z) : outcome (list memory) :=
  memories <- match memory_dir e with
              | Some files => list_loop (now e) days (glob_md_sorted files) []
              | None => Done []
              end ;;
  match memory_file e with
  | Some f =>
      Done (memories ++ [ {| mem_path := MEMORY_FILE;
                             mem_date := py "long-term";
                             mem_size := st_size f;
                             mem_modified := st_mtime f |} ])
  | None => Done memories
  end.

(** * Properties *)

(** ** The matcher finds exactly the matches of the pattern

    [Match fl r a b]: the pattern [r] matches from position [a] to
    position [b].  The matcher [m] succeeds exactly when some match of the
    pattern lets the continuation succeed. *)

Module ReFacts.

Inductive Match (fl : flags) : regex -> position -> position -> Prop :=
| MEps p s : Match fl Eps (p, s) (p, s)
| MLit x c p s :
    item_match (ignorecase fl) c (IChar x) = true ->
    Match fl (Lit x) (p, c :: s) (Some c, s)
| MDot c p s :
    chr_eqb c newline = false -> Match fl Dot (p, c :: s) (Some c, s)
| MCls neg items c p s :
    cls_match (ignorecase fl) neg items c = true ->
    Match fl (Cls neg items) (p, c :: s) (Some c, s)
| MBol p s : at_bol fl p = true -> Match fl Bol (p, s) (p, s)
| MEol p s : at_eol fl s = true -> Match fl Eol (p, s) (p, s)
| MWordB p s :
    xorb (word_before p) (word_after s) = true -> Match fl WordB (p, s) (p, s)
| MSeq r1 r2 a b c :
    Match fl r1 a b -> Match fl r2 b c -> Match fl (Seq r1 r2) a c
| MAltL r1 r2 a b : Match fl r1 a b -> Match fl (Alt r1 r2) a b
| MAltR r1 r2 a b : Match fl r2 a b -> Match fl (Alt r1 r2) a b
| MStar0 r a : Match fl (Star r) a a
| MStarS r p s p1 s1 c :
    Match fl r (p, s) (p1, s1) -> length s1 < length s ->
    Match fl (Star r) (p1, s1) c -> Match fl (Star r) (p, s) c
| MPlus r a b c :
    Match fl r a b -> Match fl (Star r) b c -> Match fl (Plus r) a c
| MOptY r a b : Match fl r a b -> Match fl (Opt r) a b
| MOptN r a : Match fl (Opt r) a a.

Create HintDb re.
#[export] Hint Constructors Match : re.

Section Matcher.
Variable fl : flags.

(** What a match consumed is a prefix of the subject. *)
Lemma Match_suffix r a b :
  Match fl r a b -> exists w, snd a = w ++ snd b.
Proof.
  induction 1; simpl in *;
    try (exists []; reflexivity);
    try (exists [c]; reflexivity);
    try assumption.
  - destruct IHMatch1 as [w1 E1], IHMatch2 as [w2 E2].
    exists (w1 ++ w2). rewrite E1, E2. now rewrite app_assoc.
  - destruct IHMatch1 as [w1 E1], IHMatch2 as [w2 E2].
    exists (w1 ++ w2). rewrite E1, E2. now rewrite app_assoc.
  - destruct IHMatch1 as [w1 E1], IHMatch2 as [w2 E2].
    exists (w1 ++ w2). rewrite E1, E2. now rewrite app_assoc.
Qed.


(** Inversion of [Match], one lemma per constructor of patterns. *)
Lemma Match_eps_inv a b : Match fl Eps a b -> b = a.
Proof. now inversion 1. Qed.

Lemma Match_seq_inv r1 r2 a c :
  Match fl (Seq r1 r2) a c -> exists b, Match fl r1 a b /\ Match fl r2 b c.
Proof. inversion 1; subst; eauto. Qed.

Lemma Match_alt_inv r1 r2 a b :
  Match fl (Alt r1 r2) a b -> Match fl r1 a b \/ Match fl r2 a b.
Proof. inversion 1; subst; auto. Qed.

Lemma Match_plus_inv r a c :
  Match fl (Plus r) a c -> exists b, Match fl r a b /\ Match fl (Star r) b c.
Proof. inversion 1; subst; eauto. Qed.

Lemma Match_lit_inv x p s b :
  Match fl (Lit x) (p, s) b ->
  exists c s', s = c :: s' /\ b = (Some c, s')
               /\ item_match (ignorecase fl) c (IChar x) = true.
Proof. inversion 1; subst; eauto. Qed.

Lemma Match_dot_inv p s b :
  Match fl Dot (p, s) b ->
  exists c s', s = c :: s' /\ b = (Some c, s') /\ chr_eqb c newline = false.
Proof. inversion 1; subst; eauto. Qed.

Lemma Match_cls_inv neg items p s b :
  Match fl (Cls neg items) (p, s) b ->
  exists c s', s = c :: s' /\ b = (Some c, s')
               /\ cls_match (ignorecase fl) neg items c = true.
Proof. inversion 1; subst; eauto. Qed.

Lemma Match_bol_inv p s b :
  Match fl Bol (p, s) b -> b = (p, s) /\ at_bol fl p = true.
Proof. inversion 1; subst; auto. Qed.

Lemma Match_wordb_inv p s b :
  Match fl WordB (p, s) b ->
  b = (p, s) /\ xorb (word_before p) (word_after s) = true.
Proof. inversion 1; subst; auto. Qed.

Lemma Match_star_inv r a c :
  Match fl (Star r) a c ->
  c = a \/ exists b, Match fl r a b /\ length (snd b) < length (snd a)
                     /\ Match fl (Star r) b c.
Proof. inversion 1; subst; eauto. Qed.

Definition sound (body : cont -> cont) (r : regex) : Prop :=
  forall k p s x, body k p s = Some x ->
    exists p' s', Match fl r (p, s) (p', s') /\ k p' s' = Some x.

Definition complete (body : cont -> cont) (r : regex) : Prop :=
  forall k p s p' s' y, Match fl r (p, s) (p', s') -> k p' s' = Some y ->
    exists x, body k p s = Some x.

Lemma star_sound body r :
  sound body r ->
  forall n k p s x, star body k n p s = Some x ->
    exists p' s', Match fl (Star r) (p, s) (p', s') /\ k p' s' = Some x.
Proof.
  intros Hb. induction n as [|n IH]; intros k p s x H; simpl in H.
  - exists p, s. auto with re.
  - destruct (body _ p s) as [y|] eqn:E.
    + inversion H; subst y; clear H.
      apply Hb in E. destruct E as (p1 & s1 & M1 & K1).
      destruct (length s1 <? length s) eqn:L; [|discriminate].
      apply Nat.ltb_lt in L.
      apply IH in K1. destruct K1 as (p2 & s2 & M2 & K2).
      exists p2, s2. split; [|assumption]. eapply MStarS; eauto.
    + exists p, s. auto with re.
Qed.

Lemma star_complete body r :
  complete body r ->
  forall a b, Match fl (Star r) a b ->
  forall k n y, length (snd a) <= n -> k (fst b) (snd b) = Some y ->
    exists x, star body k n (fst a) (snd a) = Some x.
Proof.
  intros Hb a b M. remember (Star r) as sr eqn:Er.
  induction M; try discriminate; inversion Er; subst; clear Er;
    intros k n y Hn Hk; simpl in *.
  - destruct n as [|n]; simpl.
    + eauto.
    + destruct a as [p s]; simpl in *.
      destruct (body _ p s); eauto.
  - destruct n as [|n]; [lia|]. simpl.
    destruct (body _ p s) as [z|] eqn:E; [eauto|].
    exfalso.
    destruct (IHM2 eq_refl k n y) as [x Hx]; [simpl; lia | assumption |].
    simpl in Hx.
    destruct (Hb (fun p' s' => if length s' <? length s
                               then star body k n p' s' else None)
                 p s p1 s1 x M1) as [z Hz].
    + apply Nat.ltb_lt in H. now rewrite H.
    + congruence.
Qed.

Lemma m_sound r : sound (m fl r) r.
Proof.
  induction r; intros k p s x H; cbn [m] in H.
  - exists p, s. auto with re.
  - destruct s as [|c' s]; [discriminate|].
    destruct (item_match _ c' _) eqn:E; [|discriminate].
    exists (Some c'), s. auto with re.
  - destruct s as [|c' s]; [discriminate|].
    destruct (chr_eqb c' newline) eqn:E; [discriminate|].
    exists (Some c'), s. auto with re.
  - destruct s as [|c' s]; [discriminate|].
    destruct (cls_match _ _ _ c') eqn:E; [|discriminate].
    exists (Some c'), s. auto with re.
  - destruct (at_bol fl p) eqn:E; [|discriminate].
    exists p, s. auto with re.
  - destruct (at_eol fl s) eqn:E; [|discriminate].
    exists p, s. auto with re.
  - destruct (xorb _ _) eqn:E; [|discriminate].
    exists p, s. auto with re.
  - apply IHr1 in H. destruct H as (p1 & s1 & M1 & H).
    apply IHr2 in H. destruct H as (p2 & s2 & M2 & H).
    exists p2, s2. eauto with re.
  - destruct (m fl r1 k p s) as [y|] eqn:E.
    + inversion H; subst y. apply IHr1 in E.
      destruct E as (p1 & s1 & M1 & K). exists p1, s1. auto with re.
    + apply IHr2 in H.
      destruct H as (p1 & s1 & M1 & K). exists p1, s1. auto with re.
  - apply (star_sound IHr) in H.
    destruct H as (p1 & s1 & M1 & K). eauto.
  - apply IHr in H. destruct H as (p1 & s1 & M1 & H).
    apply (star_sound IHr) in H.
    destruct H as (p2 & s2 & M2 & K). exists p2, s2. eauto with re.
  - destruct (m fl r k p s) as [y|] eqn:E.
    + inversion H; subst y. apply IHr in E.
      destruct E as (p1 & s1 & M1 & K). exists p1, s1. auto with re.
    + exists p, s. auto with re.
Qed.

Ltac use_test :=
  match goal with
  | E : _ = true |- _ => rewrite E
  | E : _ = false |- _ => rewrite E
  end.

Lemma m_complete r : complete (m fl r) r.
Proof.
  induction r; intros k p s p' s' y M K; cbn [m].
  - inversion M; subst; eauto.
  - inversion M; subst; use_test; eauto.
  - inversion M; subst; use_test; eauto.
  - inversion M; subst; use_test; eauto.
  - inversion M; subst; use_test; eauto.
  - inversion M; subst; use_test; eauto.
  - inversion M; subst; use_test; eauto.
  - inversion M; subst.
    match goal with
    | M1 : Match _ r1 _ ?b, M2 : Match _ r2 ?b _ |- _ =>
        destruct b as [p1 s1];
        destruct (IHr2 k p1 s1 p' s' y M2 K) as [z Hz];
        exact (IHr1 (m fl r2 k) p s p1 s1 z M1 Hz)
    end.
  - inversion M; subst.
    + match goal with
      | M1 : Match _ r1 _ _ |- _ =>
          destruct (IHr1 k p s p' s' y M1 K) as [z Hz]; rewrite Hz; eauto
      end.
    + destruct (m fl r1 k p s); eauto.
  - exact (star_complete IHr M k (n := length s) (le_n _) K).
  - inversion M; subst.
    match goal with
    | M1 : Match _ r _ ?b, M2 : Match _ (Star r) ?b _ |- _ =>
        destruct b as [p1 s1];
        destruct (star_complete IHr M2 k (n := length s1) (le_n _) K)
          as [z Hz];
        simpl in Hz;
        exact (IHr (fun p' s' => star (m fl r) k (length s') p' s')
                   p s p1 s1 z M1 Hz)
    end.
  - inversion M; subst.
    + match goal with
      | M1 : Match _ r _ _ |- _ =>
          destruct (IHr k p s p' s' y M1 K) as [z Hz]; rewrite Hz; eauto
      end.
    + destruct (m fl r k p' s'); eauto.
Qed.


(** The character before the position reached after [skipped]. *)
Definition prev_after (prev : option ascii) (skipped : str) : option ascii :=
  last (map Some skipped) prev.

Lemma prev_after_cons prev c skipped :
  prev_after prev (c :: skipped) = prev_after (Some c) skipped.
Proof.
  unfold prev_after. revert prev c.
  induction skipped as [|d sk IH]; intros prev c; [reflexivity|].
  change (map Some (c :: d :: sk)) with (Some c :: map Some (d :: sk)).
  change (last (Some c :: map Some (d :: sk)) prev)
    with (last (map Some (d :: sk)) prev).
  rewrite IH. symmetry. apply IH.
Qed.

Lemma match_here_sound r ma p s p' s' :
  match_here fl r ma p s = Some (p', s') ->
  Match fl r (p, s) (p', s') /\ (ma = true -> length s' <> length s).
Proof.
  unfold match_here. intros H. apply m_sound in H.
  destruct H as (p1 & s1 & M & K).
  destruct (ma && (length s1 =? length s)) eqn:E; [discriminate|].
  inversion K; subst. split; [assumption|].
  intros ->. simpl in E. now apply Nat.eqb_neq in E.
Qed.

Lemma match_here_complete r p s b :
  Match fl r (p, s) b -> exists x, match_here fl r false p s = Some x.
Proof.
  intros M. destruct b as [p' s'].
  eapply m_complete; [exact M|]. simpl. reflexivity.
Qed.

Lemma match_span r p s p' s' :
  Match fl r (p, s) (p', s') ->
  exists w, s = w ++ s' /\ length s - length s' = length w.
Proof.
  intros M. destruct (Match_suffix M) as [w Hw]. simpl in Hw.
  exists w. split; [assumption|]. rewrite Hw, length_app. lia.
Qed.

Lemma search_at_sound r :
  forall s ma prev pos st en p' s',
    search_at fl r ma prev s pos = Some ((st, en), (p', s')) ->
    exists skipped w,
      s = skipped ++ w ++ s' /\ st = pos + length skipped /\
      en = st + length w /\
      Match fl r (prev_after prev skipped, w ++ s') (p', s').
Proof.
  assert (here : forall s ma prev pos st en p' s' p1 s1,
    match_here fl r ma prev s = Some (p1, s1) ->
    Some ((pos, pos + (length s - length s1)), (p1, s1))
      = Some ((st, en), (p', s')) ->
    exists skipped w,
      s = skipped ++ w ++ s' /\ st = pos + length skipped /\
      en = st + length w /\
      Match fl r (prev_after prev skipped, w ++ s') (p', s')).
  { intros s ma prev pos st en p' s' p1 s1 E H.
    injection H as <- <- <- <-.
    apply match_here_sound in E. destruct E as [M _].
    destruct (match_span M) as (w & Hw & Hl).
    exists [], w. rewrite Hl. simpl. rewrite <- Hw.
    repeat split; try lia. exact M. }
  induction s as [|c s IH]; intros ma prev pos st en p' s' H;
    cbn [search_at] in H.
  - destruct (match_here fl r ma prev []) as [[p1 s1]|] eqn:E; [|discriminate].
    exact (here _ _ _ _ _ _ _ _ _ _ E H).
  - destruct (match_here fl r ma prev (c :: s)) as [[p1 s1]|] eqn:E.
    + exact (here _ _ _ _ _ _ _ _ _ _ E H).
    + apply IH in H. destruct H as (sk & w & E1 & E2 & E3 & M).
      exists (c :: sk), w. rewrite prev_after_cons. subst s. simpl.
      repeat split; try lia. exact M.
Qed.

Lemma search_at_none r :
  forall s prev pos skipped rest b,
    search_at fl r false prev s pos = None ->
    s = skipped ++ rest ->
    ~ Match fl r (prev_after prev skipped, rest) b.
Proof.
  induction s as [|c s IH]; intros prev pos skipped rest b H E M;
    cbn [search_at] in H.
  - destruct skipped; [|discriminate]. simpl in E. subst rest.
    change (prev_after prev []) with prev in M.
    destruct (match_here_complete M) as [x Hx].
    rewrite Hx in H. now destruct x.
  - destruct (match_here fl r false prev (c :: s)) as [[p1 s1]|] eqn:E1;
      [discriminate|].
    destruct skipped as [|d sk].
    + simpl in E. subst rest.
      change (prev_after prev []) with prev in M.
      destruct (match_here_complete M) as [x Hx]. congruence.
    + inversion E; subst. rewrite prev_after_cons in M.
      exact (IH (Some d) (S pos) sk rest b H eq_refl M).
Qed.

(** [re.search] succeeds exactly when the pattern matches somewhere. *)
Lemma search_true_iff r s :
  search fl r s = true <->
  exists skipped rest b,
    s = skipped ++ rest /\ Match fl r (prev_after None skipped, rest) b.
Proof.
  unfold search. split.
  - destruct (search_at fl r false None s 0) as [[[st en] [p' s']]|] eqn:E;
      [|discriminate].
    intros _. apply search_at_sound in E.
    destruct E as (sk & w & E1 & _ & _ & M). eauto.
  - intros (sk & rest & b & E & M).
    destruct (search_at fl r false None s 0) eqn:E1; [reflexivity|].
    exfalso. exact (@search_at_none r s None 0 sk rest b E1 E M).
Qed.

(** Every span of [finditer] is a match of the pattern in the subject. *)
Lemma finditer_from_sound r :
  forall fuel ma prev s pos st en,
    In (st, en) (finditer_from fuel fl r ma prev s pos) ->
    exists skipped w rest p p',
      s = skipped ++ w ++ rest /\ st = pos + length skipped /\
      en = st + length w /\ Match fl r (p, w ++ rest) (p', rest).
Proof.
  induction fuel as [|fuel IH]; intros ma prev s pos st en H;
    cbn [finditer_from] in H; [contradiction|].
  destruct (search_at fl r ma prev s pos) as [[[st1 en1] [p1 s1]]|] eqn:E;
    [|contradiction].
  apply search_at_sound in E. destruct E as (sk & w & E1 & E2 & E3 & M).
  destruct H as [H|H].
  - inversion H. exists sk, w, s1, (prev_after prev sk), p1.
    repeat split; try lia; assumption.
  - apply IH in H. destruct H as (sk2 & w2 & rest & p & p' & F1 & F2 & F3 & M2).
    exists (sk ++ w ++ sk2), w2, rest, p, p'.
    subst. rewrite !length_app. repeat split; try lia.
    + now rewrite <- !app_assoc.
    + exact M2.
Qed.

Lemma finditer_sound r s st en :
  In (st, en) (finditer fl r s) ->
  exists p p', st <= en /\ en <= length s /\
    Match fl r (p, skipn st s) (p', skipn en s) /\
    skipn st s = slice s st en ++ skipn en s.
Proof.
  unfold finditer. intros H. apply finditer_from_sound in H.
  destruct H as (sk & w & rest & p & p' & E1 & E2 & E3 & M).
  simpl in E2. subst st en.
  assert (S1 : skipn (length sk) s = w ++ rest).
  { rewrite E1, skipn_app, Nat.sub_diag, skipn_all. reflexivity. }
  assert (S2 : skipn (length sk + length w) s = rest).
  { rewrite E1, app_assoc, <- length_app.
    rewrite skipn_app, Nat.sub_diag, skipn_all. reflexivity. }
  exists p, p'. rewrite S1, S2. repeat split.
  - lia.
  - rewrite E1, !length_app. lia.
  - exact M.
  - unfold slice. rewrite S1.
    replace (length sk + length w - length sk) with (length w) by lia.
    rewrite firstn_app, Nat.sub_diag, firstn_all. simpl.
    now rewrite app_nil_r.
Qed.

End Matcher.

End ReFacts.

Import ReFacts.

Arguments cls_match : simpl never.
Arguments item_match : simpl never.

(** ** Characters *)

Ltac each_char c :=
  destruct c as [[|] [|] [|] [|] [|] [|] [|] [|]]; vm_compute; try reflexivity.

Lemma letter_class c :
  cls_match false false [IRange (ch "a") (ch "z"); IRange (ch "A") (ch "Z")] c
  = is_ascii_letter c.
Proof. each_char c. Qed.

Lemma lowered_letter c :
  is_ascii_letter (lower_char c) = is_lower_letter (lower_char c).
Proof. each_char c. Qed.

Lemma lower_char_idem c : lower_char (lower_char c) = lower_char c.
Proof. each_char c. Qed.

Lemma lower_idem s : lower (lower s) = lower s.
Proof.
  unfold lower. rewrite map_map. apply map_ext. exact lower_char_idem.
Qed.

Lemma chr_eqb_eq a b : chr_eqb a b = true <-> a = b.
Proof. apply Ascii.eqb_eq. Qed.

Lemma str_eqb_eq a : forall b, str_eqb a b = true <-> a = b.
Proof.
  induction a as [|x a IH]; destruct b as [|y b]; simpl;
    try (split; [discriminate|discriminate]); try tauto.
  rewrite andb_true_iff, chr_eqb_eq, IH.
  split; [intros [-> ->]; reflexivity | intros H; inversion H; auto].
Qed.

Lemma in_list_iff w l : in_list w l = true <-> In w l.
Proof.
  unfold in_list. rewrite existsb_exists. split.
  - intros (x & Hx & E). apply str_eqb_eq in E. now subst.
  - intros H. exists w. split; [assumption|]. now apply str_eqb_eq.
Qed.

(** ** extract_keywords (C8) *)

Section Keywords.

Lemma word_re_eq :
  word_re =
  Seq WordB
    (Seq (Plus (Cls false [IRange (ch "a") (ch "z"); IRange (ch "A") (ch "Z")]))
         (Seq WordB Eps)).
Proof. reflexivity. Qed.

Lemma word_pattern_compiles : parse word_pattern = POk word_re.
Proof. reflexivity. Qed.

Lemma star_class_chars fl neg items a b :
  Match fl (Star (Cls neg items)) a b ->
  exists w, snd a = w ++ snd b
            /\ forallb (cls_match (ignorecase fl) neg items) w = true.
Proof.
  intros M. remember (Star (Cls neg items)) as sr eqn:E.
  induction M; try discriminate; inversion E; subst; clear E.
  - exists []. split; reflexivity.
  - destruct (IHM2 eq_refl) as (w & Hw & Hall). simpl in Hw.
    apply Match_cls_inv in M1. destruct M1 as (c1 & s0 & -> & B & Hc).
    inversion B; subst. exists (c1 :: w). simpl. split.
    + reflexivity.
    + now rewrite Hc, Hall.
Qed.

(** A match of [\b[a-zA-Z]+\b] is a non-empty run of ASCII letters. *)
Lemma word_match p s p' s' :
  Match no_flags word_re (p, s) (p', s') ->
  exists w, s = w ++ s' /\ w <> [] /\ forallb is_ascii_letter w = true.
Proof.
  rewrite word_re_eq. intros M.
  apply Match_seq_inv in M. destruct M as ([p0 s0] & MB & M).
  apply Match_wordb_inv in MB. destruct MB as [B _]. inversion B; subst.
  apply Match_seq_inv in M. destruct M as ([p1 s1] & MP & M).
  apply Match_seq_inv in M. destruct M as ([p2 s2] & MB & M).
  apply Match_wordb_inv in MB. destruct MB as [B' _]. inversion B'; subst.
  apply Match_eps_inv in M. inversion M; subst.
  apply Match_plus_inv in MP. destruct MP as ([p3 s3] & MC & MS).
  apply Match_cls_inv in MC. destruct MC as (c & s4 & -> & B'' & Hc).
  inversion B''; subst.
  apply star_class_chars in MS. destruct MS as (w & Hw & Hall).
  simpl in Hw. change (ignorecase no_flags) with false in Hc, Hall.
  rewrite letter_class in Hc.
  exists (c :: w). split; [now rewrite Hw|].
  split; [discriminate|].
  simpl. rewrite Hc. simpl. rewrite <- Hall.
  clear. induction w as [|x w IH]; [reflexivity|].
  simpl. now rewrite letter_class, IH.
Qed.

Lemma In_skipn (A : Type) (x : A) n l : In x (skipn n l) -> In x l.
Proof.
  intros H. rewrite <- (firstn_skipn n l). apply in_or_app. now right.
Qed.

(** The words found in a string are runs of ASCII letters of it. *)
Lemma findall_words s w :
  In w (findall no_flags word_re s) ->
  w <> [] /\ forallb is_ascii_letter w = true /\ (forall c, In c w -> In c s).
Proof.
  unfold findall. rewrite in_map_iff. intros ([st en] & <- & H). simpl.
  apply finditer_sound in H. destruct H as (p & p' & _ & _ & M & E).
  rewrite E in M. apply word_match in M.
  destruct M as (w & Hw & Hne & Hall).
  apply app_inv_tail in Hw. rewrite Hw. repeat split; try assumption.
  intros c Hc. apply (@In_skipn _ c st). rewrite E, Hw.
  apply in_or_app. now left.
Qed.

End Keywords.

(** Every token that [extract_keywords] returns is made of lower-case
    letters, is longer than two characters and is no stop word. *)
Lemma extract_keywords_letters query w :
  In w (extract_keywords query) ->
  forallb is_lower_letter w = true /\ 2 < length w /\ ~ In w stop_words.
Proof.
  intros H. unfold extract_keywords in H. apply filter_In in H.
  destruct H as [Hw Hk]. apply andb_true_iff in Hk. destruct Hk as [Hs Hl].
  apply findall_words in Hw. destruct Hw as (_ & Hall & Hsub).
  repeat split.
  - rewrite forallb_forall in *. intros c Hc.
    specialize (Hall c Hc). specialize (Hsub c Hc).
    unfold lower in Hsub. apply in_map_iff in Hsub.
    destruct Hsub as (c0 & <- & _). now rewrite <- lowered_letter.
  - now apply Nat.ltb_lt.
  - intros Hin. apply in_list_iff in Hin. rewrite Hin in Hs. discriminate.
Qed.

(** C8, the statement that fails: the keywords of a query in which a
    word occurs twice are not a duplicate-free collection. *)
Lemma extract_keywords_repeats :
  ~ NoDup (extract_keywords (py "cache cache")).
Proof.
  assert (E : extract_keywords (py "cache cache") = [py "cache"; py "cache"])
    by (vm_compute; reflexivity).
  rewrite E. intros H. inversion H as [|x l Hin _]; subst.
  apply Hin. now left.
Qed.

(** C8, amended: [extract_keywords] returns, one entry for each
    occurrence and in the order of the query, the words that the pattern
    [\b[a-zA-Z]+\b] finds in the lower-cased query and that are longer
    than two characters and not stop words; every returned token is made
    of lower-case letters only, is longer than two characters and is no
    stop word; and the keyword list of the search is never empty, being
    the whole lower-cased query when no token is left. *)
Theorem extract_keywords_tokens (query : str) :
  extract_keywords query
  = filter (fun w => negb (in_list w stop_words) && (2 <? length w))
           (findall no_flags word_re (lower query))
  /\ (forall w, In w (extract_keywords query) ->
        forallb is_lower_letter w = true /\ 2 < length w
        /\ ~ In w stop_words)
  /\ keywords_of query <> []
  /\ (extract_keywords query = [] -> keywords_of query = [lower query])
  /\ (extract_keywords query <> [] -> keywords_of query = extract_keywords query).
Proof.
  split; [reflexivity|]. split.
  - intros w H. exact (extract_keywords_letters query w H).
  - unfold keywords_of. destruct (extract_keywords query) eqn:E.
    + repeat split; try discriminate. congruence.
    + repeat split; discriminate.
Qed.

(** ** Removing duplicate snippets *)

(** Keeping the first occurrence of every string: the reading of
    "deduplicated by exact string equality preserving first-seen order". *)
Fixpoint first_seen (l : list str) : list str :=
  match l with
  | [] => []
  | x :: l' => x :: filter (fun y => negb (str_eqb x y)) (first_seen l')
  end.

Section Unique.

Lemma str_eqb_refl x : str_eqb x x = true.
Proof. now apply str_eqb_eq. Qed.

Lemma str_eqb_sym x y : str_eqb x y = str_eqb y x.
Proof.
  destruct (str_eqb x y) eqn:E, (str_eqb y x) eqn:F; try reflexivity.
  - apply str_eqb_eq in E. subst. now rewrite str_eqb_refl in F.
  - apply str_eqb_eq in F. subst. now rewrite str_eqb_refl in E.
Qed.

Lemma filter_filter (A : Type) (f g : A -> bool) l :
  filter f (filter g l) = filter (fun x => g x && f x) l.
Proof.
  induction l as [|x l IH]; [reflexivity|]. simpl.
  destruct (g x); simpl; [destruct (f x)|]; now rewrite ?IH.
Qed.

Lemma unique_loop_first_seen snippets :
  forall seen unique_snippets,
    unique_loop snippets seen unique_snippets
    = unique_snippets
      ++ filter (fun x => negb (in_list x seen)) (first_seen snippets).
Proof.
  induction snippets as [|x l IH]; intros seen acc; simpl.
  - now rewrite app_nil_r.
  - destruct (in_list x seen) eqn:E; simpl; rewrite IH.
    + f_equal. rewrite filter_filter. apply filter_ext_in. intros y _.
      destruct (str_eqb x y) eqn:F; simpl; [|reflexivity].
      apply str_eqb_eq in F. subst y. now rewrite E.
    + rewrite <- app_assoc. simpl. do 2 f_equal.
      rewrite filter_filter. apply filter_ext. intros y.
      unfold in_list. simpl. rewrite (str_eqb_sym y x).
      now rewrite negb_orb.
Qed.

Lemma unique_loop_spec snippets :
  unique_loop snippets [] [] = first_seen snippets.
Proof.
  rewrite unique_loop_first_seen. simpl.
  induction (first_seen snippets) as [|x l IH]; simpl; congruence.
Qed.

Lemma first_seen_NoDup l : NoDup (first_seen l).
Proof.
  induction l as [|x l IH]; simpl; constructor.
  - rewrite filter_In. intros [_ H]. now rewrite str_eqb_refl in H.
  - now apply NoDup_filter.
Qed.

Lemma first_seen_In l x : In x (first_seen l) <-> In x l.
Proof.
  induction l as [|y l IH]; simpl; [tauto|].
  rewrite filter_In, IH. split.
  - tauto.
  - intros [H|H]; [now left|].
    destruct (str_eqb y x) eqn:E.
    + left. now apply str_eqb_eq.
    + right. split; [assumption|reflexivity].
Qed.

End Unique.

(** ** extract_snippets (C7) *)

(** The specification's wording.  [context_window lines i] joins those of the
    lines i-2, ..., i+2 that exist; [mentions] is the case-insensitive
    substring test; [matching_lines] are the indices of the lines that
    mention a keyword, in order. *)
Definition line_at (lines : list str) (z : Z) : list str :=
  if (z <? 0)%Z then []
  else match nth_error lines (Z.to_nat z) with
       | Some l => [l]
       | None => []
       end.

Definition context_window (lines : list str) (i : nat) : str :=
  join_lines
    (flat_map (fun k => line_at lines (Z.of_nat i + k)) [-2; -1; 0; 1; 2]%Z).




Section Snippets.

Definition get (lines : list str) (j : nat) : list str :=
  match nth_error lines j with
  | Some l => [l]
  | None => []
  end.

Lemma skipn_get (lines : list str) a :
  skipn a lines = get lines a ++ skipn (S a) lines.
Proof.
  revert a. induction lines as [|l ls IH]; intros a.
  - now destruct a.
  - destruct a as [|a]; [reflexivity|].
    change (skipn (S a) (l :: ls)) with (skipn a ls).
    change (skipn (S (S a)) (l :: ls)) with (skipn (S a) ls).
    unfold get. simpl. apply IH.
Qed.

Lemma firstn_skipn_get (lines : list str) n :
  forall a, firstn n (skipn a lines) = flat_map (get lines) (seq a n).
Proof.
  induction n as [|n IH]; intros a; [reflexivity|].
  rewrite skipn_get. cbn [seq flat_map]. rewrite <- IH.
  unfold get. destruct (nth_error lines a) eqn:F; [reflexivity|].
  apply nth_error_None in F.
  rewrite (skipn_all2 lines) by lia. simpl. now rewrite firstn_nil.
Qed.

Lemma firstn_min (A : Type) (l : list A) n :
  firstn (Nat.min (length l) n) l = firstn n l.
Proof.
  destruct (Nat.le_ge_cases n (length l)) as [H|H].
  - now rewrite Nat.min_r.
  - rewrite Nat.min_l by assumption.
    now rewrite firstn_all, firstn_all2.
Qed.

Lemma line_at_nat lines n : line_at lines (Z.of_nat n) = get lines n.
Proof.
  unfold line_at, get.
  destruct (Z.of_nat n <? 0)%Z eqn:E; [apply Z.ltb_lt in E; lia|].
  now rewrite Nat2Z.id.
Qed.

(** The slice of the source is the window of the specification. *)
Lemma window_context lines i : window lines 2 i = context_window lines i.
Proof.
  unfold window, context_window, slice_lines. f_equal.
  rewrite Nat.max_0_l.
  assert (E : firstn (Nat.min (length lines) (i + 2 + 1) - (i - 2))
                (skipn (i - 2) lines)
              = firstn (i + 2 + 1 - (i - 2)) (skipn (i - 2) lines)).
  { rewrite <- (firstn_min (skipn (i - 2) lines) (i + 2 + 1 - (i - 2))).
    rewrite length_skipn. f_equal. lia. }
  rewrite E, firstn_skipn_get. clear E.
  destruct i as [|[|j]].
  - reflexivity.
  - reflexivity.
  - replace (S (S j) + 2 + 1 - (S (S j) - 2)) with 5 by lia.
    replace (S (S j) - 2) with j by lia.
    cbn [flat_map seq].
    replace (Z.of_nat (S (S j)) + -2)%Z with (Z.of_nat j) by lia.
    replace (Z.of_nat (S (S j)) + -1)%Z with (Z.of_nat (S j)) by lia.
    replace (Z.of_nat (S (S j)) + 0)%Z with (Z.of_nat (S (S j))) by lia.
    replace (Z.of_nat (S (S j)) + 1)%Z with (Z.of_nat (S (S (S j)))) by lia.
    replace (Z.of_nat (S (S j)) + 2)%Z with (Z.of_nat (S (S (S (S j))))) by lia.
    now rewrite !line_at_nat.
Qed.




End Snippets.

Lemma lower_letter_fixed c : is_lower_letter c = true -> lower_char c = c.
Proof. each_char c; discriminate. Qed.

Lemma lower_letters_fixed w : forallb is_lower_letter w = true -> lower w = w.
Proof.
  induction w as [|c w IH]; [reflexivity|]. simpl.
  rewrite andb_true_iff. intros [Hc Hw].
  now rewrite (lower_letter_fixed _ Hc), IH.
Qed.

(** The keywords that the search works with are in lower case. *)
Lemma keywords_of_lower query :
  Forall (fun kw => lower kw = kw) (keywords_of query).
Proof.
  unfold keywords_of. destruct (extract_keywords query) as [|k ks] eqn:E.
  - constructor; [apply lower_idem|constructor].
  - rewrite <- E. apply Forall_forall. intros w Hw.
    apply lower_letters_fixed.
    now destruct (extract_keywords_letters query w Hw).
Qed.





(** ** score_content_regex (C2) *)

Open Scope Q_scope.

(** The text that the source inspects for a match: from the start of the
    line in which the match starts to the end of the match. *)
Definition match_line (content : str) (sp : span) : str :=
  slice content (line_start content (fst sp)) (snd sp).

Definition bonus (content : str) (sp : span) : Q :=
  if startswith (match_line content sp) (py "#") then 3
  else if starts_with_bullet (match_line content sp) then 3 # 2
  else 0.

Definition Qsum (l : list Q) : Q := fold_right Qplus 0 l.

(** The specification's wording: the line that holds the end offset of the
    match, and a bullet mark that needs nothing after it. *)
Definition line_holding (content : str) (offset : nat) : str :=
  nth (line_number content offset) (split_lines content) [].

Definition claimed_bonus (content : str) (sp : span) : Q :=
  let line := line_holding content (snd sp) in
  if startswith line (py "#") then 3
  else if startswith (lstrip line) (py "-") || startswith (lstrip line) (py "*")
          || startswith (lstrip line) (py "+") then 3 # 2
  else 0.

Definition claimed_regex_score (content : str) (pattern : regex) : Q :=
  let matches := finditer IGNORECASE pattern content in
  times (length matches) 2 + Qsum (map (claimed_bonus content) matches).

Section RegexScore.

Lemma bonus_loop_sum content matches :
  forall score,
    bonus_loop content matches score
    == score + Qsum (map (bonus content) matches).
Proof.
  induction matches as [|[st en] ms IH]; intros score;
    cbn [bonus_loop map Qsum fold_right].
  - ring.
  - unfold bonus at 1, match_line. cbn [fst snd].
    destruct (startswith _ (py "#")).
    + rewrite IH. unfold Qsum. ring.
    + destruct (starts_with_bullet _); rewrite IH; unfold Qsum; ring.
Qed.

Lemma bonus_nonneg content sp : 0 <= bonus content sp.
Proof.
  unfold bonus. destruct (startswith _ _); [discriminate|].
  destruct (starts_with_bullet _); discriminate.
Qed.

Lemma Qsum_bonus_nonneg content matches :
  0 <= Qsum (map (bonus content) matches).
Proof.
  induction matches as [|sp ms IH]; cbn [map Qsum fold_right]; [discriminate|].
  change 0 with (0 + 0) at 1.
  apply Qplus_le_compat; [apply bonus_nonneg|exact IH].
Qed.

Lemma Qpositive_iff q : Qpositive q = true <-> 0 < q.
Proof.
  unfold Qpositive. rewrite negb_true_iff.
  destruct (Qle_bool q 0) eqn:E.
  - apply Qle_bool_iff in E. split; [discriminate|].
    intros H. exfalso. exact (Qlt_not_le _ _ H E).
  - split; [intros _|reflexivity].
    apply Qnot_le_lt. intros H. apply Qle_bool_iff in H. congruence.
Qed.

Lemma times_pos n w : (0 < n)%nat -> 0 < w -> 0 < times n w.
Proof.
  intros Hn Hw. unfold times. apply Qmult_lt_0_compat; [|assumption].
  unfold Qlt. simpl. lia.
Qed.

End RegexScore.

Close Scope Q_scope.

(** ** Compiling patterns that end in a literal text

    The patterns that the source builds by interpolation are a fixed
    prefix followed by a text.  When the text holds no metacharacter, or
    went through [re.escape], it compiles to the sequence of its
    characters. *)

(** The characters with a meaning of their own in a pattern (outside a
    character set). *)
Definition is_meta (c : ascii) : bool :=
  existsb (chr_eqb c) (py ".^$*+?{[\|()").

(** The sequence of literals [c1 c2 ... cn r]. *)
Definition lits (text : str) (r : regex) : regex :=
  fold_right (fun c r' => Seq (Lit c) r') r text.

Definition space_re : regex := Cls false [ISpace].

Section ParseLiteral.

Variable group : str -> pres (regex * str).

(** No quantifier follows. *)
Definition piece_end (s : str) : bool :=
  match s with
  | c :: _ => negb (is_quant c) && negb (chr_eqb c (ch "{"))
  | [] => true
  end.

Lemma p_quant_none a s : piece_end s = true -> p_quant a s = POk (a, s).
Proof.
  destruct s as [|c s]; [reflexivity|]. simpl.
  rewrite andb_true_iff, !negb_true_iff. intros [-> ->]. reflexivity.
Qed.

Lemma p_piece_plain c s :
  is_meta c = false -> p_piece group (c :: s) = p_quant (Lit c) s.
Proof. each_char c; discriminate. Qed.

Lemma p_piece_escaped c s :
  is_special c = true ->
  p_piece group (ch "\" :: c :: s) = p_quant (Lit c) s.
Proof. each_char c; discriminate. Qed.

Lemma special_or_plain c : is_special c = false -> is_meta c = false.
Proof. each_char c; discriminate. Qed.

Definition seq_end (c : ascii) : bool :=
  chr_eqb c (ch "|") || chr_eqb c (ch ")").

Lemma plain_not_end c :
  is_meta c = false ->
  seq_end c = false /\ is_quant c = false /\ chr_eqb c (ch "{") = false.
Proof. each_char c; (discriminate || auto). Qed.

Lemma p_seq_step k c s :
  seq_end c = false ->
  p_seq group (S k) (c :: s)
  = match p_piece group (c :: s) with
    | POk (r, s') =>
        match p_seq group k s' with
        | POk (r', s'') => POk (Seq r r', s'')
        | PError => PError
        | PUnmodelled => PUnmodelled
        end
    | PError => PError
    | PUnmodelled => PUnmodelled
    end.
Proof. unfold seq_end. intros H. cbn [p_seq]. now rewrite H. Qed.

(** A text without metacharacters in front of [rest]. *)
Lemma p_seq_plain text rest r rest' k0 :
  forallb (fun c => negb (is_meta c)) text = true ->
  piece_end rest = true ->
  (forall k, k0 <= k -> p_seq group k rest = POk (r, rest')) ->
  forall k, length text + k0 <= k ->
    p_seq group k (text ++ rest) = POk (lits text r, rest').
Proof.
  intros Ht Hrest Hk. induction text as [|c text IH]; intros k Hlen.
  - simpl in *. now apply Hk.
  - simpl in Ht. apply andb_true_iff in Ht. destruct Ht as [Hc Ht].
    apply negb_true_iff in Hc.
    destruct k as [|k]; [simpl in Hlen; lia|].
    destruct (plain_not_end c Hc) as (He & _ & _).
    change ((c :: text) ++ rest) with (c :: text ++ rest).
    rewrite p_seq_step by exact He. rewrite p_piece_plain by exact Hc.
    rewrite p_quant_none.
    + rewrite (IH Ht k) by (simpl in Hlen; lia). reflexivity.
    + destruct text as [|d text]; [exact Hrest|].
      simpl in Ht. apply andb_true_iff in Ht. destruct Ht as [Hd _].
      apply negb_true_iff in Hd.
      destruct (plain_not_end d Hd) as (_ & Hq & Hb).
      change (piece_end (d :: text ++ rest) = true).
      unfold piece_end. now rewrite Hq, Hb.
Qed.

Lemma re_escape_cons c text :
  re_escape (c :: text) = escape_char c ++ re_escape text.
Proof. reflexivity. Qed.

Lemma escape_head c s : piece_end (escape_char c ++ s) = true.
Proof.
  unfold escape_char. destruct (is_special c) eqn:E; [reflexivity|].
  apply special_or_plain in E.
  destruct (plain_not_end c E) as (He & Hq & Hb).
  change (piece_end (c :: s) = true). unfold piece_end. now rewrite Hq, Hb.
Qed.

(** A text that went through [re.escape] in front of [rest]. *)
Lemma p_seq_escaped text rest r rest' k0 :
  piece_end rest = true ->
  (forall k, k0 <= k -> p_seq group k rest = POk (r, rest')) ->
  forall k, length text + k0 <= k ->
    p_seq group k (re_escape text ++ rest) = POk (lits text r, rest').
Proof.
  intros Hrest Hk. induction text as [|c text IH]; intros k Hlen.
  - simpl in *. now apply Hk.
  - destruct k as [|k]; [simpl in Hlen; lia|].
    rewrite re_escape_cons, <- app_assoc.
    assert (Hnext : piece_end (re_escape text ++ rest) = true).
    { destruct text as [|d text]; [exact Hrest|].
      rewrite re_escape_cons, <- app_assoc. apply escape_head. }
    specialize (IH k ltac:(simpl in Hlen; lia)).
    unfold escape_char.
    destruct (is_special c) eqn:E.
    + change ([ch "\"; c] ++ re_escape text ++ rest)
        with (ch "\" :: c :: re_escape text ++ rest).
      rewrite p_seq_step by reflexivity.
      rewrite p_piece_escaped by exact E.
      rewrite p_quant_none by exact Hnext. rewrite IH.
      reflexivity.
    + pose proof (special_or_plain _ E) as Hp.
      destruct (plain_not_end c Hp) as (He & _ & _).
      change ([c] ++ re_escape text ++ rest)
        with (c :: re_escape text ++ rest).
      rewrite p_seq_step by exact He. rewrite p_piece_plain by exact Hp.
      rewrite p_quant_none by exact Hnext. rewrite IH. reflexivity.
Qed.

End ParseLiteral.

(** The three interpolated patterns of the source, compiled. *)
Definition tag_re (tag : str) : regex :=
  Seq Bol (Seq (Star space_re)
    (lits tag (Seq (Star space_re) (Seq (Lit (ch ":")) Eps)))).

Definition heading_re (keyword : str) : regex :=
  Seq Bol (Seq (Plus (Lit (ch "#"))) (Seq space_re
    (Seq (Star Dot) (lits keyword Eps)))).

Definition bullet_re (keyword : str) : regex :=
  Seq Bol (Seq (Star space_re)
    (Seq (Cls false [IChar (ch "-"); IChar (ch "*")])
       (Seq space_re (Seq (Star Dot) (lits keyword Eps))))).

Definition plain (text : str) : bool :=
  forallb (fun c => negb (is_meta c)) text.

Section ParsePatterns.

Lemma p_seq_cons group k c s r s1 r' s2 :
  seq_end c = false ->
  p_piece group (c :: s) = POk (r, s1) ->
  p_seq group k s1 = POk (r', s2) ->
  p_seq group (S k) (c :: s) = POk (Seq r r', s2).
Proof.
  intros He Hp Hs. rewrite p_seq_step by exact He. now rewrite Hp, Hs.
Qed.

Lemma p_quant_rep a q s :
  is_quant q = true -> is_anchor a = false -> nullable a = false ->
  piece_end s = true ->
  p_quant a (q :: s) = POk (apply_quant q a, s).
Proof.
  intros Hq Ha Hn Hs. unfold p_quant. rewrite Hq, Ha, Hn.
  destruct s as [|c s]; [reflexivity|].
  unfold piece_end in Hs. unfold is_quant in Hs.
  rewrite andb_true_iff, !negb_true_iff, !orb_false_iff in Hs.
  destruct Hs as [[[H1 H2] H3] H4]. now rewrite H3, H2, H1, H4.
Qed.

Lemma plain_piece_end text rest :
  plain text = true -> piece_end rest = true -> piece_end (text ++ rest) = true.
Proof.
  destruct text as [|c text]; [auto|]. intros Ht _.
  unfold plain in Ht. cbn [forallb] in Ht.
  apply andb_true_iff in Ht. destruct Ht as [Hc _].
  apply negb_true_iff in Hc.
  destruct (plain_not_end c Hc) as (_ & Hq & Hb).
  change (piece_end (c :: text ++ rest) = true).
  unfold piece_end. now rewrite Hq, Hb.
Qed.

Lemma escaped_piece_end text rest :
  piece_end rest = true -> piece_end (re_escape text ++ rest) = true.
Proof.
  destruct text as [|c text]; [auto|]. intros _.
  rewrite re_escape_cons, <- app_assoc. apply escape_head.
Qed.

Lemma re_escape_length text : length text <= length (re_escape text).
Proof.
  induction text as [|c text IH]; [apply le_n|].
  rewrite re_escape_cons, length_app. unfold escape_char.
  destruct (is_special c); simpl; lia.
Qed.

Lemma p_seq_end group k : 1 <= k -> p_seq group k [] = POk (Eps, []).
Proof. destruct k; [lia|reflexivity]. Qed.

Lemma p_seq_tag_end group k :
  3 <= k ->
  p_seq group k (py "\s*:")
  = POk (Seq (Star space_re) (Seq (Lit (ch ":")) Eps), []).
Proof. destruct k as [|[|[|k]]]; try lia. reflexivity. Qed.

Lemma parse_of_seq pattern r :
  p_seq (p_alt (length pattern)) (S (length pattern)) pattern = POk (r, []) ->
  parse pattern = POk r.
Proof. unfold parse. cbn [p_alt]. now intros ->. Qed.

(** [^\s*], the escaped tag, [\s*:] *)
Lemma tag_pattern_compiles tag :
  parse (py "^\s*" ++ re_escape tag ++ py "\s*:") = POk (tag_re tag).
Proof.
  apply parse_of_seq.
  set (g := p_alt _).
  assert (L : length tag + 3
              <= length (py "^\s*" ++ re_escape tag ++ py "\s*:") - 2).
  { rewrite !length_app. pose proof (re_escape_length tag). simpl. lia. }
  remember (length (py "^\s*" ++ re_escape tag ++ py "\s*:")) as n eqn:En.
  destruct n as [|[|n]]; try (simpl in L; lia).
  change (py "^\s*" ++ re_escape tag ++ py "\s*:")
    with (ch "^" :: ch "\" :: ch "s" :: ch "*"
            :: re_escape tag ++ py "\s*:").
  eapply p_seq_cons; [reflexivity|reflexivity|].
  eapply p_seq_cons; [reflexivity| |].
  - change (p_piece g (ch "\" :: ch "s" :: ch "*" :: re_escape tag ++ py "\s*:"))
      with (p_quant space_re (ch "*" :: re_escape tag ++ py "\s*:")).
    apply (@p_quant_rep space_re (ch "*")); try reflexivity.
    now apply escaped_piece_end.
  - apply (@p_seq_escaped g tag (py "\s*:") _ [] 3).
    + reflexivity.
    + intros k Hk. now apply p_seq_tag_end.
    + simpl in L. lia.
Qed.

(** [^#+\s.*] and a keyword without metacharacters *)
Lemma heading_pattern_compiles keyword :
  plain keyword = true ->
  parse (heading_prefix ++ keyword) = POk (heading_re keyword).
Proof.
  intros Hp. apply parse_of_seq.
  set (g := p_alt _).
  assert (L : length keyword + 1 <= length (heading_prefix ++ keyword) - 3).
  { rewrite !length_app. simpl. lia. }
  remember (length (heading_prefix ++ keyword)) as n eqn:En.
  destruct n as [|[|[|n]]]; try (simpl in L; lia).
  change (heading_prefix ++ keyword)
    with (ch "^" :: ch "#" :: ch "+" :: ch "\" :: ch "s"
            :: ch "." :: ch "*" :: keyword).
  eapply p_seq_cons; [reflexivity|reflexivity|].
  eapply p_seq_cons; [reflexivity|reflexivity|].
  eapply p_seq_cons; [reflexivity|reflexivity|].
  eapply p_seq_cons; [reflexivity| |].
  - change (p_piece g (ch "." :: ch "*" :: keyword))
      with (p_quant Dot (ch "*" :: keyword)).
    apply (@p_quant_rep Dot (ch "*")); try reflexivity.
    rewrite <- (app_nil_r keyword). now apply plain_piece_end.
  - rewrite <- (app_nil_r keyword) at 1.
    apply (@p_seq_plain g keyword [] Eps [] 1); try assumption.
    + reflexivity.
    + intros k Hk. now apply p_seq_end.
    + simpl in L. lia.
Qed.

(** [^\s*[-*]\s.*] and a keyword without metacharacters *)
Lemma bullet_pattern_compiles keyword :
  plain keyword = true ->
  parse (bullet_prefix ++ keyword) = POk (bullet_re keyword).
Proof.
  intros Hp. apply parse_of_seq.
  set (g := p_alt _).
  assert (L : length keyword + 1 <= length (bullet_prefix ++ keyword) - 5).
  { rewrite !length_app. simpl. lia. }
  remember (length (bullet_prefix ++ keyword)) as n eqn:En.
  destruct n as [|[|[|[|[|n]]]]]; try (simpl in L; lia).
  change (bullet_prefix ++ keyword)
    with (ch "^" :: ch "\" :: ch "s" :: ch "*" :: ch "[" :: ch "-"
            :: ch "*" :: ch "]" :: ch "\" :: ch "s"
            :: ch "." :: ch "*" :: keyword).
  eapply p_seq_cons; [reflexivity|reflexivity|].
  eapply p_seq_cons; [reflexivity|reflexivity|].
  eapply p_seq_cons; [reflexivity|reflexivity|].
  eapply p_seq_cons; [reflexivity|reflexivity|].
  eapply p_seq_cons; [reflexivity| |].
  - change (p_piece g (ch "." :: ch "*" :: keyword))
      with (p_quant Dot (ch "*" :: keyword)).
    apply (@p_quant_rep Dot (ch "*")); try reflexivity.
    rewrite <- (app_nil_r keyword). now apply plain_piece_end.
  - rewrite <- (app_nil_r keyword) at 1.
    apply (@p_seq_plain g keyword [] Eps [] 1); try assumption.
    + reflexivity.
    + intros k Hk. now apply p_seq_end.
    + simpl in L. lia.
Qed.

End ParsePatterns.

(** ** Matches of sequences of characters *)

Section LiteralMatch.

Variable fl : flags.

(** [r] matches exactly one character, those that pass [f]. *)
Definition one_char (r : regex) (f : ascii -> bool) : Prop :=
  forall p s b,
    Match fl r (p, s) b <->
    exists c s', s = c :: s' /\ b = (Some c, s') /\ f c = true.

Lemma one_char_cls neg items :
  one_char (Cls neg items) (cls_match (ignorecase fl) neg items).
Proof.
  intros p s b. split.
  - apply Match_cls_inv.
  - intros (c & s' & -> & -> & H). now constructor.
Qed.

Lemma one_char_dot : one_char Dot (fun c => negb (chr_eqb c newline)).
Proof.
  intros p s b. split.
  - intros M. apply Match_dot_inv in M.
    destruct M as (c & s' & -> & -> & H). exists c, s'. now rewrite H.
  - intros (c & s' & -> & -> & H). constructor.
    now apply negb_true_iff in H.
Qed.

Lemma one_char_lit x :
  one_char (Lit x) (fun c => item_match (ignorecase fl) c (IChar x)).
Proof.
  intros p s b. split.
  - apply Match_lit_inv.
  - intros (c & s' & -> & -> & H). now constructor.
Qed.

Lemma prev_after_app p u v :
  prev_after p (u ++ v) = prev_after (prev_after p u) v.
Proof.
  revert p. induction u as [|c u IH]; intros p; [reflexivity|].
  change ((c :: u) ++ v) with (c :: u ++ v).
  now rewrite !prev_after_cons, IH.
Qed.

Lemma prev_after_one p c : prev_after p [c] = Some c.
Proof. reflexivity. Qed.

(** A repetition of a one-character pattern matches a run of such
    characters. *)
Lemma star_one_char_inv r f a b :
  one_char r f ->
  Match fl (Star r) a b ->
  exists w, snd a = w ++ snd b /\ fst b = prev_after (fst a) w
            /\ forallb f w = true.
Proof.
  intros Hr M. remember (Star r) as sr eqn:E.
  induction M; try discriminate; inversion E; subst; clear E.
  - exists []. repeat split.
  - destruct (IHM2 eq_refl) as (w & Hw & Hp & Hall). simpl in Hw, Hp.
    apply Hr in M1. destruct M1 as (c1 & s0 & -> & B & Hc).
    inversion B; subst. exists (c1 :: w). simpl. repeat split.
    + now rewrite Hp, prev_after_cons.
    + now rewrite Hc, Hall.
Qed.

Lemma star_one_char_intro r f :
  one_char r f ->
  forall w p s, forallb f w = true ->
    Match fl (Star r) (p, w ++ s) (prev_after p w, s).
Proof.
  intros Hr. induction w as [|c w IH]; intros p s Hall.
  - apply MStar0.
  - simpl in Hall. apply andb_true_iff in Hall. destruct Hall as [Hc Hall].
    rewrite prev_after_cons.
    apply MStarS with (p1 := Some c) (s1 := w ++ s).
    + apply Hr. exists c, (w ++ s). auto.
    + simpl. lia.
    + now apply IH.
Qed.

(** The text [t'] matches the literals of [t], character by
    character. *)
Definition same_text (t' t : str) : Prop :=
  Forall2 (fun c x => item_match (ignorecase fl) c (IChar x) = true) t' t.

Lemma lits_inv t r :
  forall p s b,
    Match fl (lits t r) (p, s) b ->
    exists t' s', s = t' ++ s' /\ same_text t' t
                  /\ Match fl r (prev_after p t', s') b.
Proof.
  induction t as [|x t IH]; intros p s b M.
  - exists [], s. repeat split; [constructor|exact M].
  - simpl in M. apply Match_seq_inv in M. destruct M as ([p1 s1] & ML & M).
    apply Match_lit_inv in ML. destruct ML as (c & s' & -> & B & Hc).
    inversion B; subst. apply IH in M.
    destruct M as (t' & s2 & -> & Ht & M).
    exists (c :: t'), s2. repeat split.
    + now constructor.
    + now rewrite prev_after_cons.
Qed.

Lemma lits_intro t r :
  forall t' p s b,
    same_text t' t ->
    Match fl r (prev_after p t', s) b ->
    Match fl (lits t r) (p, t' ++ s) b.
Proof.
  induction t as [|x t IH]; intros t' p s b Ht M; inversion Ht; subst.
  - exact M.
  - simpl. apply MSeq with (b := (Some x0, l ++ s)).
    + now constructor.
    + apply IH; [assumption|]. now rewrite prev_after_cons in M.
Qed.

Lemma bol_iff skipped :
  at_bol fl (prev_after None skipped) = true <->
  skipped = [] \/ (multiline fl = true /\ exists pre, skipped = pre ++ [newline]).
Proof.
  destruct skipped as [|c sk] using rev_ind.
  - simpl. split; auto.
  - rewrite prev_after_app, prev_after_one. simpl.
    rewrite andb_true_iff, chr_eqb_eq. split.
    + intros [Hm ->]. right. eauto.
    + intros [H|[Hm (pre & E)]].
      * now destruct sk.
      * apply app_inj_tail in E. destruct E as [_ ->]. auto.
Qed.

End LiteralMatch.

(** ** has_tags (C6) *)

(** [pre] ends where a line starts. *)
Definition at_line_start (pre : str) : Prop :=
  pre = [] \/ exists pre', pre = pre' ++ [newline].

(** The fourth form as the source tests it: at the start of a line,
    optional whitespace, the tag, optional whitespace, a colon. *)
Definition tag_colon_form (content_lower tag_lower : str) : Prop :=
  exists pre ws1 ws2 rest,
    content_lower = pre ++ ws1 ++ tag_lower ++ ws2 ++ ch ":" :: rest
    /\ at_line_start pre
    /\ forallb isspace ws1 = true /\ forallb isspace ws2 = true.

(** The fourth form as the specification words it: a line that, after its
    leading whitespace, starts with the tag and a colon. *)
Definition claimed_colon_form (content_lower tag_lower : str) : Prop :=
  exists line, In line (split_lines content_lower)
               /\ startswith (lstrip line) (tag_lower ++ py ":") = true.

Definition bracket_forms (content_lower tag_lower : str) : Prop :=
  contains content_lower (py "#" ++ tag_lower) = true
  \/ contains content_lower (py "[" ++ tag_lower ++ py "]") = true
  \/ contains content_lower (py "[[" ++ tag_lower ++ py "]]") = true.

Section Tags.

Lemma space_class ic c : cls_match ic false [ISpace] c = isspace c.
Proof.
  unfold cls_match, item_match. simpl. now rewrite orb_false_r.
Qed.

Lemma one_char_space fl : one_char fl space_re isspace.
Proof.
  intros p s b. rewrite (one_char_cls fl false [ISpace] p s b).
  split; intros (c & s' & E1 & E2 & H); exists c, s';
    rewrite space_class in *; auto.
Qed.

Lemma same_text_exact fl t' t :
  ignorecase fl = false -> same_text fl t' t -> t' = t.
Proof.
  intros Hic H. induction H as [|c x t' t Hc _ IH]; [reflexivity|].
  unfold item_match in Hc. rewrite Hic in Hc.
  apply chr_eqb_eq in Hc. now subst.
Qed.

Lemma same_text_refl fl t : ignorecase fl = false -> same_text fl t t.
Proof.
  intros Hic. induction t as [|x t IH]; constructor; [|exact IH].
  unfold item_match. rewrite Hic. now apply chr_eqb_eq.
Qed.

Lemma tag_match_iff tag p s :
  (exists b, Match MULTILINE (tag_re tag) (p, s) b) <->
  at_bol MULTILINE p = true
  /\ exists ws1 ws2 rest,
       s = ws1 ++ tag ++ ws2 ++ ch ":" :: rest
       /\ forallb isspace ws1 = true /\ forallb isspace ws2 = true.
Proof.
  unfold tag_re. split.
  - intros (b & M).
    apply Match_seq_inv in M. destruct M as ([p0 s0] & MB & M).
    apply Match_bol_inv in MB. destruct MB as [B Hb]. inversion B; subst.
    split; [assumption|].
    apply Match_seq_inv in M. destruct M as ([p1 s1] & MS & M).
    apply (star_one_char_inv (one_char_space MULTILINE)) in MS.
    destruct MS as (ws1 & E1 & P1 & H1). simpl in E1, P1. subst s p1.
    apply lits_inv in M. destruct M as (t' & s2 & -> & Ht & M).
    apply same_text_exact in Ht; [subst t'|reflexivity].
    apply Match_seq_inv in M. destruct M as ([p3 s3] & MS & M).
    apply (star_one_char_inv (one_char_space MULTILINE)) in MS.
    destruct MS as (ws2 & E2 & P2 & H2). simpl in E2, P2. subst s2 p3.
    apply Match_seq_inv in M. destruct M as ([p4 s4] & ML & M).
    apply Match_lit_inv in ML. destruct ML as (c & rest & -> & _ & Hc).
    unfold item_match in Hc. simpl in Hc. apply chr_eqb_eq in Hc. subst c.
    exists ws1, ws2, rest. auto.
  - intros (Hb & ws1 & ws2 & rest & -> & H1 & H2).
    eexists. eapply MSeq; [now constructor|].
    eapply MSeq;
      [exact (star_one_char_intro (one_char_space MULTILINE) ws1 p _ H1)|].
    apply lits_intro; [now apply same_text_refl|].
    eapply MSeq;
      [exact (star_one_char_intro (one_char_space MULTILINE) ws2 _ _ H2)|].
    eapply MSeq; [|apply MEps].
    constructor. reflexivity.
Qed.

Lemma tag_search_iff tag s :
  search MULTILINE (tag_re tag) s = true <-> tag_colon_form s tag.
Proof.
  rewrite search_true_iff. unfold tag_colon_form. split.
  - intros (sk & rest & b & -> & M).
    destruct (proj1 (tag_match_iff tag _ rest) (ex_intro _ b M))
      as (Hb & ws1 & ws2 & rest' & -> & H1 & H2).
    exists sk, ws1, ws2, rest'. repeat split; try assumption.
    apply bol_iff in Hb. destruct Hb as [->|[_ (pre & ->)]].
    + now left.
    + right. eauto.
  - intros (pre & ws1 & ws2 & rest & -> & Hp & H1 & H2).
    assert (Hb : at_bol MULTILINE (prev_after None pre) = true).
    { apply bol_iff. destruct Hp as [->|(pre' & ->)]; [now left|].
      right. split; [reflexivity|eauto]. }
    destruct (proj2 (tag_match_iff tag (prev_after None pre)
                       (ws1 ++ tag ++ ws2 ++ ch ":" :: rest))) as [b M].
    { split; [assumption|]. exists ws1, ws2, rest. auto. }
    exists pre, (ws1 ++ tag ++ ws2 ++ ch ":" :: rest), b. auto.
Qed.

(** The tag matcher never raises: the escaped tag always compiles. *)
Lemma has_tags_loop_spec content_lower tags :
  exists b, has_tags_loop content_lower tags = Done b
    /\ (b = true <->
        exists tag, In tag tags
          /\ (bracket_forms content_lower (lower tag)
              \/ tag_colon_form content_lower (lower tag))).
Proof.
  induction tags as [|tag tags IH].
  - exists false. split; [reflexivity|].
    split; [discriminate|]. intros (tag & [] & _).
  - cbn [has_tags_loop]. unfold re_search.
    rewrite tag_pattern_compiles. unfold bind.
    destruct (contains content_lower (py "#" ++ lower tag)) eqn:E1.
    { exists true. split; [reflexivity|]. split; [|reflexivity].
      intros _. exists tag. split; [now left|]. left. now left. }
    destruct (contains content_lower (py "[" ++ lower tag ++ py "]")) eqn:E2.
    { exists true. split; [reflexivity|]. split; [|reflexivity].
      intros _. exists tag. split; [now left|]. left. right. now left. }
    destruct (contains content_lower (py "[[" ++ lower tag ++ py "]]")) eqn:E3.
    { exists true. split; [reflexivity|]. split; [|reflexivity].
      intros _. exists tag. split; [now left|]. left. right. now right. }
    destruct (search MULTILINE (tag_re (lower tag)) content_lower) eqn:E4.
    { exists true. split; [reflexivity|]. split; [|reflexivity].
      intros _. exists tag. split; [now left|]. right.
      now apply tag_search_iff. }
    destruct IH as (b & Hb & Hiff). exists b. split; [exact Hb|].
    rewrite Hiff. split.
    + intros (t & Hin & H). exists t. split; [now right|exact H].
    + intros (t & [<-|Hin] & H); [|eauto].
      exfalso. destruct H as [[H|[H|H]]|H]; try congruence.
      apply tag_search_iff in H. congruence.
Qed.

End Tags.

Lemma startswith_iff s p : startswith s p = true <-> exists rest, s = p ++ rest.
Proof.
  revert s. induction p as [|x p IH]; intros s; simpl.
  - split; [eauto|]. intros _. now destruct s.
  - destruct s as [|y s]; simpl.
    + split; [discriminate|]. intros (rest & E). discriminate.
    + rewrite andb_true_iff, chr_eqb_eq, IH. split.
      * intros (-> & rest & ->). eauto.
      * intros (rest & E). inversion E; subst. eauto.
Qed.

(** [sub in s]: [sub] occurs somewhere in [s]. *)
Lemma contains_iff s sub :
  contains s sub = true <-> exists pre rest, s = pre ++ sub ++ rest.
Proof.
  induction s as [|c s IH].
  - cbn [contains]. rewrite orb_false_r, startswith_iff. split.
    + intros (rest & E). exists [], rest. exact E.
    + intros (pre & rest & E). destruct pre; [simpl in E; eauto|discriminate].
  - cbn [contains]. rewrite orb_true_iff, startswith_iff, IH. split.
    + intros [(rest & E)|(pre & rest & E)].
      * exists [], rest. exact E.
      * exists (c :: pre), rest. now rewrite E.
    + intros (pre & rest & E). destruct pre as [|d pre].
      * left. simpl in E. eauto.
      * right. inversion E; subst. eauto.
Qed.

(** C6, the statement that fails: a tag followed by a space and a colon
    is accepted, although it occurs in none of the four forms. *)
Lemma has_tags_space_before_colon :
  has_tags (py "project :") [py "project"] = Done true
  /\ ~ (bracket_forms (lower (py "project :")) (lower (py "project"))
        \/ claimed_colon_form (lower (py "project :")) (lower (py "project"))).
Proof.
  split; [vm_compute; reflexivity|].
  intros [[H|[H|H]]|(line & Hin & H)]; try (vm_compute in H; discriminate).
  vm_compute in Hin. destruct Hin as [<-|[]].
  vm_compute in H. discriminate.
Qed.

(** C6, amended: [has_tags] never raises and returns true exactly when,
    for some requested tag and with both the content and the tag in lower
    case, the content contains [#tag], [[tag]] or [[[tag]]], or the tag
    stands at the start of a line after optional whitespace and is
    followed by optional whitespace and a colon.  The four written forms
    of the tag "project" match and "myproject" does not. *)
Theorem has_tags_forms (content : str) (tags : list str) :
  (exists b, has_tags content tags = Done b
     /\ (b = true <->
         exists tag, In tag tags
           /\ (bracket_forms (lower content) (lower tag)
               \/ tag_colon_form (lower content) (lower tag))))
  /\ has_tags (py "#project") [py "project"] = Done true
  /\ has_tags (py "[project]") [py "project"] = Done true
  /\ has_tags (py "[[project]]") [py "project"] = Done true
  /\ has_tags (py "  Project: x") [py "project"] = Done true
  /\ has_tags (py "myproject") [py "project"] = Done false.
Proof.
  split; [apply has_tags_loop_spec|].
  repeat split; vm_compute; reflexivity.
Qed.

(** The tag filter of the search never raises. *)
Lemma tags_pass_total tags content : exists b, tags_pass tags content = Done b.
Proof.
  destruct tags as [[|t ts]|]; simpl; eauto.
  destruct (has_tags_loop_spec (lower content) (t :: ts)) as (b & H & _).
  eauto.
Qed.

(** The document is left out when it scores nothing. *)
Lemma examine_zero mt tags content :
  score_with mt content = Done 0%Q -> examine mt tags content = Done None.
Proof.
  intros H. unfold examine, bind.
  destruct (tags_pass_total tags content) as [[|] ->]; [|reflexivity].
  now rewrite H.
Qed.

(** C2, the statement that fails: a match on a line that starts with a
    dash not followed by a space earns no bonus. *)
Lemma score_content_regex_dash_without_space :
  parse (py "foo") = POk (lits (py "foo") Eps)
  /\ ~ (score_content_regex (py "-foo") (lits (py "foo") Eps)
        == claimed_regex_score (py "-foo") (lits (py "foo") Eps))%Q.
Proof.
  split; [reflexivity|]. intros H. vm_compute in H. discriminate.
Qed.

(** C2, amended: the score of a document for a compiled pattern is 2.0
    for every match plus, for every match, 3.0 if the text from the start
    of the line in which the match starts up to the end of the match
    starts with [#], else 1.5 if that text, stripped of surrounding
    whitespace, starts with a dash, a star or a plus sign followed by a
    space; a document without a match scores 0 and is left out, a document
    with a match scores more than 0. *)
Theorem score_content_regex_sum (content : str) (pattern : regex) :
  let matches := finditer IGNORECASE pattern content in
  (score_content_regex content pattern
   == times (length matches) 2 + Qsum (map (bonus content) matches))%Q
  /\ (matches = [] ->
      score_content_regex content pattern = 0%Q
      /\ forall tags, examine (ByPattern pattern) tags content = Done None)
  /\ (matches <> [] -> (0 < score_content_regex content pattern)%Q).
Proof.
  intros matches. unfold score_content_regex. fold matches.
  split; [|split].
  - destruct matches as [|sp ms] eqn:E.
    + vm_compute. reflexivity.
    + rewrite <- E. apply bonus_loop_sum.
  - intros E. rewrite E. split; [reflexivity|].
    intros tags. apply examine_zero. unfold score_with, score_content_regex.
    fold matches. now rewrite E.
  - intros Hne. destruct matches as [|sp ms] eqn:E; [congruence|].
    rewrite <- E, bonus_loop_sum.
    apply Qlt_le_trans with (y := (times (length matches) 2 + 0)%Q).
    + rewrite Qplus_0_r. apply times_pos; [rewrite E; simpl; lia|reflexivity].
    + apply Qplus_le_r. apply Qsum_bonus_nonneg.
Qed.

(** A match that spans two lines is judged by the line in which it
    starts, not by the one in which it ends. *)
Example score_content_regex_two_lines :
  let content := py "x" ++ [newline] ++ py "#y" in
  exists pattern,
    parse (py "x\s#y") = POk pattern
    /\ finditer IGNORECASE pattern content = [(0, 4)]
    /\ (score_content_regex content pattern == 2)%Q
    /\ (claimed_regex_score content pattern == 5)%Q.
Proof.
  eexists. split; [vm_compute; reflexivity|].
  repeat split; vm_compute; reflexivity.
Qed.

(** ** Lines and positions *)

Definition is_nl (c : ascii) : bool := chr_eqb c newline.

(** No line break in [s]. *)
Definition no_nl (s : str) : bool := forallb (fun c => negb (is_nl c)) s.

(** [post] starts where a line ends. *)
Definition at_line_end (post : str) : Prop :=
  post = [] \/ exists post', post = newline :: post'.

Section Lines.

Lemma is_nl_true c : is_nl c = true <-> c = newline.
Proof. apply chr_eqb_eq. Qed.

Lemma no_nl_app a b : no_nl (a ++ b) = no_nl a && no_nl b.
Proof. unfold no_nl. now rewrite forallb_app. Qed.

Lemma split_lines_cons c s :
  split_lines (c :: s)
  = if is_nl c then [] :: split_lines s
    else match split_lines s with
         | l :: ls => (c :: l) :: ls
         | [] => [[c]]
         end.
Proof. reflexivity. Qed.

Lemma split_lines_not_nil s : split_lines s <> [].
Proof.
  induction s as [|c s IH]; [discriminate|].
  rewrite split_lines_cons. destruct (is_nl c); [discriminate|].
  destruct (split_lines s); [congruence|discriminate].
Qed.

(** The first line and what follows it. *)
Lemma first_line s :
  exists l ls, split_lines s = l :: ls /\ no_nl l = true
    /\ exists post, s = l ++ post /\ at_line_end post
         /\ (post = [] -> ls = [])
         /\ (forall post', post = newline :: post' -> ls = split_lines post').
Proof.
  induction s as [|c s IH].
  - exists [], []. repeat split. exists []. repeat split.
    + now left.
    + intros post' E. discriminate.
  - rewrite split_lines_cons. destruct (is_nl c) eqn:E.
    + apply is_nl_true in E. subst c.
      exists [], (split_lines s). repeat split.
      exists (newline :: s). repeat split.
      * right. eauto.
      * discriminate.
      * intros post' H. now inversion H.
    + destruct IH as (l & ls & -> & Hl & post & -> & Hend & Hnil & Hcons).
      exists (c :: l), ls. repeat split.
      * simpl. now rewrite E, Hl.
      * exists post. repeat split; assumption.
Qed.

(** Every line of a text is framed by line boundaries. *)
Lemma line_in_text_bounded n :
  forall s, length s <= n ->
  forall l, In l (split_lines s) ->
    no_nl l = true
    /\ exists pre post, s = pre ++ l ++ post
         /\ at_line_start pre /\ at_line_end post.
Proof.
  induction n as [|n IH]; intros s Hn l Hin;
    destruct (first_line s)
      as (l0 & ls & E & Hl0 & post & Es & Hend & Hnil & Hcons);
    rewrite E in Hin; destruct Hin as [<-|Hin];
    try (split; [assumption|]; exists [], post;
         repeat split; [assumption|now left|assumption]);
    (destruct Hend as [->|(post' & ->)];
     [rewrite (Hnil eq_refl) in Hin; contradiction|]).
  - exfalso. rewrite Es, length_app in Hn. simpl in Hn. lia.
  - rewrite (Hcons post' eq_refl) in Hin.
    assert (Hlt : length post' <= n).
    { rewrite Es, length_app in Hn. simpl in Hn. lia. }
    destruct (IH post' Hlt l Hin) as (Hl & pre & post2 & Ep & Hs & He).
    split; [assumption|].
    exists (l0 ++ newline :: pre), post2. repeat split.
    + rewrite Es, Ep. now rewrite <- app_assoc.
    + destruct Hs as [->|(pre' & ->)].
      * right. exists l0. reflexivity.
      * right. exists (l0 ++ newline :: pre').
        now rewrite <- app_assoc.
    + assumption.
Qed.

Lemma line_in_text s l :
  In l (split_lines s) ->
  no_nl l = true
  /\ exists pre post, s = pre ++ l ++ post
       /\ at_line_start pre /\ at_line_end post.
Proof. apply (@line_in_text_bounded (length s)). apply le_n. Qed.

Lemma split_lines_app a b :
  split_lines (a ++ newline :: b) = split_lines a ++ split_lines b.
Proof.
  induction a as [|c a IH]; [reflexivity|].
  change ((c :: a) ++ newline :: b) with (c :: a ++ newline :: b).
  rewrite !split_lines_cons, IH. destruct (is_nl c); [reflexivity|].
  pose proof (split_lines_not_nil a).
  destruct (split_lines a); [congruence|reflexivity].
Qed.

Lemma split_lines_one l : no_nl l = true -> split_lines l = [l].
Proof.
  induction l as [|c l IH]; [reflexivity|]. simpl no_nl.
  rewrite andb_true_iff, negb_true_iff. intros [Hc Hl].
  now rewrite split_lines_cons, Hc, (IH Hl).
Qed.

(** A text framed by line boundaries and free of line breaks is a
    line. *)
Lemma text_in_lines s pre l post :
  s = pre ++ l ++ post -> at_line_start pre -> at_line_end post ->
  no_nl l = true -> In l (split_lines s).
Proof.
  intros -> Hs He Hl.
  assert (H : In l (split_lines (l ++ post))).
  { destruct He as [->|(post' & ->)].
    - rewrite app_nil_r, (split_lines_one _ Hl). now left.
    - rewrite split_lines_app, (split_lines_one _ Hl). now left. }
  destruct Hs as [->|(pre' & ->)]; [exact H|].
  rewrite <- app_assoc. change ([newline] ++ l ++ post)
    with (newline :: l ++ post).
  rewrite split_lines_app. apply in_or_app. now right.
Qed.

(** A text up to its first line break. *)
Lemma cut_at_line_end s :
  exists a b, s = a ++ b /\ no_nl a = true /\ at_line_end b.
Proof.
  destruct (first_line s) as (l & ls & _ & Hl & post & E & He & _).
  eauto.
Qed.

(** A text from its last line break on. *)
Lemma cut_at_line_start s :
  exists a b, s = a ++ b /\ no_nl b = true /\ at_line_start a.
Proof.
  induction s as [|c s IH] using rev_ind.
  - exists [], []. repeat split. now left.
  - destruct (is_nl c) eqn:E.
    + apply is_nl_true in E. subst c.
      exists (s ++ [newline]), []. rewrite app_nil_r. repeat split.
      right. eauto.
    + destruct IH as (a & b & -> & Hb & Ha).
      exists a, (b ++ [c]). rewrite <- app_assoc. repeat split; [|assumption].
      rewrite no_nl_app, Hb. simpl. now rewrite E.
Qed.

End Lines.

(** [line_start content e] is the offset just after the last line break
    before offset [e]: the start of the line that holds offset [e]. *)
Lemma line_start_aux_spec s :
  forall e pos start,
    exists a b,
      firstn e s = a ++ b /\ no_nl b = true
      /\ ((a = [] /\ line_start_aux s e pos start = start)
          \/ ((exists a', a = a' ++ [newline])
              /\ line_start_aux s e pos start = pos + length a)).
Proof.
  induction s as [|c s IH]; intros e pos start.
  - exists [], []. destruct e; simpl; auto.
  - destruct e as [|e].
    + exists [], []. simpl. auto.
    + cbn [line_start_aux firstn].
      destruct (IH e (S pos) (if chr_eqb c newline then S pos else start))
        as (a & b & E & Hb & [[-> R]|[(a' & ->) R]]).
      * destruct (chr_eqb c newline) eqn:Hc.
        -- apply chr_eqb_eq in Hc. subst c.
           exists [newline], b. simpl in E. rewrite E. repeat split; auto.
           right. split; [exists []; reflexivity|]. rewrite R. simpl. lia.
        -- exists [], (c :: b). simpl in E. rewrite E. simpl.
           unfold is_nl. rewrite Hc, Hb. auto.
      * exists (c :: a' ++ [newline]), b. rewrite E. repeat split; auto.
        right. split; [exists (c :: a'); reflexivity|].
        rewrite R. simpl. lia.
Qed.

Lemma line_start_spec content e :
  exists a b,
    firstn e content = a ++ b /\ no_nl b = true /\ at_line_start a
    /\ line_start content e = length a.
Proof.
  unfold line_start.
  destruct (line_start_aux_spec content e 0 0)
    as (a & b & E & Hb & [[-> R]|[(a' & ->) R]]).
  - exists [], b. repeat split; auto. now left.
  - exists (a' ++ [newline]), b. repeat split; auto. right. eauto.
Qed.

(** ** score_content (C1) *)

Definition is_hash (c : ascii) : bool := chr_eqb c (ch "#").
Definition is_bullet_mark (c : ascii) : bool :=
  chr_eqb c (ch "-") || chr_eqb c (ch "*").

(** What the two patterns of [score_content] look for, for a keyword
    without metacharacters, as positions in the content: at the start of a
    line, the marks, one whitespace character, any text without line
    break, and the keyword up to case. *)
Definition heading_form (content keyword : str) : Prop :=
  exists pre hashes c mid t rest,
    content = pre ++ hashes ++ c :: mid ++ t ++ rest
    /\ at_line_start pre
    /\ hashes <> [] /\ forallb is_hash hashes = true
    /\ isspace c = true /\ no_nl mid = true /\ lower t = lower keyword.

Definition bullet_form (content keyword : str) : Prop :=
  exists pre ws mark c mid t rest,
    content = pre ++ ws ++ mark :: c :: mid ++ t ++ rest
    /\ at_line_start pre
    /\ forallb isspace ws = true /\ is_bullet_mark mark = true
    /\ isspace c = true /\ no_nl mid = true /\ lower t = lower keyword.

Section KeywordPatterns.

Let MI := MULTILINE_IGNORECASE.

Lemma hash_literal c : item_match true c (IChar (ch "#")) = is_hash c.
Proof. each_char c. Qed.

Lemma bullet_class c :
  cls_match true false [IChar (ch "-"); IChar (ch "*")] c = is_bullet_mark c.
Proof. each_char c. Qed.

Lemma same_text_lower t' t : same_text MI t' t <-> lower t' = lower t.
Proof.
  split.
  - induction 1 as [|c x t' t Hc _ IH]; [reflexivity|].
    unfold item_match in Hc. simpl in Hc. apply chr_eqb_eq in Hc.
    simpl. now rewrite Hc, IH.
  - revert t. induction t' as [|c t' IH]; intros [|x t] E;
      try discriminate; constructor.
    + inversion E. unfold item_match. simpl. now apply chr_eqb_eq.
    + apply IH. now inversion E.
Qed.

Lemma contains_lower r k :
  contains (lower r) k = true <->
  exists mid t rest, r = mid ++ t ++ rest /\ lower t = k.
Proof.
  rewrite contains_iff. unfold lower. split.
  - intros (pre & rest & E).
    apply map_eq_app in E. destruct E as (mid & tl & -> & <- & E).
    apply map_eq_app in E. destruct E as (t & rest' & -> & <- & <-).
    eauto.
  - intros (mid & t & rest & -> & <-).
    exists (map lower_char mid), (map lower_char rest).
    now rewrite !map_app.
Qed.

Lemma one_char_hash : one_char MI (Lit (ch "#")) is_hash.
Proof.
  intros p s b. rewrite (one_char_lit MI (ch "#") p s b).
  split; intros (c & s' & E1 & E2 & H); exists c, s';
    change (ignorecase MI) with true in *; rewrite hash_literal in *; auto.
Qed.

Lemma one_char_bullet :
  one_char MI (Cls false [IChar (ch "-"); IChar (ch "*")]) is_bullet_mark.
Proof.
  intros p s b. rewrite (one_char_cls MI false _ p s b).
  split; intros (c & s' & E1 & E2 & H); exists c, s';
    change (ignorecase MI) with true in *; rewrite bullet_class in *; auto.
Qed.

Lemma one_char_any : one_char MI Dot (fun c => negb (is_nl c)).
Proof. apply one_char_dot. Qed.

(** The tail [.*keyword] of both patterns. *)
Lemma tail_iff keyword p s :
  (exists b, Match MI (Seq (Star Dot) (lits keyword Eps)) (p, s) b) <->
  exists mid t rest, s = mid ++ t ++ rest /\ no_nl mid = true
                     /\ lower t = lower keyword.
Proof.
  split.
  - intros (b & M).
    apply Match_seq_inv in M. destruct M as ([p1 s1] & MS & M).
    apply (star_one_char_inv one_char_any) in MS.
    destruct MS as (mid & E & _ & Hmid). simpl in E. subst s.
    apply lits_inv in M. destruct M as (t & rest & -> & Ht & _).
    apply same_text_lower in Ht. exists mid, t, rest. auto.
  - intros (mid & t & rest & -> & Hmid & Ht).
    eexists. eapply MSeq.
    + exact (star_one_char_intro one_char_any mid p _ Hmid).
    + apply lits_intro; [now apply same_text_lower|apply MEps].
Qed.

Lemma heading_search_iff content keyword :
  search MI (heading_re keyword) content = true
  <-> heading_form content keyword.
Proof.
  rewrite search_true_iff. unfold heading_form, heading_re. split.
  - intros (pre & s & b & -> & M).
    apply Match_seq_inv in M. destruct M as ([p0 s0] & MB & M).
    apply Match_bol_inv in MB. destruct MB as [B Hb]. inversion B; subst.
    apply Match_seq_inv in M. destruct M as ([p1 s1] & MP & M).
    apply Match_plus_inv in MP. destruct MP as ([p2 s2] & MH & MS).
    apply one_char_hash in MH. destruct MH as (h & s' & -> & B' & Hh).
    inversion B'; subst.
    apply (star_one_char_inv one_char_hash) in MS.
    destruct MS as (hs & E & _ & Hhs). simpl in E. subst s'.
    apply Match_seq_inv in M. destruct M as ([p3 s3] & MC & M).
    apply one_char_space in MC. destruct MC as (c & s' & -> & B'' & Hc).
    inversion B''; subst.
    destruct (proj1 (tail_iff keyword _ _) (ex_intro _ b M))
      as (mid & t & rest & -> & Hmid & Ht).
    exists pre, (h :: hs), c, mid, t, rest. repeat split; try assumption.
    + apply bol_iff in Hb. destruct Hb as [->|[_ (pre' & ->)]];
        [now left|right; eauto].
    + discriminate.
    + simpl. now rewrite Hh, Hhs.
  - intros (pre & hashes & c & mid & t & rest & -> & Hp & Hne & Hh & Hc & Hmid & Ht).
    destruct hashes as [|h hs]; [congruence|].
    simpl in Hh. apply andb_true_iff in Hh. destruct Hh as [Hh Hhs].
    destruct (proj2 (tail_iff keyword (Some c) (mid ++ t ++ rest))) as [b M].
    { exists mid, t, rest. auto. }
    exists pre, ((h :: hs) ++ c :: mid ++ t ++ rest), b.
    split; [reflexivity|].
    eapply MSeq.
    { constructor. apply bol_iff.
      destruct Hp as [->|(pre' & ->)]; [now left|right].
      split; [reflexivity|eauto]. }
    eapply MSeq.
    { eapply MPlus.
      - apply one_char_hash. exists h, (hs ++ c :: mid ++ t ++ rest). auto.
      - exact (star_one_char_intro one_char_hash hs _ _ Hhs). }
    eapply MSeq; [|exact M].
    apply one_char_space. exists c, (mid ++ t ++ rest). auto.
Qed.

Lemma bullet_search_iff content keyword :
  search MI (bullet_re keyword) content = true
  <-> bullet_form content keyword.
Proof.
  rewrite search_true_iff. unfold bullet_form, bullet_re. split.
  - intros (pre & s & b & -> & M).
    apply Match_seq_inv in M. destruct M as ([p0 s0] & MB & M).
    apply Match_bol_inv in MB. destruct MB as [B Hb]. inversion B; subst.
    apply Match_seq_inv in M. destruct M as ([p1 s1] & MS & M).
    apply (star_one_char_inv (one_char_space MI)) in MS.
    destruct MS as (ws & E & _ & Hws). simpl in E. subst s.
    apply Match_seq_inv in M. destruct M as ([p2 s2] & MK & M).
    apply one_char_bullet in MK. destruct MK as (k & s' & -> & B' & Hk).
    inversion B'; subst.
    apply Match_seq_inv in M. destruct M as ([p3 s3] & MC & M).
    apply one_char_space in MC. destruct MC as (c & s4 & -> & B'' & Hc).
    inversion B''; subst.
    destruct (proj1 (tail_iff keyword _ _) (ex_intro _ b M))
      as (mid & t & rest & -> & Hmid & Ht).
    exists pre, ws, k, c, mid, t, rest. repeat split; try assumption.
    apply bol_iff in Hb. destruct Hb as [->|[_ (pre' & ->)]];
      [now left|right; eauto].
  - intros (pre & ws & k & c & mid & t & rest & -> & Hp & Hws & Hk & Hc & Hmid & Ht).
    destruct (proj2 (tail_iff keyword (Some c) (mid ++ t ++ rest))) as [b M].
    { exists mid, t, rest. auto. }
    exists pre, (ws ++ k :: c :: mid ++ t ++ rest), b.
    split; [reflexivity|].
    eapply MSeq.
    { constructor. apply bol_iff.
      destruct Hp as [->|(pre' & ->)]; [now left|right].
      split; [reflexivity|eauto]. }
    eapply MSeq.
    { exact (star_one_char_intro (one_char_space MI) ws _ _ Hws). }
    eapply MSeq.
    { apply one_char_bullet. exists k, (c :: mid ++ t ++ rest). auto. }
    eapply MSeq; [|exact M].
    apply one_char_space. exists c, (mid ++ t ++ rest). auto.
Qed.

End KeywordPatterns.

(** The same tests, line by line.  [heading_rest l] is what follows the
    marks and the whitespace character of a heading line, [bullet_rest l]
    what follows the leading whitespace, the mark and the whitespace
    character of a bullet line. *)
Fixpoint skip_hashes (l : str) : str :=
  match l with
  | c :: l' => if is_hash c then skip_hashes l' else l
  | [] => []
  end.

Definition heading_rest (l : str) : option str :=
  match l with
  | h :: l' =>
      if is_hash h then
        match skip_hashes l' with
        | c :: r => if isspace c then Some r else None
        | [] => None
        end
      else None
  | [] => None
  end.

Definition bullet_rest (l : str) : option str :=
  match lstrip l with
  | k :: c :: r => if is_bullet_mark k && isspace c then Some r else None
  | _ => None
  end.

Definition mentioned_in (rest : option str) (keyword : str) : bool :=
  match rest with
  | Some r => contains (lower r) (lower keyword)
  | None => false
  end.

Definition heading_hit (keyword l : str) : bool :=
  mentioned_in (heading_rest l) keyword.

Definition bullet_hit (keyword l : str) : bool :=
  mentioned_in (bullet_rest l) keyword.

Definition weight (content keyword : str) : Q :=
  if existsb (heading_hit keyword) (split_lines content) then 3
  else if existsb (bullet_hit keyword) (split_lines content) then 2
  else 1.

Definition weighted_score (content : str) (keywords : list str) : Q :=
  Qsum (map (fun kw => times (count (lower content) kw) (weight content kw))
            keywords).

(** A line that is nothing but marks: only [#], or one [-] or [*] after
    optional whitespace. *)
Definition bare_marker (l : str) : bool :=
  (match l with [] => false | _ => forallb is_hash l end)
  || match lstrip l with
     | [k] => is_bullet_mark k
     | _ => false
     end.

(** The specification's wording: a heading line starts with [#], a bullet
    line with [-] or [*] after its leading whitespace, and the keyword
    may stand anywhere on the line. *)
Definition claimed_heading_hit (keyword l : str) : bool :=
  startswith l (py "#") && contains (lower l) (lower keyword).

Definition claimed_bullet_hit (keyword l : str) : bool :=
  match lstrip l with
  | k :: _ => is_bullet_mark k && contains (lower l) (lower keyword)
  | [] => false
  end.

Definition claimed_weight (content keyword : str) : Q :=
  if existsb (claimed_heading_hit keyword) (split_lines content) then 3
  else if existsb (claimed_bullet_hit keyword) (split_lines content) then 2
  else 1.

Definition claimed_score (content : str) (keywords : list str) : Q :=
  Qsum (map (fun kw => times (count (lower content) kw)
                         (claimed_weight content kw)) keywords).

Section LineForms.

Lemma hash_not_nl c : is_hash c = true -> is_nl c = false.
Proof. each_char c; discriminate. Qed.

Lemma space_not_hash c : isspace c = true -> is_hash c = false.
Proof. each_char c; discriminate. Qed.

Lemma mark_not_space k : is_bullet_mark k = true -> isspace k = false.
Proof. each_char k; discriminate. Qed.

Lemma mark_not_nl k : is_bullet_mark k = true -> is_nl k = false.
Proof. each_char k; discriminate. Qed.

Lemma is_nl_lower c : is_nl (lower_char c) = is_nl c.
Proof. each_char c. Qed.

Lemma no_nl_lower s : no_nl (lower s) = no_nl s.
Proof.
  induction s as [|c s IH]; [reflexivity|]. simpl.
  now rewrite is_nl_lower, <- IH.
Qed.

Lemma hashes_no_nl hs : forallb is_hash hs = true -> no_nl hs = true.
Proof.
  induction hs as [|h hs IH]; [reflexivity|]. simpl.
  rewrite andb_true_iff. intros [Hh Hhs].
  now rewrite (hash_not_nl _ Hh), IH.
Qed.

Lemma skip_hashes_app hs l :
  forallb is_hash hs = true -> skip_hashes (hs ++ l) = skip_hashes l.
Proof.
  induction hs as [|h hs IH]; [reflexivity|]. simpl.
  rewrite andb_true_iff. intros [-> Hhs]. now apply IH.
Qed.

Lemma skip_hashes_spec l :
  exists hs, l = hs ++ skip_hashes l /\ forallb is_hash hs = true.
Proof.
  induction l as [|c l (hs & E & H)]; [exists []; auto|]. simpl.
  destruct (is_hash c) eqn:Hc.
  - exists (c :: hs). simpl. rewrite Hc, H. split; [congruence|reflexivity].
  - exists []. auto.
Qed.

Lemma lstrip_app ws l :
  forallb isspace ws = true -> lstrip (ws ++ l) = lstrip l.
Proof.
  induction ws as [|c ws IH]; [reflexivity|]. simpl.
  rewrite andb_true_iff. intros [-> Hws]. now apply IH.
Qed.

Lemma lstrip_spec l :
  exists ws, l = ws ++ lstrip l /\ forallb isspace ws = true.
Proof.
  induction l as [|c l (ws & E & H)]; [exists []; auto|]. simpl.
  destruct (isspace c) eqn:Hc.
  - exists (c :: ws). simpl. rewrite Hc, H. split; [congruence|reflexivity].
  - exists []. auto.
Qed.

Lemma lstrip_mark k l : is_bullet_mark k = true -> lstrip (k :: l) = k :: l.
Proof. intros H. simpl. now rewrite (mark_not_space _ H). Qed.

Lemma at_line_start_app pre a :
  at_line_start pre -> at_line_start a -> at_line_start (pre ++ a).
Proof.
  intros Hp [->|(a' & ->)].
  - now rewrite app_nil_r.
  - right. exists (pre ++ a'). now rewrite app_assoc.
Qed.

Lemma bool_eq_iff (a b : bool) : (a = true <-> b = true) -> a = b.
Proof. destruct a, b; intros [H1 H2]; auto; symmetry; auto. Qed.

End LineForms.

Section FormsAndLines.

Variable content : str.
Hypothesis no_bare :
  forallb (fun l => negb (bare_marker l)) (split_lines content) = true.

Variable keyword : str.
Hypothesis keyword_one_line : no_nl keyword = true.

Ltac reassoc := repeat (rewrite <- app_assoc || rewrite <- app_comm_cons).

Lemma not_bare l : In l (split_lines content) -> bare_marker l = false.
Proof.
  intros H. rewrite forallb_forall in no_bare.
  apply no_bare in H. now apply negb_true_iff in H.
Qed.

Lemma same_case_no_nl t : lower t = lower keyword -> no_nl t = true.
Proof.
  intros E. now rewrite <- no_nl_lower, E, no_nl_lower.
Qed.

Lemma heading_form_lines :
  heading_form content keyword
  <-> existsb (heading_hit keyword) (split_lines content) = true.
Proof.
  rewrite existsb_exists. split.
  - intros (pre & hashes & c & mid & t & rest & E & Hp & Hne & Hh & Hc & Hmid & Ht).
    destruct (is_nl c) eqn:Hnl.
    + exfalso. apply is_nl_true in Hnl. subst c.
      assert (Hin : In hashes (split_lines content)).
      { apply (@text_in_lines content pre hashes (newline :: mid ++ t ++ rest));
          [exact E|exact Hp|right; eauto|now apply hashes_no_nl]. }
      apply not_bare in Hin. unfold bare_marker in Hin.
      destruct hashes; [congruence|]. rewrite Hh in Hin. discriminate.
    + destruct (cut_at_line_end rest) as (a & b & -> & Ha & Hb).
      exists (hashes ++ c :: mid ++ t ++ a). split.
      * apply (@text_in_lines content pre _ b); try assumption.
        -- rewrite E. now reassoc.
        -- rewrite no_nl_app, hashes_no_nl by exact Hh.
           change (no_nl (c :: mid ++ t ++ a))
             with (negb (is_nl c) && no_nl (mid ++ t ++ a)).
           rewrite Hnl, !no_nl_app, Hmid, Ha.
           now rewrite same_case_no_nl by exact Ht.
      * destruct hashes as [|h hs]; [congruence|].
        cbn [forallb] in Hh. apply andb_true_iff in Hh.
        destruct Hh as [Hh Hhs].
        unfold heading_hit, heading_rest. cbn [app].
        rewrite Hh, skip_hashes_app by exact Hhs. cbn [skip_hashes].
        rewrite space_not_hash by exact Hc. rewrite Hc. cbn [mentioned_in].
        apply contains_lower. eauto.
  - intros (l & Hin & Hit).
    apply line_in_text in Hin.
    destruct Hin as (Hl & pre & post & E & Hp & _).
    unfold heading_hit, heading_rest in Hit.
    destruct l as [|h l']; [discriminate|].
    destruct (is_hash h) eqn:Hh; [|discriminate].
    destruct (skip_hashes_spec l') as (hs & El & Hhs).
    destruct (skip_hashes l') as [|c r]; [discriminate|].
    destruct (isspace c) eqn:Hc; [|discriminate].
    simpl in Hit. apply contains_lower in Hit.
    destruct Hit as (mid & t & rest1 & -> & Ht).
    exists pre, (h :: hs), c, mid, t, (rest1 ++ post).
    repeat split; try assumption.
    + rewrite E, El. now reassoc.
    + discriminate.
    + simpl. now rewrite Hh, Hhs.
    + rewrite El in Hl. simpl in Hl.
      rewrite !no_nl_app in Hl. simpl in Hl. rewrite !no_nl_app in Hl.
      repeat (apply andb_true_iff in Hl; destruct Hl as [? Hl]).
      repeat match goal with
             | H : _ && _ = true |- _ => apply andb_true_iff in H; destruct H
             end.
      assumption.
Qed.

Lemma bullet_form_lines :
  bullet_form content keyword
  <-> existsb (bullet_hit keyword) (split_lines content) = true.
Proof.
  rewrite existsb_exists. split.
  - intros (pre & ws & k & c & mid & t & rest & E & Hp & Hws & Hk & Hc & Hmid & Ht).
    destruct (cut_at_line_start ws) as (wa & wb & -> & Hwb & Hwa).
    rewrite forallb_app in Hws. apply andb_true_iff in Hws.
    destruct Hws as [Hwsa Hwsb].
    pose proof (at_line_start_app Hp Hwa) as Hp'.
    destruct (is_nl c) eqn:Hnl.
    + exfalso. apply is_nl_true in Hnl. subst c.
      assert (Hin : In (wb ++ [k]) (split_lines content)).
      { apply (@text_in_lines content (pre ++ wa) _ (newline :: mid ++ t ++ rest));
          [|exact Hp'|right; eauto|].
        - rewrite E. now reassoc.
        - rewrite no_nl_app, Hwb.
          change (no_nl [k]) with (negb (is_nl k) && true).
          now rewrite mark_not_nl by exact Hk. }
      apply not_bare in Hin. unfold bare_marker in Hin.
      rewrite lstrip_app in Hin by exact Hwsb.
      rewrite lstrip_mark in Hin by exact Hk.
      rewrite Hk in Hin. now rewrite orb_true_r in Hin.
    + destruct (cut_at_line_end rest) as (a & b & -> & Ha & Hb).
      exists (wb ++ k :: c :: mid ++ t ++ a). split.
      * apply (@text_in_lines content (pre ++ wa) _ b); try assumption.
        -- rewrite E. now reassoc.
        -- rewrite no_nl_app, Hwb.
           change (no_nl (k :: c :: mid ++ t ++ a))
             with (negb (is_nl k) && (negb (is_nl c) && no_nl (mid ++ t ++ a))).
           rewrite Hnl, !no_nl_app, Hmid, Ha.
           rewrite mark_not_nl by exact Hk.
           now rewrite same_case_no_nl by exact Ht.
      * unfold bullet_hit, bullet_rest.
        rewrite lstrip_app by exact Hwsb. rewrite lstrip_mark by exact Hk.
        rewrite Hk, Hc. cbn [andb mentioned_in].
        apply contains_lower. eauto.
  - intros (l & Hin & Hit).
    apply line_in_text in Hin.
    destruct Hin as (Hl & pre & post & E & Hp & _).
    unfold bullet_hit, bullet_rest in Hit.
    destruct (lstrip_spec l) as (ws & El & Hws).
    destruct (lstrip l) as [|k [|c r]]; try discriminate.
    destruct (is_bullet_mark k) eqn:Hk; [|discriminate].
    destruct (isspace c) eqn:Hc; [|discriminate].
    simpl in Hit. apply contains_lower in Hit.
    destruct Hit as (mid & t & rest1 & -> & Ht).
    exists pre, ws, k, c, mid, t, (rest1 ++ post).
    repeat split; try assumption.
    + rewrite E, El. now reassoc.
    + rewrite El in Hl. rewrite !no_nl_app in Hl. simpl in Hl.
      rewrite !no_nl_app in Hl.
      repeat match goal with
             | H : _ && _ = true |- _ => apply andb_true_iff in H; destruct H
             end.
      assumption.
Qed.

End FormsAndLines.

Section KeywordScore.

Lemma count_skip_zero sub :
  forall s k, contains s sub = false -> count_skip sub k s = 0.
Proof.
  induction s as [|c s IH]; intros k H; [reflexivity|].
  cbn [contains] in H. apply orb_false_iff in H. destruct H as [H1 H2].
  cbn [count_skip]. destruct k; [|now apply IH].
  rewrite H1. now apply IH.
Qed.

(** A keyword that does not occur is counted zero times. *)
Lemma count_zero s sub : contains s sub = false -> count s sub = 0.
Proof.
  intros H. destruct sub as [|x sub].
  - destruct s; discriminate.
  - now apply count_skip_zero.
Qed.

(** For a keyword without metacharacters the two searches of the loop
    run the compiled patterns and never raise. *)
Lemma heading_search keyword content :
  plain keyword = true ->
  re_search MULTILINE_IGNORECASE (heading_prefix ++ keyword) content
  = Done (search MULTILINE_IGNORECASE (heading_re keyword) content).
Proof. intros H. unfold re_search. now rewrite heading_pattern_compiles. Qed.

Lemma bullet_search keyword content :
  plain keyword = true ->
  re_search MULTILINE_IGNORECASE (bullet_prefix ++ keyword) content
  = Done (search MULTILINE_IGNORECASE (bullet_re keyword) content).
Proof. intros H. unfold re_search. now rewrite bullet_pattern_compiles. Qed.

Variable content : str.
Hypothesis no_bare :
  forallb (fun l => negb (bare_marker l)) (split_lines content) = true.

Lemma score_content_loop_sum keywords :
  forallb (fun kw => plain kw && no_nl kw) keywords = true ->
  forall score,
  exists q,
    score_content_loop content (lower content) keywords score = Done q
    /\ (q == score + weighted_score content keywords)%Q.
Proof.
  induction keywords as [|kw kws IH]; intros Hk score.
  - exists score. split; [reflexivity|].
    unfold weighted_score, Qsum. simpl. ring.
  - cbn [forallb] in Hk. apply andb_true_iff in Hk. destruct Hk as [Hkw Hk].
    apply andb_true_iff in Hkw. destruct Hkw as [Hp Hn].
    specialize (IH Hk). cbn [score_content_loop].
    unfold weighted_score. cbn [map Qsum fold_right].
    fold (Qsum (map (fun kw0 => times (count (lower content) kw0)
                                  (weight content kw0)) kws)).
    fold (weighted_score content kws).
    destruct (contains (lower content) kw) eqn:Hc.
    + rewrite heading_search by exact Hp. unfold bind.
      rewrite (@bool_eq_iff
                 (search MULTILINE_IGNORECASE (heading_re kw) content)
                 (existsb (heading_hit kw) (split_lines content))).
      2:{ rewrite heading_search_iff. now apply heading_form_lines. }
      unfold weight.
      destruct (existsb (heading_hit kw) (split_lines content)).
      * destruct (IH (score + times (count (lower content) kw) 3)%Q)
          as (q & -> & Hq).
        exists q. split; [reflexivity|]. rewrite Hq. ring.
      * rewrite bullet_search by exact Hp.
        rewrite (@bool_eq_iff
                   (search MULTILINE_IGNORECASE (bullet_re kw) content)
                   (existsb (bullet_hit kw) (split_lines content))).
        2:{ rewrite bullet_search_iff. now apply bullet_form_lines. }
        destruct (existsb (bullet_hit kw) (split_lines content)).
        -- destruct (IH (score + times (count (lower content) kw) 2)%Q)
             as (q & -> & Hq).
           exists q. split; [reflexivity|]. rewrite Hq. ring.
        -- destruct (IH (score + times (count (lower content) kw) 1)%Q)
             as (q & -> & Hq).
           exists q. split; [reflexivity|]. rewrite Hq. ring.
    + destruct (IH score) as (q & -> & Hq).
      exists q. split; [reflexivity|]. rewrite Hq.
      rewrite (count_zero _ _ Hc). unfold times. simpl inject_Z. ring.
Qed.

End KeywordScore.

(** The document is left out when its score is not positive. *)
Lemma examine_not_positive mt tags content q :
  score_with mt content = Done q -> (q == 0)%Q ->
  examine mt tags content = Done None.
Proof.
  intros H Hq. unfold examine, bind.
  destruct (tags_pass_total tags content) as [[|] ->]; [|reflexivity].
  rewrite H. unfold Qpositive.
  assert (E : Qle_bool q 0 = true) by (apply Qle_bool_iff; rewrite Hq; apply Qle_refl).
  now rewrite E.
Qed.

(** The tokens of the tokenizer meet the conditions on keywords. *)
Lemma lower_letter_plain c :
  is_lower_letter c = true -> negb (is_meta c) && negb (is_nl c) = true.
Proof. each_char c; discriminate. Qed.

Lemma extract_keywords_plain query :
  forallb (fun kw => plain kw && no_nl kw) (extract_keywords query) = true.
Proof.
  apply forallb_forall. intros w Hw.
  destruct (extract_keywords_letters query w Hw) as (Hl & _). clear Hw.
  unfold plain, no_nl. induction w as [|c w IH]; [reflexivity|].
  simpl in Hl. apply andb_true_iff in Hl. destruct Hl as [Hc Hl].
  specialize (IH Hl). apply andb_true_iff in IH. destruct IH as [I1 I2].
  pose proof (lower_letter_plain c Hc) as H.
  apply andb_true_iff in H. destruct H as [H1 H2].
  cbn [forallb]. now rewrite H1, H2, I1, I2.
Qed.

(** C1, the statement that fails: a keyword on a line that starts with
    [#] without a whitespace character after the marks has weight 1.0. *)
Lemma score_content_heading_needs_space :
  score_content (py "#foo") [py "foo"] = Done 1%Q
  /\ ~ (1 == claimed_score (py "#foo") [py "foo"])%Q.
Proof.
  split; [vm_compute; reflexivity|].
  intros H. vm_compute in H. discriminate.
Qed.

(** C1, amended: for keywords without regex metacharacters and without
    line breaks (the tokens of the tokenizer are such) and a content
    without a line that consists of marks only, the keyword score is the
    sum over the keywords of the number of occurrences of the keyword in
    the lower-cased content times a weight; the weight is 3.0 if on some
    line the keyword occurs, up to case, after one or more [#] at the
    start of the line and one whitespace character, otherwise 2.0 if on
    some line it occurs after optional leading whitespace, a [-] or [*] and
    one whitespace character, otherwise 1.0; a document whose score is 0
    is left out of the results. *)
Theorem score_content_weights (content : str) (keywords : list str) :
  forallb (fun kw => plain kw && no_nl kw) keywords = true ->
  forallb (fun l => negb (bare_marker l)) (split_lines content) = true ->
  exists q,
    score_content content keywords = Done q
    /\ (q == weighted_score content keywords)%Q
    /\ ((q == 0)%Q ->
        forall tags, examine (ByKeywords keywords) tags content = Done None).
Proof.
  intros Hk Hc.
  destruct (score_content_loop_sum content Hc keywords Hk 0%Q) as (q & E & Hq).
  exists q. split; [exact E|]. split.
  - rewrite Hq. ring.
  - intros H0 tags. now apply (examine_not_positive (ByKeywords keywords) tags content E).
Qed.

Definition sample_heading : str :=
  join_lines [py "# Decision: use caching"; py "- caching twice, caching"].

Lemma score_content_weights_witness :
  exists q,
    score_content sample_heading [py "caching"; py "decision"; py "absent"]
    = Done q
    /\ (q == 12)%Q.
Proof.
  destruct (score_content_weights sample_heading
              [py "caching"; py "decision"; py "absent"])
    as (q & E & Hq & _); [vm_compute; reflexivity ..|].
  exists q. split; [exact E|]. rewrite Hq. vm_compute. reflexivity.
Defined.

(** ** The stable descending sort *)

Section SortFacts.

Variables (A K : Type) (key : A -> K) (lt : K -> K -> bool).

Hypothesis lt_asym : forall a b, lt a b = true -> lt b a = false.
Hypothesis ge_trans :
  forall a b c, lt a b = false -> lt b c = false -> lt a c = false.

(** [x] may stand before [y]: its key is not smaller. *)
Definition before (x y : A) : Prop := lt (key x) (key y) = false.

Lemma insert_perm x l : Permutation (insert_desc key lt x l) (x :: l).
Proof.
  induction l as [|y l IH]; simpl; [reflexivity|].
  destruct (lt (key x) (key y)); [|reflexivity].
  rewrite IH. apply perm_swap.
Qed.

Lemma sort_perm l : Permutation (sort_desc key lt l) l.
Proof.
  induction l as [|x l IH]; simpl; [reflexivity|].
  rewrite insert_perm. now constructor.
Qed.

Lemma insert_sorted x l :
  StronglySorted before l -> StronglySorted before (insert_desc key lt x l).
Proof.
  induction 1 as [|y l Hl IH Hy]; simpl.
  - repeat constructor.
  - destruct (lt (key x) (key y)) eqn:E.
    + constructor; [exact IH|].
      rewrite Forall_forall in *. intros z Hz.
      apply (Permutation_in _ (insert_perm x l)) in Hz.
      destruct Hz as [<-|Hz]; [now apply lt_asym|now apply Hy].
    + constructor; [now constructor|].
      constructor; [exact E|].
      rewrite Forall_forall in *. intros z Hz.
      exact (@ge_trans _ _ _ E (Hy z Hz)).
Qed.

Lemma sort_sorted l : StronglySorted before (sort_desc key lt l).
Proof.
  induction l as [|x l IH]; simpl; [constructor|now apply insert_sorted].
Qed.

(** Stability: elements that do not come strictly before one another
    keep their order. *)
Lemma insert_filter (p : A -> bool) x l :
  (forall y, p x = true -> p y = true -> lt (key x) (key y) = false) ->
  filter p (insert_desc key lt x l) = filter p (x :: l).
Proof.
  intros H. induction l as [|y l IH]; [reflexivity|]. simpl.
  destruct (lt (key x) (key y)) eqn:E; [|reflexivity].
  simpl. rewrite IH. simpl.
  destruct (p x) eqn:Px; [|reflexivity].
  destruct (p y) eqn:Py; [|reflexivity].
  rewrite (H y eq_refl Py) in E. discriminate.
Qed.

Lemma sort_stable (p : A -> bool) l :
  (forall x y, p x = true -> p y = true -> lt (key x) (key y) = false) ->
  filter p (sort_desc key lt l) = filter p l.
Proof.
  intros H. induction l as [|x l IH]; [reflexivity|]. cbn [sort_desc].
  rewrite insert_filter by (intros y; apply H). simpl. now rewrite IH.
Qed.



End SortFacts.

Section Orders.

Lemma str_ltb_asym a : forall b, str_ltb a b = true -> str_ltb b a = false.
Proof.
  induction a as [|x a IH]; intros [|y b] H; simpl in *;
    try reflexivity; try discriminate.
  destruct (Nat.ltb_spec (code x) (code y)), (Nat.ltb_spec (code y) (code x));
    try lia; simpl in *.
  - destruct (Nat.eqb_spec (code y) (code x)); [lia|reflexivity].
  - destruct (Nat.eqb_spec (code x) (code y)); [lia|discriminate].
  - destruct (Nat.eqb_spec (code x) (code y)); [|discriminate].
    destruct (Nat.eqb_spec (code y) (code x)); [|reflexivity].
    simpl in *. now apply IH.
Qed.

Lemma str_ge_trans a :
  forall b c, str_ltb a b = false -> str_ltb b c = false -> str_ltb a c = false.
Proof.
  induction a as [|x a IH]; intros [|y b] [|z c] H1 H2; simpl in *;
    try reflexivity; try discriminate.
  destruct (Nat.ltb_spec (code x) (code y)); [discriminate|].
  destruct (Nat.ltb_spec (code y) (code z)); [discriminate|].
  destruct (Nat.ltb_spec (code x) (code z)); [lia|]. simpl in *.
  destruct (Nat.eqb_spec (code x) (code z)); [|reflexivity]. simpl.
  destruct (Nat.eqb_spec (code x) (code y)); [|lia].
  destruct (Nat.eqb_spec (code y) (code z)); [|lia].
  simpl in *. now apply (IH b c).
Qed.

Lemma Qltb_lt a b : Qltb a b = true <-> (a < b)%Q.
Proof.
  unfold Qltb. rewrite negb_true_iff. split.
  - intros H. apply Qnot_le_lt. intros L.
    apply Qle_bool_iff in L. congruence.
  - intros H. destruct (Qle_bool b a) eqn:E; [|reflexivity].
    apply Qle_bool_iff in E. exfalso. exact (Qlt_not_le _ _ H E).
Qed.

Lemma Qltb_ge a b : Qltb a b = false <-> (b <= a)%Q.
Proof.
  unfold Qltb. rewrite negb_false_iff. apply Qle_bool_iff.
Qed.

Lemma Qltb_asym a b : Qltb a b = true -> Qltb b a = false.
Proof. rewrite Qltb_lt, Qltb_ge. apply Qlt_le_weak. Qed.

Lemma Qge_trans a b c :
  Qltb a b = false -> Qltb b c = false -> Qltb a c = false.
Proof.
  rewrite !Qltb_ge. intros H1 H2. exact (Qle_trans _ _ _ H2 H1).
Qed.

End Orders.

(** ** The walk over the corpus *)

(** What one daily file contributes to the result list of a walk that
    completes, and what the long-term file contributes. *)
Definition daily_entry (mt : matcher) (tags : option (list str))
  (cutoff_date : option datetime) (f : file) : list result :=
  match strptime_ymd (stem (name f)) with
  | None => []
  | Some file_date =>
      if too_old cutoff_date file_date then []
      else match examine mt tags (content f) with
           | Done (Some (sc, sn)) =>
               [ {| path := path_of f; date := stem (name f);
                    score := sc; snippets := sn |} ]
           | _ => []
           end
  end.

Definition long_term_entry (mt : matcher) (tags : option (list str))
  (f : option file) : list result :=
  match f with
  | None => []
  | Some f =>
      match examine mt tags (content f) with
      | Done (Some (sc, sn)) =>
          [ {| path := MEMORY_FILE; date := py "long-term";
               score := (sc * (3 # 2))%Q; snippets := sn |} ]
      | _ => []
      end
  end.

(** The daily files in the order of the walk. *)
Definition daily_files (e : env) : list file :=
  match memory_dir e with
  | Some files => glob_md_sorted files
  | None => []
  end.

(** A file that the daily loop does not skip. *)
Definition visible (cutoff_date : option datetime) (f : file) : bool :=
  match strptime_ymd (stem (name f)) with
  | Some file_date => negb (too_old cutoff_date file_date)
  | None => false
  end.


Section Walk.

Variables (mt : matcher) (tags : option (list str))
          (cutoff_date : option datetime).

Lemma daily_loop_done files :
  forall results out,
    daily_loop mt tags cutoff_date files results = Done out ->
    out = results ++ flat_map (daily_entry mt tags cutoff_date) files.
Proof.
  induction files as [|f files IH]; intros results out H;
    cbn [daily_loop flat_map] in *.
  - inversion H. now rewrite app_nil_r.
  - unfold daily_entry at 1.
    destruct (strptime_ymd (stem (name f))) as [dt|]; [|now apply IH].
    destruct (too_old cutoff_date dt); [now apply IH|].
    unfold bind in H.
    destruct (examine mt tags (content f)) as [[[sc sn]|]| |];
      try discriminate.
    + apply IH in H. rewrite H. now rewrite <- app_assoc.
    + now apply IH.
Qed.

Lemma long_term_done f results out :
  long_term mt tags f results = Done out ->
  out = results ++ long_term_entry mt tags f.
Proof.
  unfold long_term, long_term_entry, bind. destruct f as [f|].
  - destruct (examine mt tags (content f)) as [[[sc sn]|]| |];
      intros H; inversion H; now rewrite ?app_nil_r.
  - intros H. inversion H. now rewrite app_nil_r.
Qed.


Lemma daily_entry_from files r :
  In r (flat_map (daily_entry mt tags cutoff_date) files) ->
  exists f sc,
    In f files /\ visible cutoff_date f = true
    /\ examine mt tags (content f) = Done (Some (sc, snippets r))
    /\ score r = sc /\ path r = path_of f /\ date r = stem (name f).
Proof.
  rewrite in_flat_map. intros (f & Hf & Hr). unfold daily_entry in Hr.
  destruct (strptime_ymd (stem (name f))) as [dt|] eqn:P; [|contradiction].
  destruct (too_old cutoff_date dt) eqn:T; [contradiction|].
  destruct (examine mt tags (content f)) as [[[sc sn]|]| |] eqn:E;
    try contradiction.
  destruct Hr as [<-|[]]. exists f, sc. unfold visible. rewrite P, T.
  simpl. repeat split; assumption.
Qed.

Lemma long_term_entry_from f r :
  In r (long_term_entry mt tags f) ->
  exists g sc,
    f = Some g
    /\ examine mt tags (content g) = Done (Some (sc, snippets r))
    /\ score r = (sc * (3 # 2))%Q
    /\ path r = MEMORY_FILE /\ date r = py "long-term".
Proof.
  unfold long_term_entry. destruct f as [g|]; [|contradiction].
  destruct (examine mt tags (content g)) as [[[sc sn]|]| |] eqn:E;
    try contradiction.
  intros [<-|[]]. exists g, sc. simpl. repeat split; assumption.
Qed.

End Walk.

(** What [examine] hands over is the score of the content, and it is
    positive. *)
Lemma examine_some mt tags content sc sn :
  examine mt tags content = Done (Some (sc, sn)) ->
  score_with mt content = Done sc /\ (0 < sc)%Q
  /\ sn = firstn 3 (snippets_with mt content).
Proof.
  unfold examine, bind.
  destruct (tags_pass tags content) as [[|]| |]; try discriminate.
  destruct (score_with mt content) as [q| |]; try discriminate.
  destruct (Qpositive q) eqn:P; [|discriminate].
  intros H. assert (E1 : q = sc) by congruence.
  assert (E2 : sn = firstn 3 (snippets_with mt content)) by congruence.
  subst q. repeat split; [|assumption]. now apply Qpositive_iff.
Qed.

(** The walk, when it completes. *)
Lemma collect_done e query days use_regex tags results :
  collect e query days use_regex tags = Done results ->
  exists cutoff_date mt,
    cutoff_of (now e) days = Done cutoff_date
    /\ choose_matcher query use_regex = Done mt
    /\ results = flat_map (daily_entry mt tags cutoff_date) (daily_files e)
                 ++ long_term_entry mt tags (memory_file e).
Proof.
  unfold collect, bind, daily_files.
  destruct (cutoff_of (now e) days) as [cutoff_date| |]; try discriminate.
  destruct (choose_matcher query use_regex) as [mt| |]; try discriminate.
  intros H. exists cutoff_date, mt. repeat split.
  destruct (memory_dir e) as [files|].
  - destruct (daily_loop mt tags cutoff_date (glob_md_sorted files) [])
      as [daily| |] eqn:D; try discriminate.
    apply daily_loop_done in D. apply long_term_done in H.
    rewrite H, D. reflexivity.
  - apply long_term_done in H. rewrite H. reflexivity.
Qed.

(** ** Sample corpora *)

Definition text_file (n : string) (text : str) : file :=
  {| name := py n; content := text;
     st_size := Z.of_nat (length text); st_mtime := 0 |}.

(** Noon of 2024-01-02. *)
Definition noon_2024_01_02 : datetime :=
  Eval vm_compute in
    match make_date 2024 1 2 with
    | Some d => (d + 12 * 3600 * 1000000)%Z
    | None => 0%Z
    end.

Definition corpus (files : list file) (long : option file) : env :=
  {| now := noon_2024_01_02; memory_dir := Some files; memory_file := long |}.

(** ** The fallback of an invalid pattern (C3) *)

(** The specification's wording: a search by the single keyword
    [query.lower()]. *)
Definition search_by_raw_query (e : env) (query : str) (max_results : Z)
  (days : option Z) (tags : option (list str)) : outcome (list result) :=
  cutoff_date <- cutoff_of (now e) days ;;
  results <- match memory_dir e with
             | Some files =>
                 daily_loop (ByKeywords [lower query]) tags cutoff_date
                   (glob_md_sorted files) []
             | None => Done []
             end ;;
  results <- long_term (ByKeywords [lower query]) tags (memory_file e) results ;;
  Done (take (sort_desc score Qltb results) max_results).

Definition cache_corpus : env :=
  corpus [text_file "2024-01-01.md" (py "cache")] None.

(** C3, the statement that fails: after the pattern [(cache] failed to
    compile the search goes by the token [cache], not by the raw query,
    and finds the document that a search for the raw query misses. *)
Lemma invalid_regex_uses_tokens :
  parse (py "(cache") = PError
  /\ search_by_raw_query cache_corpus (py "(cache") 5 None None = Done []
  /\ search_memory_files cache_corpus (py "(cache") 5 None true None
     <> search_by_raw_query cache_corpus (py "(cache") 5 None None.
Proof.
  split; [reflexivity|]. split; [vm_compute; reflexivity|].
  intros H. vm_compute in H. discriminate.
Qed.

(** C3, amended: when the query does not compile as a pattern, the
    compile error is caught and the search with [use_regex] set proceeds
    exactly as the search without it: by the keywords extracted from the
    query, or by the whole lower-cased query when no keyword is left. *)
Theorem invalid_regex_fallback (e : env) (query : str) (max_results : Z)
  (days : option Z) (tags : option (list str)) :
  parse query = PError ->
  choose_matcher query true = Done (ByKeywords (keywords_of query))
  /\ search_memory_files e query max_results days true tags
     = search_memory_files e query max_results days false tags.
Proof.
  intros H.
  assert (E : choose_matcher query true = choose_matcher query false).
  { unfold choose_matcher. now rewrite H. }
  split.
  - rewrite E. reflexivity.
  - unfold search_memory_files, collect. now rewrite E.
Qed.

Lemma invalid_regex_fallback_witness :
  search_memory_files cache_corpus (py "(cache") 5 None true None
  = search_memory_files cache_corpus (py "(cache") 5 None false None.
Proof.
  apply (invalid_regex_fallback cache_corpus (py "(cache") 5 None None).
  reflexivity.
Defined.

(** ** Keyword mode with metacharacters (C10) *)

Definition call_corpus : env :=
  corpus [text_file "2024-01-01.md" (py "call f(x)")] None.

(** C10: the query [f(] yields no token, so the keyword is the query
    itself; it occurs in the document and is interpolated unescaped into
    the heading pattern, which does not compile: the search raises
    [re.error]. *)
Theorem keyword_search_raises :
  extract_keywords (py "f(") = []
  /\ keywords_of (py "f(") = [py "f("]
  /\ parse (heading_prefix ++ py "f(") = PError
  /\ score_content (py "call f(x)") [py "f("] = Raised re_error
  /\ search_memory_files call_corpus (py "f(") 5 None false None
     = Raised re_error.
Proof. repeat split; vm_compute; reflexivity. Qed.

(** ** Ranking (C4) *)

(** [f] is walked before [g]: its name is not smaller. *)
Definition by_file_name (f g : file) : Prop :=
  str_ltb (name f) (name g) = false.

(** The results whose score is [v]. *)
Definition tie (v : Q) (r : result) : bool := Qeq_bool (score r) v.

Lemma daily_files_sorted e : StronglySorted by_file_name (daily_files e).
Proof.
  unfold daily_files, glob_md_sorted. destruct (memory_dir e); [|constructor].
  apply (sort_sorted name str_ltb str_ltb_asym str_ge_trans).
Qed.

Lemma sort_results_sorted results :
  StronglySorted (fun a b => (score b <= score a)%Q)
                 (sort_desc score Qltb results).
Proof.
  pose proof (sort_sorted score Qltb Qltb_asym Qge_trans results) as H.
  induction H as [|r l Hl IH Hr]; constructor; [exact IH|].
  rewrite Forall_forall in *. intros x Hx.
  apply Qltb_ge. exact (Hr x Hx).
Qed.

Lemma sort_results_stable v results :
  filter (tie v) (sort_desc score Qltb results) = filter (tie v) results.
Proof.
  apply sort_stable. intros x y Hx Hy. apply Qltb_ge.
  unfold tie in *. apply Qeq_bool_iff in Hx. apply Qeq_bool_iff in Hy.
  rewrite Hx, Hy. apply Qle_refl.
Qed.

Definition sept_oct_corpus : env :=
  corpus [text_file "2024-10-01.md" (py "cache");
          text_file "2024-9-01.md" (py "cache")] None.

(** C4, the statement that fails: with file names that are not
    zero-padded the walk is not in reverse chronological order, and two
    results with equal scores come out with the earlier date first. *)
Lemma ties_follow_file_names :
  exists a b date_a date_b,
    search_memory_files sept_oct_corpus (py "cache") 5 None false None
    = Done [a; b]
    /\ (score a == score b)%Q
    /\ strptime_ymd (date a) = Some date_a
    /\ strptime_ymd (date b) = Some date_b
    /\ (date_a < date_b)%Z.
Proof.
  do 4 eexists. split; [vm_compute; reflexivity|].
  split; [vm_compute; reflexivity|].
  split; [vm_compute; reflexivity|].
  split; [vm_compute; reflexivity|].
  vm_compute. reflexivity.
Qed.

(** C4, amended: for a result cap that is not negative, the search
    returns the first [max_results] entries of the accumulated results
    sorted by score, highest first; the sort keeps every entry and leaves
    entries of equal score in the order of discovery, so that two results
    of equal score discovered in the order A, B come out as [A, B]; the
    order of discovery is that of the daily files by descending file
    name, followed by the long-term document. *)
Theorem ranking_order (e : env) (query : str) (max_results : Z)
  (days : option Z) (use_regex : bool) (tags : option (list str)) :
  (0 <= max_results)%Z ->
  search_memory_files e query max_results days use_regex tags
  = (results <- collect e query days use_regex tags ;;
     Done (firstn (Z.to_nat max_results) (sort_desc score Qltb results)))
  /\ (forall results,
        Permutation (sort_desc score Qltb results) results
        /\ StronglySorted (fun a b => (score b <= score a)%Q)
                          (sort_desc score Qltb results)
        /\ forall v, filter (tie v) (sort_desc score Qltb results)
                     = filter (tie v) results)
  /\ (forall a b, (score a == score b)%Q ->
        sort_desc score Qltb [a; b] = [a; b])
  /\ (forall results,
        collect e query days use_regex tags = Done results ->
        exists cutoff_date mt,
          results = flat_map (daily_entry mt tags cutoff_date) (daily_files e)
                    ++ long_term_entry mt tags (memory_file e))
  /\ StronglySorted by_file_name (daily_files e).
Proof.
  intros Hmax. repeat split.
  - unfold search_memory_files, take.
    destruct (0 <=? max_results)%Z eqn:E; [reflexivity|].
    apply Z.leb_gt in E. lia.
  - apply sort_perm.
  - apply sort_results_sorted.
  - intros v. apply sort_results_stable.
  - intros a b H. simpl.
    assert (E : Qltb (score a) (score b) = false).
    { apply Qltb_ge. rewrite H. apply Qle_refl. }
    now rewrite E.
  - intros results H. apply collect_done in H.
    destruct H as (cutoff_date & mt & _ & _ & H). eauto.
  - apply daily_files_sorted.
Qed.

Lemma ranking_order_witness :
  search_memory_files sept_oct_corpus (py "cache") 1 None false None
  = (results <- collect sept_oct_corpus (py "cache") None false None ;;
     Done (firstn 1 (sort_desc score Qltb results))).
Proof.
  apply (@ranking_order sept_oct_corpus (py "cache") 1 None false None).
  discriminate.
Defined.

(** ** The long-term document (C5) *)

Definition is_long_term (r : result) : bool := str_eqb (date r) (py "long-term").

Section LongTerm.

Variables (mt : matcher) (tags : option (list str)).

Lemma daily_not_long_term cutoff_date files r :
  In r (flat_map (daily_entry mt tags cutoff_date) files) ->
  is_long_term r = false.
Proof.
  intros H. apply daily_entry_from in H.
  destruct H as (f & sc & _ & V & _ & _ & _ & D).
  unfold is_long_term. destruct (str_eqb (date r) (py "long-term")) eqn:E;
    [|reflexivity].
  apply str_eqb_eq in E. unfold visible in V.
  rewrite <- D, E in V. vm_compute in V. discriminate.
Qed.

Lemma long_term_is_long_term f r :
  In r (long_term_entry mt tags f) -> is_long_term r = true.
Proof.
  intros H. apply long_term_entry_from in H.
  destruct H as (g & sc & _ & _ & _ & _ & D).
  unfold is_long_term. rewrite D. reflexivity.
Qed.

Lemma filter_none (A : Type) (p : A -> bool) l :
  (forall x, In x l -> p x = false) -> filter p l = [].
Proof.
  induction l as [|x l IH]; intros H; [reflexivity|]. simpl.
  rewrite (H x (or_introl eq_refl)). apply IH.
  intros y Hy. apply H. now right.
Qed.

Lemma filter_all (A : Type) (p : A -> bool) l :
  (forall x, In x l -> p x = true) -> filter p l = l.
Proof.
  intros H. apply forallb_filter_id. now apply forallb_forall.
Qed.

Lemma filter_long_term cutoff_date files f :
  filter is_long_term
    (flat_map (daily_entry mt tags cutoff_date) files
     ++ long_term_entry mt tags f)
  = long_term_entry mt tags f.
Proof.
  rewrite filter_app.
  rewrite filter_none by (intros r; apply daily_not_long_term).
  rewrite filter_all by (intros r; apply long_term_is_long_term).
  reflexivity.
Qed.

End LongTerm.

Definition boost_corpus : env :=
  corpus [text_file "2024-01-01.md" (py "cache cache cache cache cache")]
         (Some (text_file "MEMORY.md" (py "cache cache cache cache"))).

Definition boost_results : list result :=
  Eval vm_compute in
    match collect boost_corpus (py "cache") None false None with
    | Done results => results
    | _ => []
    end.

(** C5: when the walk completes, the accumulated results are those of
    the daily files followed by that of the long-term document; the
    long-term entry carries 1.5 times the score of the long-term content,
    a daily entry the score of its content unchanged; the sort works on
    these scores; and the long-term entry is the same whatever the [days]
    parameter. *)
Theorem long_term_boost (e : env) (query : str) (days : option Z)
  (use_regex : bool) (tags : option (list str)) (results : list result) :
  collect e query days use_regex tags = Done results ->
  exists cutoff_date mt,
    choose_matcher query use_regex = Done mt
    /\ results = flat_map (daily_entry mt tags cutoff_date) (daily_files e)
                 ++ long_term_entry mt tags (memory_file e)
    /\ (forall r, In r (long_term_entry mt tags (memory_file e)) ->
          exists f raw,
            memory_file e = Some f
            /\ score_with mt (content f) = Done raw
            /\ score r = (raw * (3 # 2))%Q
            /\ date r = py "long-term")
    /\ (forall r,
          In r (flat_map (daily_entry mt tags cutoff_date) (daily_files e)) ->
          exists f,
            In f (daily_files e)
            /\ score_with mt (content f) = Done (score r)
            /\ date r = stem (name f) /\ date r <> py "long-term")
    /\ (forall max_results,
          search_memory_files e query max_results days use_regex tags
          = Done (take (sort_desc score Qltb results) max_results))
    /\ (forall days' results',
          collect e query days' use_regex tags = Done results' ->
          filter is_long_term results'
          = long_term_entry mt tags (memory_file e)).
Proof.
  intros H. pose proof H as H0. apply collect_done in H.
  destruct H as (cutoff_date & mt & _ & Hm & ->).
  exists cutoff_date, mt. split; [exact Hm|]. split; [reflexivity|].
  split; [|split; [|split]].
  - intros r Hr. apply long_term_entry_from in Hr.
    destruct Hr as (f & sc & Ef & Ex & Es & _ & Ed).
    apply examine_some in Ex. destruct Ex as (Ex & _ & _).
    exists f, sc. auto.
  - intros r Hr. pose proof (daily_not_long_term _ _ _ _ _ Hr) as Hn.
    apply daily_entry_from in Hr.
    destruct Hr as (f & sc & Hf & _ & Ex & Es & _ & Ed).
    apply examine_some in Ex. destruct Ex as (Ex & _ & _).
    exists f. rewrite Es. repeat split; try assumption.
    intros E. unfold is_long_term in Hn. rewrite E in Hn. discriminate.
  - intros max_results. unfold search_memory_files. now rewrite H0.
  - intros days' results' H'. apply collect_done in H'.
    destruct H' as (cutoff' & mt' & _ & Hm' & ->).
    assert (mt' = mt) by congruence. subst mt'.
    apply filter_long_term.
Qed.

(** The example of the specification: a long-term document with the raw
    score 4.0 is ranked, with 6.0, above a daily document with 5.0. *)
Lemma long_term_boost_witness :
  (exists cutoff_date mt,
     boost_results
     = flat_map (daily_entry mt None cutoff_date) (daily_files boost_corpus)
       ++ long_term_entry mt None (memory_file boost_corpus))
  /\ map (fun r => (date r, score r)) boost_results
     = [(py "2024-01-01", 5%Q); (py "long-term", (12 # 2)%Q)]
  /\ map date (sort_desc score Qltb boost_results)
     = [py "long-term"; py "2024-01-01"].
Proof.
  split.
  - destruct (@long_term_boost boost_corpus (py "cache") None false None
                boost_results) as (c & mt & _ & E & _).
    + vm_compute. reflexivity.
    + exists c, mt. exact E.
  - split; vm_compute; reflexivity.
Defined.

(** ** Skipped files (C9) *)

(** What one daily file contributes to the listing. *)
Definition list_entry (cutoff_date : option datetime) (f : file) : list memory :=
  if visible cutoff_date f
  then [ {| mem_path := path_of f; mem_date := stem (name f);
            mem_size := st_size f; mem_modified := st_mtime f |} ]
  else [].

Definition long_term_listing (f : option file) : list memory :=
  match f with
  | Some f => [ {| mem_path := MEMORY_FILE; mem_date := py "long-term";
                   mem_size := st_size f; mem_modified := st_mtime f |} ]
  | None => []
  end.

Section Skipped.



Lemma collect_daily_files e query days use_regex tags :
  collect e query days use_regex tags
  = (cutoff_date <- cutoff_of (now e) days ;;
     mt <- choose_matcher query use_regex ;;
     results <- daily_loop mt tags cutoff_date (daily_files e) [] ;;
     long_term mt tags (memory_file e) results).
Proof.
  unfold collect, daily_files. now destruct (memory_dir e).
Qed.


Lemma list_loop_done now days cutoff_date files :
  cutoff_of now days = Done cutoff_date ->
  forall memories,
    list_loop now days files memories
    = Done (memories ++ flat_map (list_entry cutoff_date) files).
Proof.
  intros H. induction files as [|f files IH]; intros memories.
  - simpl. now rewrite app_nil_r.
  - cbn [list_loop flat_map]. unfold list_entry at 1, visible.
    destruct (strptime_ymd (stem (name f))) as [dt|]; [|apply IH].
    rewrite H. unfold bind.
    destruct (too_old cutoff_date dt); simpl; [apply IH|].
    rewrite IH. now rewrite <- app_assoc.
Qed.

Lemma list_memories_done e days cutoff_date :
  cutoff_of (now e) days = Done cutoff_date ->
  list_memories e days
  = Done (flat_map (list_entry cutoff_date) (daily_files e)
          ++ long_term_listing (memory_file e)).
Proof.
  intros H. unfold list_memories, daily_files, long_term_listing.
  destruct (memory_dir e) as [files|].
  - rewrite list_loop_done with (cutoff_date := cutoff_date) by exact H.
    unfold bind. simpl.
    destruct (memory_file e); [reflexivity|now rewrite app_nil_r].
  - unfold bind. destruct (memory_file e); reflexivity.
Qed.





Lemma In_firstn (A : Type) (x : A) n l : In x (firstn n l) -> In x l.
Proof.
  intros H. rewrite <- (firstn_skipn n l). apply in_or_app. now left.
Qed.

Lemma In_take (A : Type) (x : A) l n : In x (take l n) -> In x l.
Proof. unfold take. destruct (0 <=? n)%Z; apply In_firstn. Qed.

End Skipped.




(** * Further properties of memory.py *)

(** ** get_memory_content *)

(** [l[start:stop]] for any integers: a negative index counts from the
    end, and both indices are cut to the bounds of the list. *)
Definition slice_index (len : nat) (i : Z) : nat :=
  if (i <? 0)%Z then Z.to_nat (Z.max 0 (i + Z.of_nat len))
  else Nat.min len (Z.to_nat i).

Definition py_slice (A : Type) (l : list A) (start stop : Z) : list A :=
  let a := slice_index (length l) start in
  let b := slice_index (length l) stop in
  firstn (b - a) (skipn a l).

(** The dictionary that [get_memory_content] returns: either the key
    ['error'], or the keys ['path'], ['from_line'], ['total_lines'] and
    ['content']. *)
Inductive content_result : Type :=
| ContentError (error : str)
| Content (c_path : str) (c_from_line : Z) (c_total_lines : nat)
          (c_content : str).

(** [read path] is the text of the file at [path], as [read_text] decodes
    it, and [None] when nothing exists there; a path that exists but
    cannot be read as text (a directory, bytes that are not UTF-8) is not
    modelled.  [lines = None] is the default. *)
Definition get_memory_content (read : str -> option str) (path : str)
  (from_line : Z) (lines : option Z) : content_result :=
  match read path with
  | None => ContentError (py "File not found: " ++ path)
  | Some content =>
      let all_lines := split_lines content in
      let start := (from_line - 1)%Z in
      let stop := match lines with
                  | None => Z.of_nat (length all_lines)
                  | Some n => (start + n)%Z
                  end in
      let selected_lines := py_slice all_lines start stop in
      Content path from_line (length all_lines) (join_lines selected_lines)
  end.

(** The last line number that the [get] command of [main] prints in its
    header: [from_line + len(content.split(chr(10))) - 1]. *)
Definition shown_last_line (from_line : Z) (content : str) : Z :=
  (from_line + Z.of_nat (length (split_lines content)) - 1)%Z.

Section JoinSplit.

Lemma join_lines_cons l ls :
  ls <> [] -> join_lines (l :: ls) = l ++ newline :: join_lines ls.
Proof. destruct ls; [congruence|reflexivity]. Qed.

Lemma join_split s : join_lines (split_lines s) = s.
Proof.
  induction s as [|c s IH]; [reflexivity|].
  rewrite split_lines_cons. destruct (is_nl c) eqn:E.
  - apply is_nl_true in E. subst c.
    rewrite join_lines_cons by apply split_lines_not_nil.
    now rewrite IH.
  - pose proof (split_lines_not_nil s) as Hn.
    destruct (split_lines s) as [|l ls]; [congruence|].
    rewrite <- IH. destruct ls; reflexivity.
Qed.

Lemma join_lines_app l1 l2 :
  l1 <> [] -> l2 <> [] ->
  join_lines (l1 ++ l2) = join_lines l1 ++ newline :: join_lines l2.
Proof.
  intros H1 H2. induction l1 as [|l l1 IH]; [congruence|].
  destruct l1 as [|l' l1].
  - cbn [app]. now rewrite join_lines_cons.
  - change ((l :: l' :: l1) ++ l2) with (l :: ((l' :: l1) ++ l2)).
    rewrite join_lines_cons by discriminate.
    rewrite IH by discriminate.
    rewrite (@join_lines_cons l (l' :: l1)) by discriminate.
    now rewrite <- app_assoc.
Qed.

Lemma split_join ls :
  ls <> [] -> forallb no_nl ls = true -> split_lines (join_lines ls) = ls.
Proof.
  induction ls as [|l ls IH]; [congruence|]. intros _ H.
  cbn [forallb] in H. apply andb_true_iff in H. destruct H as [Hl Hls].
  destruct ls as [|l' ls].
  - now apply split_lines_one.
  - rewrite join_lines_cons by discriminate.
    rewrite split_lines_app, (split_lines_one _ Hl).
    now rewrite IH by (discriminate || assumption).
Qed.

Lemma lines_no_nl s : forallb no_nl (split_lines s) = true.
Proof.
  apply forallb_forall. intros l Hl.
  now destruct (line_in_text _ _ Hl) as [H _].
Qed.

Lemma forallb_firstn (A : Type) (p : A -> bool) n (l : list A) :
  forallb p l = true -> forallb p (firstn n l) = true.
Proof.
  rewrite !forallb_forall. intros H x Hx. apply H.
  rewrite <- (firstn_skipn n l). apply in_or_app. now left.
Qed.

Lemma forallb_skipn (A : Type) (p : A -> bool) n (l : list A) :
  forallb p l = true -> forallb p (skipn n l) = true.
Proof.
  rewrite !forallb_forall. intros H x Hx. apply H.
  rewrite <- (firstn_skipn n l). apply in_or_app. now right.
Qed.

(** [l[k:k+n]] and [l[k:]] for indices inside the list. *)
Lemma py_slice_window (A : Type) (l : list A) (k n : nat) :
  py_slice l (Z.of_nat k) (Z.of_nat k + Z.of_nat n) = firstn n (skipn k l).
Proof.
  unfold py_slice, slice_index.
  destruct (Z.of_nat k <? 0)%Z eqn:E1; [apply Z.ltb_lt in E1; lia|].
  destruct (Z.of_nat k + Z.of_nat n <? 0)%Z eqn:E2;
    [apply Z.ltb_lt in E2; lia|].
  rewrite Nat2Z.id, <- Nat2Z.inj_add, Nat2Z.id.
  destruct (Nat.le_gt_cases (length l) k) as [H|H].
  - rewrite (Nat.min_l (length l) k) by assumption.
    rewrite !skipn_all2 by lia. now rewrite !firstn_nil.
  - rewrite (Nat.min_r (length l) k) by lia.
    rewrite <- (firstn_min (skipn k l) n), <- (firstn_min (skipn k l) (_ - k)).
    rewrite length_skipn. f_equal. lia.
Qed.

Lemma slice_index_nat (len k : nat) :
  slice_index len (Z.of_nat k) = Nat.min len k.
Proof.
  unfold slice_index.
  destruct (Z.of_nat k <? 0)%Z eqn:E; [apply Z.ltb_lt in E; lia|].
  now rewrite Nat2Z.id.
Qed.

Lemma py_slice_from (A : Type) (l : list A) (k : nat) :
  py_slice l (Z.of_nat k) (Z.of_nat (length l)) = skipn k l.
Proof.
  unfold py_slice. rewrite !slice_index_nat, Nat.min_id.
  destruct (Nat.le_gt_cases (length l) k) as [H|H].
  - rewrite (Nat.min_l (length l) k) by assumption.
    rewrite !skipn_all2 by lia. now rewrite firstn_nil.
  - rewrite (Nat.min_r (length l) k) by lia.
    apply firstn_all2. rewrite length_skipn. lia.
Qed.

(** [l[-k:]] for [0 < k <= len(l)]: the last [k] elements. *)
Lemma py_slice_last (A : Type) (l : list A) (k : nat) :
  0 < k <= length l ->
  py_slice l (- Z.of_nat k) (Z.of_nat (length l)) = skipn (length l - k) l.
Proof.
  intros H. unfold py_slice. rewrite slice_index_nat, Nat.min_id.
  unfold slice_index.
  destruct (- Z.of_nat k <? 0)%Z eqn:E; [|apply Z.ltb_ge in E; lia].
  replace (Z.to_nat (Z.max 0 (- Z.of_nat k + Z.of_nat (length l))))
    with (length l - k) by lia.
  apply firstn_all2. rewrite length_skipn. lia.
Qed.

(** Nothing is selected from an index at or after the end. *)
Lemma py_slice_past (A : Type) (l : list A) (start stop : Z) :
  (Z.of_nat (length l) <= start)%Z -> py_slice l start stop = [].
Proof.
  intros H. unfold py_slice.
  assert (E : slice_index (length l) start = length l).
  { unfold slice_index.
    destruct (start <? 0)%Z eqn:E; [apply Z.ltb_lt in E; lia|]. lia. }
  rewrite E, skipn_all. apply firstn_nil.
Qed.

End JoinSplit.

(** A file system that holds one file. *)
Definition one_file (path text : str) : str -> option str :=
  fun p => if str_eqb p path then Some text else None.

Definition notes_path : str := py "memory/2024-01-02.md".

Definition notes_text : str :=
  join_lines [py "# Notes"; py "- cache"; py ""; py "done"].

(** X1. Read with the defaults ([from_line = 1], no [lines]), an existing
    file comes back unchanged: the content is the text of the file, and
    [total_lines] is the number of its lines. *)
Theorem get_memory_content_whole_file read path text :
  read path = Some text ->
  get_memory_content read path 1 None
  = Content path 1 (length (split_lines text)) text
  /\ 1 <= length (split_lines text).
Proof.
  intros H. unfold get_memory_content. rewrite H. cbv zeta. split.
  - change (1 - 1)%Z with (Z.of_nat 0).
    rewrite py_slice_from. cbn [skipn]. now rewrite join_split.
  - pose proof (split_lines_not_nil text).
    destruct (split_lines text); [congruence|simpl; lia].
Qed.

Lemma get_memory_content_whole_file_witness :
  get_memory_content (one_file notes_path notes_text) notes_path 1 None
  = Content notes_path 1 (length (split_lines notes_text)) notes_text
  /\ 1 <= length (split_lines notes_text).
Proof.
  apply (@get_memory_content_whole_file
           (one_file notes_path notes_text) notes_path notes_text).
  vm_compute. reflexivity.
Defined.

(** X2. Reading in pages loses nothing: [n] lines from [from_line] on,
    followed by a line break and the rest read from [from_line + n], is
    what is read from [from_line] on in one piece. *)
Theorem get_memory_content_pages read path text (from_line n : Z) :
  read path = Some text ->
  (1 <= from_line)%Z -> (1 <= n)%Z ->
  (from_line + n <= Z.of_nat (length (split_lines text)))%Z ->
  exists a b,
    get_memory_content read path from_line (Some n)
    = Content path from_line (length (split_lines text)) a
    /\ get_memory_content read path (from_line + n) None
       = Content path (from_line + n) (length (split_lines text)) b
    /\ get_memory_content read path from_line None
       = Content path from_line (length (split_lines text))
           (a ++ newline :: b).
Proof.
  intros H Hf Hn Hle. unfold get_memory_content. rewrite H. cbv zeta.
  set (ls := split_lines text) in *.
  set (k := Z.to_nat (from_line - 1)). set (m := Z.to_nat n).
  assert (E1 : py_slice ls (from_line - 1) (from_line - 1 + n)
               = firstn m (skipn k ls)).
  { rewrite <- (py_slice_window ls k m). f_equal; lia. }
  assert (E2 : py_slice ls (from_line + n - 1) (Z.of_nat (length ls))
               = skipn (k + m) ls).
  { rewrite <- py_slice_from. f_equal; lia. }
  assert (E3 : py_slice ls (from_line - 1) (Z.of_nat (length ls))
               = skipn k ls).
  { rewrite <- py_slice_from. f_equal; lia. }
  rewrite E1, E2, E3.
  exists (join_lines (firstn m (skipn k ls))), (join_lines (skipn (k + m) ls)).
  repeat split. f_equal.
  rewrite <- join_lines_app.
  - f_equal. rewrite Nat.add_comm, <- skipn_skipn. 
    symmetry. apply firstn_skipn.
  - intros E. apply (f_equal (@length str)) in E.
    rewrite length_firstn, length_skipn in E. simpl in E. lia.
  - intros E. apply (f_equal (@length str)) in E.
    rewrite length_skipn in E. simpl in E. lia.
Qed.

Lemma get_memory_content_pages_witness :
  exists a b,
    get_memory_content (one_file notes_path notes_text) notes_path 2 (Some 1%Z)
    = Content notes_path 2 (length (split_lines notes_text)) a
    /\ get_memory_content (one_file notes_path notes_text) notes_path (2 + 1)
         None
       = Content notes_path (2 + 1) (length (split_lines notes_text)) b
    /\ get_memory_content (one_file notes_path notes_text) notes_path 2 None
       = Content notes_path 2 (length (split_lines notes_text))
           (a ++ newline :: b).
Proof.
  apply (@get_memory_content_pages
           (one_file notes_path notes_text) notes_path notes_text 2 1).
  - vm_compute. reflexivity.
  - lia.
  - lia.
  - vm_compute. discriminate.
Defined.

(** X3. A request inside the file, [1 <= from_line <= total_lines] with
    [lines = n >= 1], returns the lines [from_line], ..., of the file, at
    most [n] of them, and the header of the [get] command shows the number
    of the last one: [min (from_line + n - 1) total_lines]. *)
Theorem get_memory_content_window read path text (from_line n : Z) c :
  read path = Some text ->
  (1 <= from_line <= Z.of_nat (length (split_lines text)))%Z ->
  (1 <= n)%Z ->
  get_memory_content read path from_line (Some n)
  = Content path from_line (length (split_lines text)) c ->
  split_lines c
  = firstn (Z.to_nat n) (skipn (Z.to_nat (from_line - 1)) (split_lines text))
  /\ shown_last_line from_line c
     = Z.min (from_line + n - 1) (Z.of_nat (length (split_lines text))).
Proof.
  intros H Hf Hn. unfold get_memory_content. rewrite H. cbv zeta.
  set (ls := split_lines text) in *.
  set (k := Z.to_nat (from_line - 1)). set (m := Z.to_nat n).
  assert (E1 : py_slice ls (from_line - 1) (from_line - 1 + n)
               = firstn m (skipn k ls)).
  { rewrite <- (py_slice_window ls k m). f_equal; lia. }
  rewrite E1. intros E.
  assert (Ec : c = join_lines (firstn m (skipn k ls))) by congruence.
  clear E.
  assert (Es : split_lines c = firstn m (skipn k ls)).
  { rewrite Ec. apply split_join.
    - intros E. apply (f_equal (@length str)) in E.
      rewrite length_firstn, length_skipn in E. simpl in E. lia.
    - apply forallb_firstn, forallb_skipn. apply lines_no_nl. }
  split; [exact Es|].
  unfold shown_last_line. rewrite Es, length_firstn, length_skipn. lia.
Qed.

Lemma get_memory_content_window_witness :
  split_lines (py "- cache")
  = firstn (Z.to_nat 1) (skipn (Z.to_nat (2 - 1)) (split_lines notes_text))
  /\ shown_last_line 2 (py "- cache")
     = Z.min (2 + 1 - 1) (Z.of_nat (length (split_lines notes_text))).
Proof.
  apply (@get_memory_content_window
           (one_file notes_path notes_text) notes_path notes_text 2 1).
  - vm_compute. reflexivity.
  - vm_compute. split; discriminate.
  - lia.
  - vm_compute. reflexivity.
Defined.

(** X4. A [from_line] after the last line is no error: whatever [lines]
    is, the content is empty; the header of the [get] command then shows
    the range [from_line]-[from_line], outside the file. *)
Theorem get_memory_content_past_end read path text (from_line : Z) lines :
  read path = Some text ->
  (Z.of_nat (length (split_lines text)) < from_line)%Z ->
  get_memory_content read path from_line lines
  = Content path from_line (length (split_lines text)) []
  /\ shown_last_line from_line [] = from_line.
Proof.
  intros H Hf. unfold get_memory_content. rewrite H. cbv zeta. split.
  - rewrite py_slice_past by lia. reflexivity.
  - unfold shown_last_line. simpl. lia.
Qed.

Lemma get_memory_content_past_end_witness :
  get_memory_content (one_file notes_path notes_text) notes_path 9 (Some 2%Z)
  = Content notes_path 9 (length (split_lines notes_text)) []
  /\ shown_last_line 9 [] = 9%Z.
Proof.
  apply (@get_memory_content_past_end
           (one_file notes_path notes_text) notes_path notes_text 9
           (Some 2%Z)).
  - vm_compute. reflexivity.
  - vm_compute. reflexivity.
Defined.

(** X5. A [from_line] of zero or less counts from the end of the file:
    with [from_line = 1 - k] for [0 < k <= total_lines] and no [lines],
    the content is the last [k] lines; [from_line = 0] gives the last
    line alone. *)
Theorem get_memory_content_from_end read path text (k : nat) :
  read path = Some text ->
  0 < k <= length (split_lines text) ->
  get_memory_content read path (1 - Z.of_nat k) None
  = Content path (1 - Z.of_nat k) (length (split_lines text))
      (join_lines (skipn (length (split_lines text) - k) (split_lines text))).
Proof.
  intros H Hk. unfold get_memory_content. rewrite H. cbv zeta.
  replace (1 - Z.of_nat k - 1)%Z with (- Z.of_nat k)%Z by lia.
  now rewrite py_slice_last.
Qed.

Lemma get_memory_content_from_end_witness :
  get_memory_content (one_file notes_path notes_text) notes_path 0 None
  = Content notes_path 0 4 (py "done").
Proof.
  apply (@get_memory_content_from_end
           (one_file notes_path notes_text) notes_path notes_text 1).
  - vm_compute. reflexivity.
  - vm_compute. split; repeat constructor.
Defined.

(** ** extract_snippets_regex *)

(** The windows of two lines around every match of the pattern, at the
    line where the match starts, duplicates dropped. *)
Definition spec_snippets_regex (content : str) (pattern : regex)
  : list str :=
  let lines := split_lines content in
  first_seen
    (map (fun sp => context_window lines (line_number content (fst sp)))
         (finditer IGNORECASE pattern content)).

(** X6. With the context of two lines that the search uses,
    [extract_snippets_regex] returns, for every match of the pattern in
    order, the lines from two before to two after the line where the match
    starts, each such window once. *)
Theorem extract_snippets_regex_spec content pattern :
  extract_snippets_regex content pattern 2
  = spec_snippets_regex content pattern
  /\ NoDup (extract_snippets_regex content pattern 2).
Proof.
  assert (E : extract_snippets_regex content pattern 2
              = spec_snippets_regex content pattern).
  { unfold extract_snippets_regex, spec_snippets_regex. cbv zeta.
    rewrite unique_loop_spec. f_equal. apply map_ext.
    intros sp. apply window_context. }
  split; [exact E|]. rewrite E. apply first_seen_NoDup.
Qed.

(** ** The scores *)

(** The number of times the keywords occur in the content, as
    [content.lower().count(keyword)] counts them. *)
Definition occurrences (content : str) (keywords : list str) : nat :=
  list_sum (map (count (lower content)) keywords).

Section ScoreBounds.

Lemma count_skip_pos sub s :
  sub <> [] -> contains s sub = true -> 0 < count_skip sub 0 s.
Proof.
  intros Hs. induction s as [|c s IH]; intros H.
  - destruct sub; [congruence|discriminate].
  - cbn [contains] in H. cbn [count_skip].
    destruct (startswith (c :: s) sub); [lia|].
    apply IH. exact H.
Qed.

Lemma count_pos s sub : contains s sub = true -> 0 < count s sub.
Proof.
  intros H. destruct sub as [|x sub]; [simpl; lia|].
  now apply count_skip_pos.
Qed.

Lemma count_pos_iff s sub : 0 < count s sub <-> contains s sub = true.
Proof.
  split; [|apply count_pos].
  destruct (contains s sub) eqn:E; [reflexivity|].
  rewrite (count_zero _ _ E). lia.
Qed.

Lemma occurrences_pos content keywords :
  0 < occurrences content keywords
  <-> exists kw, In kw keywords /\ contains (lower content) kw = true.
Proof.
  unfold occurrences. induction keywords as [|kw kws IH].
  - split; [simpl; lia|]. now intros (kw & [] & _).
  - change (list_sum (map (count (lower content)) (kw :: kws)))
      with (count (lower content) kw
            + list_sum (map (count (lower content)) kws)).
    split.
    + intros H. destruct (contains (lower content) kw) eqn:E.
      * exists kw. split; [now left|exact E].
      * rewrite (count_zero _ _ E) in H.
        destruct IH as [IH _]. destruct (IH H) as (k & Hk & Hc).
        exists k. split; [now right|exact Hc].
    + intros (k & [<-|Hk] & Hc).
      * apply count_pos in Hc. lia.
      * assert (0 < list_sum (map (count (lower content)) kws)); [|lia].
        apply IH. eauto.
Qed.

Lemma times_add a b w : (times (a + b) w == times a w + times b w)%Q.
Proof. unfold times. rewrite Nat2Z.inj_add, inject_Z_plus. ring. Qed.

Lemma times_zero w : (times 0 w == 0)%Q.
Proof. unfold times. simpl. ring. Qed.

Lemma times_mono c w1 w2 : (w1 <= w2)%Q -> (times c w1 <= times c w2)%Q.
Proof.
  intros H. unfold times. destruct c as [|c].
  - simpl. rewrite !Qmult_0_l. apply Qle_refl.
  - apply Qmult_le_l; [|exact H]. unfold Qlt. simpl. lia.
Qed.

Lemma score_content_loop_bounds content keywords :
  forallb plain keywords = true ->
  forall score,
  exists q,
    score_content_loop content (lower content) keywords score = Done q
    /\ (score + times (occurrences content keywords) 1 <= q)%Q
    /\ (q <= score + times (occurrences content keywords) 3)%Q.
Proof.
  induction keywords as [|kw kws IH]; intros Hk score.
  - exists score. split; [reflexivity|].
    change (occurrences content []) with 0.
    rewrite !times_zero, Qplus_0_r. split; apply Qle_refl.
  - cbn [forallb] in Hk. apply andb_true_iff in Hk. destruct Hk as [Hp Hk].
    assert (Eo : occurrences content (kw :: kws)
                 = count (lower content) kw + occurrences content kws)
      by reflexivity.
    cbn [score_content_loop].
    destruct (contains (lower content) kw) eqn:Ec.
    + set (c := count (lower content) kw) in *.
      assert (H12 : (times c 1 <= times c 2)%Q)
        by (apply times_mono; discriminate).
      assert (H23 : (times c 2 <= times c 3)%Q)
        by (apply times_mono; discriminate).
      assert (H13 : (times c 1 <= times c 3)%Q)
        by (apply times_mono; discriminate).
      assert (step : forall w,
                (times c 1 <= w)%Q -> (w <= times c 3)%Q ->
                exists q,
                  score_content_loop content (lower content) kws (score + w)%Q
                  = Done q
                  /\ (score + times (occurrences content (kw :: kws)) 1 <= q)%Q
                  /\ (q <= score + times (occurrences content (kw :: kws)) 3)%Q).
      { intros w L1 U1.
        destruct (IH Hk (score + w)%Q) as (q & E & L & U).
        exists q. split; [exact E|]. rewrite Eo, !times_add. split.
        - eapply Qle_trans; [|exact L]. rewrite Qplus_assoc.
          apply Qplus_le_compat; [|apply Qle_refl].
          apply Qplus_le_compat; [apply Qle_refl|exact L1].
        - eapply Qle_trans; [exact U|]. rewrite Qplus_assoc.
          apply Qplus_le_compat; [|apply Qle_refl].
          apply Qplus_le_compat; [apply Qle_refl|exact U1]. }
      rewrite (@heading_search kw content Hp). unfold bind.
      destruct (search MULTILINE_IGNORECASE (heading_re kw) content).
      * apply step; [exact H13|apply Qle_refl].
      * rewrite (@bullet_search kw content Hp).
        destruct (search MULTILINE_IGNORECASE (bullet_re kw) content).
        -- apply step; [exact H12|exact H23].
        -- apply step; [apply Qle_refl|exact H13].
    + destruct (IH Hk score) as (q & E & L & U).
      exists q. split; [exact E|].
      rewrite Eo, (count_zero _ _ Ec). split; assumption.
Qed.

End ScoreBounds.

(** X7. For keywords without regex metacharacters [score_content] returns
    a score and raises nothing; the score lies between the number of
    occurrences of the keywords in the lower-cased content and three times
    that number, so it is positive exactly when some keyword occurs
    there. *)
Theorem score_content_bounds content keywords :
  forallb plain keywords = true ->
  exists q,
    score_content content keywords = Done q
    /\ (times (occurrences content keywords) 1 <= q)%Q
    /\ (q <= times (occurrences content keywords) 3)%Q
    /\ ((0 < q)%Q
        <-> exists kw, In kw keywords /\ contains (lower content) kw = true).
Proof.
  intros Hk.
  destruct (@score_content_loop_bounds content keywords Hk 0%Q)
    as (q & E & L & U).
  rewrite Qplus_0_l in L, U.
  exists q. split; [exact E|]. split; [exact L|]. split; [exact U|].
  rewrite <- occurrences_pos.
  destruct (occurrences content keywords) as [|n] eqn:En.
  - rewrite times_zero in U. split; [|lia].
    intros H. exfalso. exact (Qlt_not_le _ _ H U).
  - split; [lia|]. intros _.
    eapply Qlt_le_trans; [|exact L].
    apply times_pos; [lia|reflexivity].
Qed.

Lemma score_content_bounds_witness :
  exists q,
    score_content notes_text [py "cache"; py "notes"] = Done q
    /\ (times (occurrences notes_text [py "cache"; py "notes"]) 1 <= q)%Q
    /\ (q <= times (occurrences notes_text [py "cache"; py "notes"]) 3)%Q
    /\ ((0 < q)%Q
        <-> exists kw, In kw [py "cache"; py "notes"]
                       /\ contains (lower notes_text) kw = true).
Proof.
  apply (@score_content_bounds notes_text [py "cache"; py "notes"]).
  vm_compute. reflexivity.
Defined.

Section RegexBounds.

Lemma bonus_le content sp : (bonus content sp <= 3)%Q.
Proof.
  unfold bonus. destruct (startswith _ _); [apply Qle_refl|].
  destruct (starts_with_bullet _); discriminate.
Qed.

Lemma Qsum_bonus_le content matches :
  (Qsum (map (bonus content) matches) <= times (length matches) 3)%Q.
Proof.
  induction matches as [|sp ms IH].
  - simpl. rewrite times_zero. apply Qle_refl.
  - change (length (sp :: ms)) with (1 + length ms).
    rewrite times_add. cbn [map Qsum fold_right].
    apply Qplus_le_compat; [|exact IH].
    eapply Qle_trans; [apply bonus_le|]. discriminate.
Qed.

Lemma times_weights n a b : (times n a + times n b == times n (a + b))%Q.
Proof. unfold times. ring. Qed.

Lemma finditer_nil_iff fl r s : finditer fl r s = [] <-> search fl r s = false.
Proof.
  unfold finditer, search.
  change (2 * length s + 2) with (length s + (length s + 0) + 2).
  rewrite Nat.add_comm. cbn [Nat.add finditer_from].
  destruct (search_at fl r false None s 0) as [[[st en] [p' s']]|].
  - split; discriminate.
  - split; reflexivity.
Qed.

End RegexBounds.

(** X8. The regex score of a document with [n] matches of the pattern
    lies between [2 n] and [5 n]; it is positive exactly when the pattern,
    compiled without regard to case, is found somewhere in the content. *)
Theorem score_content_regex_bounds content pattern :
  (times (length (finditer IGNORECASE pattern content)) 2
   <= score_content_regex content pattern)%Q
  /\ (score_content_regex content pattern
      <= times (length (finditer IGNORECASE pattern content)) 5)%Q
  /\ ((0 < score_content_regex content pattern)%Q
      <-> search IGNORECASE pattern content = true).
Proof.
  assert (B : (times (length (finditer IGNORECASE pattern content)) 2
               <= score_content_regex content pattern)%Q
              /\ (score_content_regex content pattern
                  <= times (length (finditer IGNORECASE pattern content)) 5)%Q).
  { unfold score_content_regex. cbv zeta.
    destruct (finditer IGNORECASE pattern content) as [|sp ms] eqn:E.
    - simpl. rewrite !times_zero. split; apply Qle_refl.
    - rewrite bonus_loop_sum. split.
      + rewrite <- (Qplus_0_r (times (length (sp :: ms)) 2)) at 1.
        apply Qplus_le_compat; [apply Qle_refl|apply Qsum_bonus_nonneg].
      + rewrite <- (times_weights (length (sp :: ms)) 2 3).
        apply Qplus_le_compat; [apply Qle_refl|apply Qsum_bonus_le]. }
  destruct B as [L U]. split; [exact L|]. split; [exact U|].
  pose proof (finditer_nil_iff IGNORECASE pattern content) as N.
  destruct (finditer IGNORECASE pattern content) as [|sp ms] eqn:E.
  - rewrite times_zero in U. split.
    + intros H. exfalso. exact (Qlt_not_le _ _ H U).
    + intros H. destruct N as [N _]. rewrite (N eq_refl) in H. discriminate.
  - split.
    + intros _. destruct (search IGNORECASE pattern content); [reflexivity|].
      destruct N as [_ N]. discriminate (N eq_refl).
    + intros _. eapply Qlt_le_trans; [|exact L].
      apply times_pos; [simpl; lia|reflexivity].
Qed.

(** ** The search as a whole *)

Section Totality.

Variable mt : matcher.
Variable tags : option (list str).
Hypothesis scores : forall content, exists q, score_with mt content = Done q.

Lemma examine_total content :
  exists found, examine mt tags content = Done found.
Proof.
  unfold examine, bind.
  destruct (tags_pass_total tags content) as [[|] ->]; [|eauto].
  destruct (scores content) as [q ->].
  destruct (Qpositive q); eauto.
Qed.

Lemma daily_loop_total cutoff_date files :
  forall results,
  exists out, daily_loop mt tags cutoff_date files results = Done out.
Proof.
  induction files as [|f files IH]; intros results; cbn [daily_loop]; [eauto|].
  destruct (strptime_ymd (stem (name f))) as [d|]; [|apply IH].
  destruct (too_old cutoff_date d); [apply IH|].
  destruct (examine_total (content f)) as [found ->]. unfold bind.
  destruct found as [[sc sn]|]; apply IH.
Qed.

Lemma long_term_total f results :
  exists out, long_term mt tags f results = Done out.
Proof.
  destruct f as [f|]; cbn [long_term]; [|eauto].
  destruct (examine_total (content f)) as [found ->]. unfold bind.
  destruct found as [[sc sn]|]; eauto.
Qed.

End Totality.

Lemma search_total e query max_results days use_regex tags cutoff_date mt :
  cutoff_of (now e) days = Done cutoff_date ->
  choose_matcher query use_regex = Done mt ->
  (forall content, exists q, score_with mt content = Done q) ->
  exists out,
    search_memory_files e query max_results days use_regex tags = Done out.
Proof.
  intros Hc Hm Hs. unfold search_memory_files.
  rewrite collect_daily_files, Hc, Hm. unfold bind.
  destruct (@daily_loop_total mt tags Hs cutoff_date (daily_files e) [])
    as [rs ->].
  destruct (@long_term_total mt tags Hs (memory_file e) rs) as [out ->].
  eauto.
Qed.

(** X9. In regex mode a query that compiles never makes the search raise
    [re.error], whatever the files and the tags hold: once the time window
    is computed the search returns a list. *)
Theorem regex_search_total e query pattern max_results days tags cutoff_date :
  parse query = POk pattern ->
  cutoff_of (now e) days = Done cutoff_date ->
  exists out,
    search_memory_files e query max_results days true tags = Done out.
Proof.
  intros Hp Hc.
  apply (@search_total e query max_results days true tags cutoff_date
           (ByPattern pattern) Hc).
  - unfold choose_matcher. now rewrite Hp.
  - intros content. cbn [score_with]. eauto.
Qed.

Lemma regex_search_total_witness :
  exists out,
    search_memory_files cache_corpus (py "c.che|x+") 5 (Some 7%Z) true
      (Some [py "f("])
    = Done out.
Proof.
  apply (@regex_search_total cache_corpus (py "c.che|x+")
           (Alt (Seq (Lit (ch "c")) (Seq Dot (Seq (Lit (ch "c"))
                   (Seq (Lit (ch "h")) (Seq (Lit (ch "e")) Eps)))))
                (Seq (Plus (Lit (ch "x"))) Eps))
           5 (Some 7%Z) (Some [py "f("])
           (Some (noon_2024_01_02 - 7 * us_per_day)%Z)).
  - vm_compute. reflexivity.
  - vm_compute. reflexivity.
Defined.

Lemma plain_keywords_score keywords :
  forallb plain keywords = true ->
  forall content, exists q, score_with (ByKeywords keywords) content = Done q.
Proof.
  intros Hk content. cbn [score_with].
  destruct (@score_content_loop_bounds content keywords Hk 0%Q)
    as (q & E & _).
  exists q. exact E.
Qed.

Lemma keywords_of_plain query :
  extract_keywords query <> [] \/ plain (lower query) = true ->
  forallb plain (keywords_of query) = true.
Proof.
  intros H. unfold keywords_of.
  destruct (extract_keywords query) as [|k ks] eqn:E.
  - destruct H as [H|H]; [congruence|]. cbn [forallb]. now rewrite H.
  - rewrite <- E. apply forallb_forall. intros w Hw.
    pose proof (extract_keywords_plain query) as P.
    rewrite forallb_forall in P. specialize (P w Hw).
    apply andb_true_iff in P. now destruct P.
Qed.

(** X10. In keyword mode the search raises no [re.error] when the query
    holds at least one keyword (a word of ASCII letters that is kept), or
    when it holds no regex metacharacter at all: once the time window is
    computed the search returns a list. *)
Theorem keyword_search_total e query max_results days tags cutoff_date :
  extract_keywords query <> [] \/ plain (lower query) = true ->
  cutoff_of (now e) days = Done cutoff_date ->
  exists out,
    search_memory_files e query max_results days false tags = Done out.
Proof.
  intros Hq Hc.
  apply (@search_total e query max_results days false tags cutoff_date
           (ByKeywords (keywords_of query)) Hc).
  - reflexivity.
  - apply plain_keywords_score. now apply keywords_of_plain.
Qed.

Lemma keyword_search_total_witness :
  exists out,
    search_memory_files call_corpus (py "call f(") 5 None false None
    = Done out.
Proof.
  apply (@keyword_search_total call_corpus (py "call f(") 5 None None None).
  - left. vm_compute. discriminate.
  - reflexivity.
Defined.

Section Results.

Lemma sort_desc_In (A : Type) (key : A -> Q) (l : list A) x :
  In x (sort_desc key Qltb l) -> In x l.
Proof.
  intros H.
  apply (Permutation_in x (@sort_perm A Q key Qltb l)). exact H.
Qed.

Lemma sort_desc_length (A : Type) (key : A -> Q) (l : list A) :
  length (sort_desc key Qltb l) = length l.
Proof. apply Permutation_length, sort_perm. Qed.

Lemma daily_entry_length mt tags cutoff_date files :
  length (flat_map (daily_entry mt tags cutoff_date) files) <= length files.
Proof.
  induction files as [|f files IH]; [simpl; lia|].
  cbn [flat_map]. rewrite length_app. unfold daily_entry at 1.
  destruct (strptime_ymd (stem (name f))) as [d|]; [|simpl; lia].
  destruct (too_old cutoff_date d); [simpl; lia|].
  destruct (examine mt tags (content f)) as [[[sc sn]|]| |]; simpl; lia.
Qed.

End Results.

Definition cache_results : list result :=
  Eval vm_compute in
    match search_memory_files boost_corpus (py "cache") 5 None false None with
    | Done out => out
    | _ => []
    end.

(** X11. Every result that the search returns has a positive score and at
    most three snippets, and stands for the long-term file or for a file
    of the memory directory whose name parses as a date; there are no more
    results than such files, and no more than a [max_results] that is not
    negative. *)
Theorem search_results_wellformed e query max_results days use_regex tags
  out :
  search_memory_files e query max_results days use_regex tags = Done out ->
  (forall r, In r out ->
     (0 < score r)%Q
     /\ length (snippets r) <= 3
     /\ ((path r = MEMORY_FILE /\ date r = py "long-term"
          /\ memory_file e <> None)
         \/ exists f file_date,
              In f (daily_files e) /\ path r = path_of f
              /\ date r = stem (name f)
              /\ strptime_ymd (date r) = Some file_date))
  /\ length out <= length (daily_files e) + 1
  /\ ((0 <= max_results)%Z -> length out <= Z.to_nat max_results).
Proof.
  unfold search_memory_files.
  destruct (collect e query days use_regex tags) as [results| |] eqn:E;
    try discriminate.
  cbn [bind]. intros H. assert (Eo : out = take (sort_desc score Qltb results)
                                            max_results) by congruence.
  clear H. apply collect_done in E.
  destruct E as (cutoff_date & mt & _ & _ & Er).
  split; [|split].
  - intros r Hr. rewrite Eo in Hr. apply In_take, sort_desc_In in Hr.
    rewrite Er in Hr. apply in_app_or in Hr. destruct Hr as [Hr|Hr].
    + apply daily_entry_from in Hr.
      destruct Hr as (f & sc & Hf & Hv & Hx & Hs & Hp & Hd).
      apply examine_some in Hx. destruct Hx as (_ & Hpos & Hsn).
      split; [now rewrite Hs|]. split.
      * rewrite Hsn. rewrite length_firstn. lia.
      * right. unfold visible in Hv.
        destruct (strptime_ymd (stem (name f))) as [d|] eqn:Ed;
          [|discriminate].
        exists f, d. rewrite Hd. auto.
    + apply long_term_entry_from in Hr.
      destruct Hr as (g & sc & Hg & Hx & Hs & Hp & Hd).
      apply examine_some in Hx. destruct Hx as (_ & Hpos & Hsn).
      split; [|split].
      * rewrite Hs. apply Qmult_lt_0_compat; [exact Hpos|reflexivity].
      * rewrite Hsn. rewrite length_firstn. lia.
      * left. rewrite Hg. repeat split; try assumption. discriminate.
  - assert (L : length out <= length results).
    { rewrite Eo, <- (sort_desc_length score results). unfold take.
      destruct (0 <=? max_results)%Z; rewrite length_firstn; lia. }
    rewrite Er, length_app in L.
    pose proof (daily_entry_length mt tags cutoff_date (daily_files e)).
    assert (length (long_term_entry mt tags (memory_file e)) <= 1).
    { unfold long_term_entry. destruct (memory_file e) as [f|]; [|simpl; lia].
      destruct (examine mt tags (content f)) as [[[sc sn]|]| |]; simpl; lia. }
    lia.
  - intros Hn. rewrite Eo. unfold take.
    assert (T : (0 <=? max_results)%Z = true) by (apply Z.leb_le; lia).
    rewrite T, length_firstn. lia.
Qed.

Lemma search_results_wellformed_witness :
  (forall r, In r cache_results ->
     (0 < score r)%Q
     /\ length (snippets r) <= 3
     /\ ((path r = MEMORY_FILE /\ date r = py "long-term"
          /\ memory_file boost_corpus <> None)
         \/ exists f file_date,
              In f (daily_files boost_corpus) /\ path r = path_of f
              /\ date r = stem (name f)
              /\ strptime_ymd (date r) = Some file_date))
  /\ length cache_results <= length (daily_files boost_corpus) + 1
  /\ ((0 <= 5)%Z -> length cache_results <= Z.to_nat 5).
Proof.
  apply (@search_results_wellformed boost_corpus (py "cache") 5 None false
           None cache_results).
  vm_compute. reflexivity.
Defined.

Lemma take_all (A : Type) (l : list A) n :
  (Z.of_nat (length l) <= n)%Z -> take l n = l.
Proof.
  intros H. unfold take.
  assert (T : (0 <=? n)%Z = true) by (apply Z.leb_le; lia).
  rewrite T. apply firstn_all2. lia.
Qed.

Lemma take_take (A : Type) (l : list A) n n' :
  (0 <= n <= n')%Z -> take l n = firstn (Z.to_nat n) (take l n').
Proof.
  intros H. unfold take.
  assert (T : (0 <=? n)%Z = true) by (apply Z.leb_le; lia).
  assert (T' : (0 <=? n')%Z = true) by (apply Z.leb_le; lia).
  rewrite T, T', firstn_firstn. f_equal. lia.
Qed.

(** X12. Raising [max_results] only appends results: for
    [0 <= n <= n'] the results for the limit [n] are the first [n] of the
    results for the limit [n']. *)
Theorem max_results_prefix e query days use_regex tags (n n' : Z) out' :
  (0 <= n <= n')%Z ->
  search_memory_files e query n' days use_regex tags = Done out' ->
  search_memory_files e query n days use_regex tags
  = Done (firstn (Z.to_nat n) out').
Proof.
  intros Hn. unfold search_memory_files.
  destruct (collect e query days use_regex tags) as [results| |];
    try discriminate.
  cbn [bind]. intros H.
  assert (Eo : out' = take (sort_desc score Qltb results) n') by congruence.
  rewrite Eo. f_equal. now apply take_take.
Qed.

Lemma max_results_prefix_witness :
  search_memory_files boost_corpus (py "cache") 1 None false None
  = Done (firstn (Z.to_nat 1) cache_results).
Proof.
  apply (@max_results_prefix boost_corpus (py "cache") None false None 1 5
           cache_results).
  - lia.
  - vm_compute. reflexivity.
Defined.

Lemma collect_length e query days use_regex tags results :
  collect e query days use_regex tags = Done results ->
  length results <= length (daily_files e) + 1.
Proof.
  intros E. apply collect_done in E.
  destruct E as (cutoff_date & mt & _ & _ & Er).
  rewrite Er, length_app.
  pose proof (daily_entry_length mt tags cutoff_date (daily_files e)).
  assert (length (long_term_entry mt tags (memory_file e)) <= 1); [|lia].
  unfold long_term_entry. destruct (memory_file e) as [f|]; [|simpl; lia].
  destruct (examine mt tags (content f)) as [[[sc sn]|]| |]; simpl; lia.
Qed.

(** The whole ranked list: what a limit of one more than the number of
    daily files returns. *)
Lemma search_unlimited e query days use_regex tags all :
  search_memory_files e query (Z.of_nat (length (daily_files e) + 1)) days
    use_regex tags = Done all ->
  exists results,
    collect e query days use_regex tags = Done results
    /\ all = sort_desc score Qltb results.
Proof.
  unfold search_memory_files.
  destruct (collect e query days use_regex tags) as [results| |] eqn:E;
    try discriminate.
  cbn [bind]. intros H. exists results. split; [reflexivity|].
  rewrite take_all in H; [congruence|].
  rewrite sort_desc_length. apply collect_length in E. lia.
Qed.

(** X13. A [max_results] that is not positive is no error: zero returns
    nothing, and [-k] returns the ranked list without its last [k]
    results, where the ranked list is what a limit above the number of
    files returns. *)
Theorem max_results_not_positive e query days use_regex tags (k : nat) all :
  0 < k ->
  search_memory_files e query (Z.of_nat (length (daily_files e) + 1)) days
    use_regex tags = Done all ->
  search_memory_files e query 0 days use_regex tags = Done []
  /\ search_memory_files e query (- Z.of_nat k) days use_regex tags
     = Done (firstn (length all - k) all).
Proof.
  intros Hk H. apply search_unlimited in H.
  destruct H as (results & E & ->).
  unfold search_memory_files. rewrite E. cbn [bind]. split.
  - reflexivity.
  - f_equal. unfold take.
    assert (T : (0 <=? - Z.of_nat k)%Z = false) by (apply Z.leb_gt; lia).
    rewrite T. f_equal. lia.
Qed.

Lemma max_results_not_positive_witness :
  search_memory_files boost_corpus (py "cache") 0 None false None = Done []
  /\ search_memory_files boost_corpus (py "cache") (- Z.of_nat 1) None false
       None
     = Done (firstn (length cache_results - 1) cache_results).
Proof.
  apply (@max_results_not_positive boost_corpus (py "cache") None false None
           1 cache_results).
  - lia.
  - vm_compute. reflexivity.
Defined.

Section Narrowing.

Lemma examine_without_tags mt tags content found :
  examine mt tags content = Done (Some found) ->
  examine mt None content = Done (Some found).
Proof.
  unfold examine, bind. cbn [tags_pass].
  destruct (tags_pass_total tags content) as [[|] ->];
    [trivial|discriminate].
Qed.

Lemma daily_entry_without_tags mt tags cutoff_date f r :
  In r (daily_entry mt tags cutoff_date f) ->
  In r (daily_entry mt None cutoff_date f).
Proof.
  unfold daily_entry.
  destruct (strptime_ymd (stem (name f))) as [d|]; [|trivial].
  destruct (too_old cutoff_date d); [trivial|].
  destruct (examine mt tags (content f)) as [[[sc sn]|]| |] eqn:E;
    try contradiction.
  now rewrite (examine_without_tags _ _ _ E).
Qed.

Lemma long_term_entry_without_tags mt tags f r :
  In r (long_term_entry mt tags f) -> In r (long_term_entry mt None f).
Proof.
  unfold long_term_entry. destruct f as [f|]; [|trivial].
  destruct (examine mt tags (content f)) as [[[sc sn]|]| |] eqn:E;
    try contradiction.
  now rewrite (examine_without_tags _ _ _ E).
Qed.

Lemma cutoff_of_days now d cutoff_date :
  d <> 0%Z ->
  cutoff_of now (Some d) = Done cutoff_date ->
  cutoff_date = Some (now - d * us_per_day)%Z.
Proof.
  intros Hd. unfold cutoff_of.
  destruct (d =? 0)%Z eqn:E; [apply Z.eqb_eq in E; congruence|].
  unfold minus_days, bind.
  destruct (999999999 <? Z.abs d)%Z; [discriminate|]. cbv zeta.
  match goal with
  | |- context [if ?b then Done _ else _] => destruct b
  end; [|discriminate].
  intros H. injection H as <-. reflexivity.
Qed.

Lemma daily_entry_wider mt tags c1 c2 f r :
  (forall d, too_old c2 d = true -> too_old c1 d = true) ->
  In r (daily_entry mt tags c1 f) -> In r (daily_entry mt tags c2 f).
Proof.
  intros W. unfold daily_entry.
  destruct (strptime_ymd (stem (name f))) as [d|]; [|trivial].
  destruct (too_old c2 d) eqn:E2.
  - now rewrite (W d E2).
  - destruct (too_old c1 d); [contradiction|trivial].
Qed.

Lemma flat_map_incl (A B : Type) (f g : A -> list B) l x :
  (forall a, In x (f a) -> In x (g a)) ->
  In x (flat_map f l) -> In x (flat_map g l).
Proof.
  intros H. rewrite !in_flat_map. intros (a & Ha & Hx). eauto.
Qed.

End Narrowing.

Definition tagged_corpus : env :=
  corpus [text_file "2024-01-02.md" (py "cache #infra");
          text_file "2024-01-01.md" (py "cache")] None.

(** X14. Tags only filter: with a limit above the number of files, every
    result of a search with tags is, unchanged, a result of the same
    search without tags. *)
Theorem tags_only_filter e query days use_regex tags a b :
  search_memory_files e query (Z.of_nat (length (daily_files e) + 1)) days
    use_regex tags = Done a ->
  search_memory_files e query (Z.of_nat (length (daily_files e) + 1)) days
    use_regex None = Done b ->
  incl a b.
Proof.
  intros Ha Hb. apply search_unlimited in Ha, Hb.
  destruct Ha as (ra & Ea & ->). destruct Hb as (rb & Eb & ->).
  apply collect_done in Ea, Eb.
  destruct Ea as (c1 & m1 & Hc1 & Hm1 & ->).
  destruct Eb as (c2 & m2 & Hc2 & Hm2 & ->).
  assert (c2 = c1) by congruence. assert (m2 = m1) by congruence.
  subst c2 m2. intros r Hr.
  apply sort_desc_In in Hr.
  apply (Permutation_in r (Permutation_sym (@sort_perm _ _ score Qltb _))).
  apply in_or_app. apply in_app_or in Hr. destruct Hr as [Hr|Hr].
  - left. revert Hr. apply flat_map_incl.
    intros f. apply daily_entry_without_tags.
  - right. now apply long_term_entry_without_tags in Hr.
Qed.

Lemma tags_only_filter_witness :
  incl [ {| path := path_of (text_file "2024-01-02.md" (py "cache #infra"));
            date := py "2024-01-02"; score := 1;
            snippets := [py "cache #infra"] |} ]
       [ {| path := path_of (text_file "2024-01-02.md" (py "cache #infra"));
            date := py "2024-01-02"; score := 1;
            snippets := [py "cache #infra"] |};
         {| path := path_of (text_file "2024-01-01.md" (py "cache"));
            date := py "2024-01-01"; score := 1;
            snippets := [py "cache"] |} ].
Proof.
  apply (@tags_only_filter tagged_corpus (py "cache") None false
           (Some [py "infra"])).
  - vm_compute. reflexivity.
  - vm_compute. reflexivity.
Defined.

(** X15. A longer time window only adds results: with a limit above the
    number of files, every result for the last [d1] days is a result for
    the last [d2 >= d1] days, and every result of a search with a window is
    a result of the search without one. *)
Theorem window_only_widens e query use_regex tags (d1 d2 : Z) a b :
  (0 < d1 <= d2)%Z ->
  search_memory_files e query (Z.of_nat (length (daily_files e) + 1))
    (Some d1) use_regex tags = Done a ->
  search_memory_files e query (Z.of_nat (length (daily_files e) + 1))
    (Some d2) use_regex tags = Done b ->
  incl a b
  /\ forall c,
       search_memory_files e query (Z.of_nat (length (daily_files e) + 1))
         None use_regex tags = Done c ->
       incl b c.
Proof.
  intros Hd Ha Hb. apply search_unlimited in Ha, Hb.
  destruct Ha as (ra & Ea & ->). destruct Hb as (rb & Eb & ->).
  apply collect_done in Ea, Eb.
  destruct Ea as (c1 & m1 & Hc1 & Hm1 & ->).
  destruct Eb as (c2 & m2 & Hc2 & Hm2 & ->).
  assert (m2 = m1) by congruence. subst m2.
  apply cutoff_of_days in Hc1; [|lia]. apply cutoff_of_days in Hc2; [|lia].
  subst c1 c2.
  assert (step : forall ca cb x,
            (forall d, too_old cb d = true -> too_old ca d = true) ->
            In x (sort_desc score Qltb
                    (flat_map (daily_entry m1 tags ca) (daily_files e)
                     ++ long_term_entry m1 tags (memory_file e))) ->
            In x (sort_desc score Qltb
                    (flat_map (daily_entry m1 tags cb) (daily_files e)
                     ++ long_term_entry m1 tags (memory_file e)))).
  { intros ca cb x W Hx. apply sort_desc_In in Hx.
    apply (Permutation_in x (Permutation_sym (@sort_perm _ _ score Qltb _))).
    apply in_or_app. apply in_app_or in Hx. destruct Hx as [Hx|Hx].
    - left. revert Hx. apply flat_map_incl.
      intros f. now apply daily_entry_wider.
    - now right. }
  split.
  - intros r. apply step. intros d. unfold too_old.
    rewrite !Z.ltb_lt. unfold us_per_day. lia.
  - intros c Hc. apply search_unlimited in Hc.
    destruct Hc as (rc & Ec & ->). apply collect_done in Ec.
    destruct Ec as (c3 & m3 & Hc3 & Hm3 & ->).
    assert (m3 = m1) by congruence. subst m3.
    cbn [cutoff_of] in Hc3. injection Hc3 as <-.
    intros r. apply step. intros d. discriminate.
Qed.

Definition two_days_corpus : env :=
  corpus [text_file "2024-01-02.md" (py "cache");
          text_file "2023-12-30.md" (py "cache")] None.

Lemma window_only_widens_witness :
  incl [ {| path := path_of (text_file "2024-01-02.md" (py "cache"));
            date := py "2024-01-02"; score := 1;
            snippets := [py "cache"] |} ]
       [ {| path := path_of (text_file "2024-01-02.md" (py "cache"));
            date := py "2024-01-02"; score := 1;
            snippets := [py "cache"] |};
         {| path := path_of (text_file "2023-12-30.md" (py "cache"));
            date := py "2023-12-30"; score := 1;
            snippets := [py "cache"] |} ]
  /\ forall c,
       search_memory_files two_days_corpus (py "cache")
         (Z.of_nat (length (daily_files two_days_corpus) + 1))
         None false None = Done c ->
       incl [ {| path := path_of (text_file "2024-01-02.md" (py "cache"));
                 date := py "2024-01-02"; score := 1;
                 snippets := [py "cache"] |};
              {| path := path_of (text_file "2023-12-30.md" (py "cache"));
                 date := py "2023-12-30"; score := 1;
                 snippets := [py "cache"] |} ] c.
Proof.
  apply (@window_only_widens two_days_corpus (py "cache") false None 1 7).
  - lia.
  - vm_compute. reflexivity.
  - vm_compute. reflexivity.
Defined.

(** X16. What the search finds, the listing shows: for the same [days],
    [list_memories] returns a list, and every result of the search has an
    entry there with the same path and the same date. *)
Theorem search_results_listed e query max_results days use_regex tags out :
  search_memory_files e query max_results days use_regex tags = Done out ->
  exists memories,
    list_memories e days = Done memories
    /\ forall r, In r out ->
         exists m, In m memories /\ mem_path m = path r
                   /\ mem_date m = date r.
Proof.
  unfold search_memory_files.
  destruct (collect e query days use_regex tags) as [results| |] eqn:E;
    try discriminate.
  cbn [bind]. intros H.
  assert (Eo : out = take (sort_desc score Qltb results) max_results)
    by congruence.
  clear H. apply collect_done in E.
  destruct E as (cutoff_date & mt & Hc & _ & Er).
  exists (flat_map (list_entry cutoff_date) (daily_files e)
          ++ long_term_listing (memory_file e)).
  split; [now apply list_memories_done|].
  intros r Hr. rewrite Eo in Hr. apply In_take, sort_desc_In in Hr.
  rewrite Er in Hr. apply in_app_or in Hr. destruct Hr as [Hr|Hr].
  - apply daily_entry_from in Hr.
    destruct Hr as (f & sc & Hf & Hv & _ & _ & Hp & Hd).
    exists {| mem_path := path_of f; mem_date := stem (name f);
              mem_size := st_size f; mem_modified := st_mtime f |}.
    split; [|split; [now rewrite Hp|now rewrite Hd]].
    apply in_or_app. left. apply in_flat_map. exists f. split; [exact Hf|].
    unfold list_entry. rewrite Hv. now left.
  - apply long_term_entry_from in Hr.
    destruct Hr as (g & sc & Hg & _ & _ & Hp & Hd).
    exists {| mem_path := MEMORY_FILE; mem_date := py "long-term";
              mem_size := st_size g; mem_modified := st_mtime g |}.
    split; [|split; [now rewrite Hp|now rewrite Hd]].
    apply in_or_app. right. rewrite Hg. now left.
Qed.

Lemma search_results_listed_witness :
  exists memories,
    list_memories boost_corpus None = Done memories
    /\ forall r, In r cache_results ->
         exists m, In m memories /\ mem_path m = path r
                   /\ mem_date m = date r.
Proof.
  apply (@search_results_listed boost_corpus (py "cache") 5 None false None
           cache_results).
  vm_compute. reflexivity.
Defined.

(** The file name, without its suffix, parses as a date. *)
Definition dated (f : file) : bool :=
  match strptime_ymd (stem (name f)) with
  | Some _ => true
  | None => false
  end.

Lemma list_loop_raised now days x files :
  cutoff_of now days = Raised x ->
  forall memories,
    list_loop now days files memories
    = if existsb dated files then Raised x else Done memories.
Proof.
  intros Hc. induction files as [|f files IH]; intros memories;
    [reflexivity|].
  cbn [list_loop existsb]. unfold dated at 1.
  destruct (strptime_ymd (stem (name f))) as [d|].
  - rewrite Hc. reflexivity.
  - apply IH.
Qed.

(** X17. A [days] for which the start of the window cannot be computed
    (the subtraction overflows) makes the search raise [OverflowError]
    before it reads any file; the listing computes the window per file,
    so it raises only if some file has a name that parses as a date, and
    otherwise lists the long-term file as usual. *)
Theorem days_out_of_range e query max_results days use_regex tags x :
  cutoff_of (now e) days = Raised x ->
  x = OverflowError
  /\ search_memory_files e query max_results days use_regex tags = Raised x
  /\ list_memories e days
     = if existsb dated (daily_files e) then Raised x
       else Done (long_term_listing (memory_file e)).
Proof.
  intros Hc. split; [|split].
  - unfold cutoff_of in Hc. destruct days as [d|]; [|discriminate].
    destruct (d =? 0)%Z; [discriminate|].
    unfold minus_days, bind in Hc.
    destruct (999999999 <? Z.abs d)%Z; [congruence|]. cbv zeta in Hc.
    match type of Hc with
    | context [if ?b then Done _ else _] => destruct b
    end; [discriminate|congruence].
  - unfold search_memory_files. rewrite collect_daily_files, Hc.
    reflexivity.
  - unfold list_memories, daily_files.
    destruct (memory_dir e) as [files|].
    + rewrite (@list_loop_raised (now e) days x (glob_md_sorted files) Hc).
      destruct (existsb dated (glob_md_sorted files)); [reflexivity|].
      cbn [bind app]. destruct (memory_file e); reflexivity.
    + cbn [bind existsb app]. destruct (memory_file e); reflexivity.
Qed.

Definition undated_corpus : env :=
  corpus [text_file "notes.md" (py "cache")]
         (Some (text_file "MEMORY.md" (py "cache"))).

Lemma days_out_of_range_witness :
  OverflowError = OverflowError
  /\ search_memory_files undated_corpus (py "cache") 5 (Some 1000000000%Z)
       false None = Raised OverflowError
  /\ list_memories undated_corpus (Some 1000000000%Z)
     = if existsb dated (daily_files undated_corpus)
       then Raised OverflowError
       else Done (long_term_listing (memory_file undated_corpus)).
Proof.
  apply (@days_out_of_range undated_corpus (py "cache") 5
           (Some 1000000000%Z) false None OverflowError).
  vm_compute. reflexivity.
Defined.

(** ** The order of the directory *)

Definition is_md (f : file) : bool := endswith (name f) (py ".md").

Section DirectoryOrder.

Lemma code_inj x y : code x = code y -> x = y.
Proof.
  unfold code. intros H.
  rewrite <- (ascii_nat_embedding x), <- (ascii_nat_embedding y).
  now rewrite H.
Qed.

Lemma str_ltb_total a :
  forall b, str_ltb a b = false -> str_ltb b a = false -> a = b.
Proof.
  induction a as [|x a IH]; intros [|y b] H1 H2; simpl in *;
    try reflexivity; try discriminate.
  destruct (Nat.ltb_spec (code x) (code y)); [discriminate|].
  destruct (Nat.ltb_spec (code y) (code x)); [discriminate|].
  assert (E : code x = code y) by lia.
  rewrite E, Nat.eqb_refl in H1. rewrite E, Nat.eqb_refl in H2.
  simpl in *. f_equal; [now apply code_inj|now apply IH].
Qed.

Lemma same_name (l : list file) x y :
  NoDup (map name l) -> In x l -> In y l -> name x = name y -> x = y.
Proof.
  induction l as [|z l IH]; intros N Hx Hy E; [contradiction|].
  cbn [map] in N. inversion N as [|n ns Hn N']; subst.
  destruct Hx as [->|Hx], Hy as [->|Hy].
  - reflexivity.
  - exfalso. apply Hn. rewrite E. now apply in_map.
  - exfalso. apply Hn. rewrite <- E. now apply in_map.
  - now apply IH.
Qed.

Lemma sorted_perm_unique (A : Type) (R : A -> A -> Prop) (l1 : list A) :
  forall l2,
    StronglySorted R l1 -> StronglySorted R l2 -> Permutation l1 l2 ->
    (forall x y, In x l1 -> In y l1 -> R x y -> R y x -> x = y) ->
    l1 = l2.
Proof.
  induction l1 as [|x l1 IH]; intros l2 S1 S2 P anti.
  - apply Permutation_nil in P. now subst.
  - destruct l2 as [|y l2].
    { apply Permutation_sym, Permutation_nil in P. discriminate. }
    inversion S1 as [|x1 l1' S1' F1]; subst.
    inversion S2 as [|y1 l2' S2' F2]; subst.
    rewrite Forall_forall in F1, F2.
    assert (E : x = y).
    { assert (Hx : In x (y :: l2))
        by (apply (Permutation_in x P); now left).
      assert (Hy : In y (x :: l1))
        by (apply (Permutation_in y (Permutation_sym P)); now left).
      destruct Hx as [Hx|Hx]; [now subst|].
      destruct Hy as [Hy|Hy]; [now subst|].
      apply anti; [now left|now right|now apply F1|now apply F2]. }
    subst y. f_equal. apply Permutation_cons_inv in P.
    apply IH; try assumption.
    intros a b Ha Hb. apply anti; now right.
Qed.

Lemma glob_md_sorted_perm files files' :
  Permutation (filter is_md files) (filter is_md files') ->
  NoDup (map name (filter is_md files)) ->
  glob_md_sorted files = glob_md_sorted files'.
Proof.
  intros P N. unfold glob_md_sorted. fold is_md.
  apply (@sorted_perm_unique file (before name str_ltb)).
  - apply (sort_sorted name str_ltb str_ltb_asym str_ge_trans).
  - apply (sort_sorted name str_ltb str_ltb_asym str_ge_trans).
  - rewrite !sort_perm. exact P.
  - intros x y Hx Hy Rxy Ryx.
    apply (Permutation_in x (@sort_perm _ _ name str_ltb _)) in Hx.
    apply (Permutation_in y (@sort_perm _ _ name str_ltb _)) in Hy.
    apply (@same_name (filter is_md files) x y N Hx Hy). unfold before in *.
    now apply str_ltb_total.
Qed.

End DirectoryOrder.

(** X18. The search and the listing depend on the set of [*.md] files of
    the memory directory only: files with another suffix, and the order in
    which the directory yields its files, change nothing. *)
Theorem directory_order_irrelevant clock files files' long_term_file query
  max_results days use_regex tags :
  Permutation (filter is_md files) (filter is_md files') ->
  NoDup (map name (filter is_md files)) ->
  search_memory_files
    {| now := clock; memory_dir := Some files; memory_file := long_term_file |}
    query max_results days use_regex tags
  = search_memory_files
      {| now := clock; memory_dir := Some files';
         memory_file := long_term_file |}
      query max_results days use_regex tags
  /\ list_memories
       {| now := clock; memory_dir := Some files;
          memory_file := long_term_file |} days
     = list_memories
         {| now := clock; memory_dir := Some files';
            memory_file := long_term_file |} days.
Proof.
  intros P N. pose proof (glob_md_sorted_perm files files' P N) as E.
  unfold search_memory_files, collect, list_memories.
  cbn [now memory_dir memory_file]. rewrite E. split; reflexivity.
Qed.

Lemma directory_order_irrelevant_witness :
  search_memory_files
    {| now := noon_2024_01_02;
       memory_dir := Some [text_file "2024-01-01.md" (py "cache");
                           text_file "todo.txt" (py "cache");
                           text_file "2024-01-02.md" (py "cache #infra")];
       memory_file := None |}
    (py "cache") 5 None false None
  = search_memory_files
      {| now := noon_2024_01_02;
         memory_dir := Some [text_file "2024-01-02.md" (py "cache #infra");
                             text_file "2024-01-01.md" (py "cache")];
         memory_file := None |}
      (py "cache") 5 None false None
  /\ list_memories
       {| now := noon_2024_01_02;
          memory_dir := Some [text_file "2024-01-01.md" (py "cache");
                              text_file "todo.txt" (py "cache");
                              text_file "2024-01-02.md" (py "cache #infra")];
          memory_file := None |} None
     = list_memories
         {| now := noon_2024_01_02;
            memory_dir := Some [text_file "2024-01-02.md" (py "cache #infra");
                                text_file "2024-01-01.md" (py "cache")];
            memory_file := None |} None.
Proof.
  apply (@directory_order_irrelevant noon_2024_01_02
           [text_file "2024-01-01.md" (py "cache");
            text_file "todo.txt" (py "cache");
            text_file "2024-01-02.md" (py "cache #infra")]
           [text_file "2024-01-02.md" (py "cache #infra");
            text_file "2024-01-01.md" (py "cache")]
           None (py "cache") 5 None false None).
  - vm_compute. apply perm_swap.
  - vm_compute. constructor.
    + intros [H|[]]. discriminate H.
    + constructor; [intros []|constructor].
Defined.

(** ** Keywords *)

Lemma keywords_of_case query query' :
  lower query = lower query' -> keywords_of query = keywords_of query'.
Proof.
  intros H. unfold keywords_of, extract_keywords. now rewrite H.
Qed.

(** X19. In keyword mode the case of the query plays no part: two queries
    with the same lower-case form give the same outcome, and so does the
    lower-case form itself. *)
Theorem keyword_query_case e query query' max_results days tags :
  lower query = lower query' ->
  search_memory_files e query max_results days false tags
  = search_memory_files e query' max_results days false tags
  /\ search_memory_files e (lower query) max_results days false tags
     = search_memory_files e query max_results days false tags.
Proof.
  intros H. unfold search_memory_files, collect, choose_matcher. split.
  - now rewrite (keywords_of_case _ _ H).
  - now rewrite (keywords_of_case (lower query) query (lower_idem query)).
Qed.

Lemma keyword_query_case_witness :
  search_memory_files cache_corpus (py "Cache") 5 None false None
  = search_memory_files cache_corpus (py "CACHE") 5 None false None
  /\ search_memory_files cache_corpus (lower (py "Cache")) 5 None false None
     = search_memory_files cache_corpus (py "Cache") 5 None false None.
Proof.
  apply (@keyword_query_case cache_corpus (py "Cache") (py "CACHE") 5 None
           None).
  vm_compute. reflexivity.
Defined.

Section Additive.

Variables content content_lower : str.

Lemma score_content_loop_app ks1 :
  forall ks2 score,
    score_content_loop content content_lower (ks1 ++ ks2) score
    = (s <- score_content_loop content content_lower ks1 score ;;
       score_content_loop content content_lower ks2 s).
Proof.
  induction ks1 as [|k ks1 IH]; intros ks2 score; [reflexivity|].
  cbn [app score_content_loop].
  destruct (contains content_lower k); [|apply IH].
  destruct (re_search MULTILINE_IGNORECASE (heading_prefix ++ k) content)
    as [[|]| |]; cbn [bind]; try reflexivity; [apply IH|].
  destruct (re_search MULTILINE_IGNORECASE (bullet_prefix ++ k) content)
    as [[|]| |]; cbn [bind]; try reflexivity; apply IH.
Qed.

Lemma score_content_loop_shift ks :
  forall s1 s2 q1,
    score_content_loop content content_lower ks s1 = Done q1 ->
    exists q2,
      score_content_loop content content_lower ks s2 = Done q2
      /\ (q2 - s2 == q1 - s1)%Q.
Proof.
  induction ks as [|k ks IH]; intros s1 s2 q1; cbn [score_content_loop].
  - intros H. injection H as <-. exists s2. split; [reflexivity|ring].
  - destruct (contains content_lower k); [|apply IH].
    set (c := count content_lower k).
    assert (step : forall w,
              score_content_loop content content_lower ks (s1 + times c w)%Q
              = Done q1 ->
              exists q2,
                score_content_loop content content_lower ks
                  (s2 + times c w)%Q = Done q2
                /\ (q2 - s2 == q1 - s1)%Q).
    { intros w H. destruct (IH _ (s2 + times c w)%Q _ H) as (q2 & E & D).
      exists q2. split; [exact E|].
      assert (D' : (q2 == q1 - (s1 + times c w) + (s2 + times c w))%Q)
        by (rewrite <- D; ring).
      rewrite D'. ring. }
    destruct (re_search MULTILINE_IGNORECASE (heading_prefix ++ k) content)
      as [[|]| |]; cbn [bind]; try discriminate; [apply step|].
    destruct (re_search MULTILINE_IGNORECASE (bullet_prefix ++ k) content)
      as [[|]| |]; cbn [bind]; try discriminate; apply step.
Qed.

End Additive.

(** X20. The keyword score is additive over the list of keywords: when
    two lists are scored without error, so is their concatenation, and its
    score is the sum of the two; a keyword that stands twice in the list
    counts twice. *)
Theorem score_content_additive content ks1 ks2 a b :
  score_content content ks1 = Done a ->
  score_content content ks2 = Done b ->
  exists q,
    score_content content (ks1 ++ ks2) = Done q /\ (q == a + b)%Q.
Proof.
  unfold score_content. intros Ha Hb.
  rewrite score_content_loop_app, Ha. cbn [bind].
  destruct (@score_content_loop_shift content (lower content) ks2 0%Q a b Hb)
    as (q & E & D).
  exists q. split; [exact E|].
  assert (D' : (q == b - 0 + a)%Q) by (rewrite <- D; ring).
  rewrite D'. ring.
Qed.

Lemma score_content_additive_witness :
  exists q,
    score_content notes_text ([py "cache"] ++ [py "cache"]) = Done q
    /\ (q == 2 + 2)%Q.
Proof.
  apply (@score_content_additive notes_text [py "cache"] [py "cache"] 2 2).
  - vm_compute. reflexivity.
  - vm_compute. reflexivity.
Defined.

(** ** Snippets *)

(** [s] is the window of [c] lines of context around line [i] of the
    content: the lines [i - c], ..., [i + c] that exist. *)
Definition window_around (content : str) (c i : nat) (s : str) : Prop :=
  i < length (split_lines content)
  /\ split_lines s
     = firstn (Nat.min (length (split_lines content)) (i + c + 1) - (i - c))
         (skipn (i - c) (split_lines content))
  /\ 1 <= length (split_lines s) <= 2 * c + 1.

Section Windows.

Lemma window_lines lines c i :
  i < length lines -> forallb no_nl lines = true ->
  split_lines (window lines c i)
  = firstn (Nat.min (length lines) (i + c + 1) - (i - c)) (skipn (i - c) lines)
  /\ 1 <= length (split_lines (window lines c i)) <= 2 * c + 1.
Proof.
  intros Hi Hl. unfold window, slice_lines. rewrite Nat.max_0_l.
  set (n := Nat.min (length lines) (i + c + 1) - (i - c)).
  assert (L : length (firstn n (skipn (i - c) lines)) = n).
  { rewrite length_firstn, length_skipn. unfold n. lia. }
  assert (E : split_lines (join_lines (firstn n (skipn (i - c) lines)))
              = firstn n (skipn (i - c) lines)).
  { apply split_join.
    - intros Z. rewrite Z in L. simpl in L. unfold n in L. lia.
    - now apply forallb_firstn, forallb_skipn. }
  rewrite E, L. split; [reflexivity|]. unfold n. lia.
Qed.

Lemma split_lines_length s :
  length (split_lines s) = S (length (filter (chr_eqb newline) s)).
Proof.
  induction s as [|c s IH]; [reflexivity|].
  rewrite split_lines_cons. cbn [filter]. unfold is_nl, chr_eqb.
  rewrite (Ascii.eqb_sym newline c).
  destruct (Ascii.eqb c newline).
  - cbn [length]. now rewrite IH.
  - pose proof (split_lines_not_nil s).
    destruct (split_lines s) as [|l ls]; [congruence|].
    cbn [length] in *. exact IH.
Qed.

Lemma filter_firstn_length (A : Type) (p : A -> bool) (l : list A) :
  forall n, length (filter p (firstn n l)) <= length (filter p l).
Proof.
  induction l as [|x l IH]; intros [|n]; simpl; try lia.
  specialize (IH n). destruct (p x); simpl; lia.
Qed.

Lemma line_number_lt content e :
  line_number content e < length (split_lines content).
Proof.
  unfold line_number. rewrite split_lines_length.
  pose proof (filter_firstn_length (chr_eqb newline) content e). lia.
Qed.

Lemma snippets_loop_In lines c keywords s :
  forall todo i snippets,
    skipn i lines = todo ->
    In s (snippets_loop lines c keywords i todo snippets) ->
    In s snippets
    \/ exists j, j < length lines
                 /\ keyword_hit keywords (lower (nth j lines [])) = true
                 /\ s = window lines c j.
Proof.
  induction todo as [|line rest IH]; intros i acc E H; cbn [snippets_loop] in H.
  - now left.
  - assert (Hn : nth i lines [] = line /\ i < length lines
                 /\ skipn (S i) lines = rest).
    { clear - E. revert i E. induction lines as [|l ls IHl]; intros i E.
      - destruct i; discriminate.
      - destruct i as [|i].
        + simpl in E. injection E as -> ->. simpl. repeat split. lia.
        + cbn [skipn] in E. destruct (IHl _ E) as (A & B & C).
          cbn [nth length skipn]. repeat split; [exact A|lia|exact C]. }
    destruct Hn as (Hn & Hi & Hr). cbv zeta in H.
    destruct (keyword_hit keywords (lower line)) eqn:K.
    + apply (IH _ _ Hr) in H. destruct H as [H|H]; [|now right].
      apply in_app_or in H. destruct H as [H|[<-|[]]]; [now left|].
      right. exists i. rewrite Hn. auto.
    + apply (IH _ _ Hr) in H. exact H.
Qed.

End Windows.

(** X21. Every snippet is a window of the content: for a snippet of
    [extract_snippets] there is a line [i] that holds one of the keywords,
    for a snippet of [extract_snippets_regex] a line [i] on which a match
    of the pattern starts, and the lines of the snippet are the lines
    [i - c], ..., [i + c] of the content that exist: at least one and at
    most [2 c + 1] lines. *)
Theorem snippets_are_windows content c :
  (forall keywords s,
     In s (extract_snippets content keywords c) ->
     exists i,
       keyword_hit keywords (lower (nth i (split_lines content) [])) = true
       /\ window_around content c i s)
  /\ (forall pattern s,
        In s (extract_snippets_regex content pattern c) ->
        exists sp,
          In sp (finditer IGNORECASE pattern content)
          /\ window_around content c (line_number content (fst sp)) s).
Proof.
  split.
  - intros keywords s H. unfold extract_snippets in H. cbv zeta in H.
    rewrite unique_loop_spec in H. apply (proj1 (first_seen_In _ _)) in H.
    apply (@snippets_loop_In (split_lines content) c keywords s
             (split_lines content) 0 [] eq_refl) in H.
    destruct H as [[]|(j & Hj & K & ->)].
    exists j. split; [exact K|]. unfold window_around.
    split; [exact Hj|]. apply window_lines; [exact Hj|apply lines_no_nl].
  - intros pattern s H. unfold extract_snippets_regex in H. cbv zeta in H.
    rewrite unique_loop_spec in H. apply (proj1 (first_seen_In _ _)) in H.
    apply in_map_iff in H. destruct H as (sp & <- & Hsp).
    exists sp. split; [exact Hsp|]. unfold window_around.
    pose proof (line_number_lt content (fst sp)) as Hj.
    split; [exact Hj|]. apply window_lines; [exact Hj|apply lines_no_nl].
Qed.

(** ** File names and dates *)

(** The form [YYYY-MM-DD], with two digits for the month and for the
    day. *)
Definition zero_padded (s : str) : bool :=
  match s with
  | [y1; y2; y3; y4; h1; m1; m2; h2; d1; d2] =>
      is_digit y1 && is_digit y2 && is_digit y3 && is_digit y4
      && chr_eqb h1 (ch "-") && is_digit m1 && is_digit m2
      && chr_eqb h2 (ch "-") && is_digit d1 && is_digit d2
  | _ => false
  end.

(** The date in the name of a file; 0 when there is none. *)
Definition file_date (f : file) : datetime :=
  match strptime_ymd (stem (name f)) with
  | Some d => d
  | None => 0%Z
  end.

Section Calendar.

Local Open Scope Z_scope.

Lemma days_before_year_next y :
  days_before_year (y + 1)
  = days_before_year y + 365 + (if is_leap y then 1 else 0).
Proof.
  unfold days_before_year, is_leap. cbv zeta.
  replace (y + 1 - 1) with y by lia.
  destruct (Z.eqb_spec (y mod 4) 0) as [H4|H4];
    destruct (Z.eqb_spec (y mod 100) 0) as [H100|H100];
    destruct (Z.eqb_spec (y mod 400) 0) as [H400|H400];
    cbn [andb orb negb];
    Z.div_mod_to_equations; lia.
Qed.

Lemma days_before_year_mono y y' :
  y <= y' -> days_before_year y <= days_before_year y'.
Proof.
  intros H. unfold days_before_year. cbv zeta.
  Z.div_mod_to_equations. lia.
Qed.

Lemma days_in_month_bounds y m : 28 <= days_in_month y m <= 31.
Proof.
  unfold days_in_month.
  destruct (m =? 2); [destruct (is_leap y); lia|].
  destruct ((m =? 4) || (m =? 6) || (m =? 9) || (m =? 11))%bool; lia.
Qed.

Lemma days_before_month_aux_mono y k :
  forall k', (k <= k')%nat ->
  days_before_month_aux y k <= days_before_month_aux y k'.
Proof.
  induction k' as [|k' IH]; intros H.
  - assert (k = 0%nat) by lia. subst. lia.
  - destruct (Nat.eq_dec k (S k')) as [->|N]; [lia|].
    cbn [days_before_month_aux].
    pose proof (days_in_month_bounds y (Z.of_nat (S k'))).
    assert (k <= k')%nat by lia. specialize (IH H1). lia.
Qed.

Lemma days_before_month_next y m :
  1 <= m ->
  days_before_month y (m + 1) = days_before_month y m + days_in_month y m.
Proof.
  intros H. unfold days_before_month.
  replace (Z.to_nat (m + 1 - 1)) with (S (Z.to_nat (m - 1))) by lia.
  cbn [days_before_month_aux]. do 2 f_equal. lia.
Qed.

Lemma days_before_month_mono y m m' :
  m <= m' -> days_before_month y m <= days_before_month y m'.
Proof.
  intros H. unfold days_before_month.
  apply days_before_month_aux_mono. lia.
Qed.

Lemma days_before_month_end y :
  days_before_month y 13 = 365 + (if is_leap y then 1 else 0).
Proof.
  unfold days_before_month. change (Z.to_nat (13 - 1)) with 12%nat.
  cbn [days_before_month_aux]. unfold days_in_month.
  destruct (is_leap y); reflexivity.
Qed.

(** The day of the year lies in the year. *)
Lemma day_of_year_bounds y m d :
  1 <= m <= 12 -> 1 <= d <= days_in_month y m ->
  1 <= days_before_month y m + d <= 365 + (if is_leap y then 1 else 0).
Proof.
  intros Hm Hd.
  assert (L : days_before_month y 1 <= days_before_month y m)
    by (apply days_before_month_mono; lia).
  change (days_before_month y 1) with 0 in L.
  assert (U : days_before_month y (m + 1) <= days_before_month y 13)
    by (apply days_before_month_mono; lia).
  rewrite days_before_month_next, days_before_month_end in U by lia.
  lia.
Qed.

End Calendar.

(** The digits of a zero-padded name, read as one number. *)
Definition padded_key (s : str) : Z :=
  match s with
  | [y1; y2; y3; y4; _; m1; m2; _; d1; d2] =>
      (10000000 * digit_val y1 + 1000000 * digit_val y2
       + 100000 * digit_val y3 + 10000 * digit_val y4
       + 1000 * digit_val m1 + 100 * digit_val m2
       + 10 * digit_val d1 + digit_val d2)%Z
  | _ => 0%Z
  end.

Section DateOrder.

Local Open Scope Z_scope.

Lemma make_date_some y m d t :
  make_date y m d = Some t ->
  1 <= y <= 9999 /\ 1 <= m <= 12 /\ 1 <= d <= days_in_month y m
  /\ t = (days_before_year y + days_before_month y m + d - 1) * us_per_day.
Proof.
  unfold make_date.
  destruct (1 <=? y) eqn:A; [|discriminate].
  destruct (y <=? 9999) eqn:B; [|discriminate].
  destruct (1 <=? m) eqn:C; [|discriminate].
  destruct (m <=? 12) eqn:D; [|discriminate].
  destruct (1 <=? d) eqn:E; [|discriminate].
  destruct (d <=? days_in_month y m) eqn:F; [|discriminate].
  cbn [andb]. intros H. injection H as <-.
  apply Z.leb_le in A, B, C, D, E, F. repeat split; assumption.
Qed.

Lemma ordinal_lt y m d y' m' d' :
  1 <= m <= 12 -> 1 <= d <= days_in_month y m ->
  1 <= m' <= 12 -> 1 <= d' <= days_in_month y' m' ->
  y * 10000 + m * 100 + d < y' * 10000 + m' * 100 + d' ->
  days_before_year y + days_before_month y m + d
  < days_before_year y' + days_before_month y' m' + d'.
Proof.
  intros Hm Hd Hm' Hd' K.
  pose proof (days_in_month_bounds y m) as B.
  pose proof (days_in_month_bounds y' m') as B'.
  pose proof (@day_of_year_bounds y m d Hm Hd) as W.
  pose proof (@day_of_year_bounds y' m' d' Hm' Hd') as W'.
  destruct (Z.lt_trichotomy y y') as [Hy|[Hy|Hy]]; [| |lia].
  - assert (M : days_before_year (y + 1) <= days_before_year y')
      by (apply days_before_year_mono; lia).
    rewrite days_before_year_next in M. lia.
  - subst y'. destruct (Z.lt_trichotomy m m') as [Hmm|[Hmm|Hmm]]; [| |lia].
    + assert (M : days_before_month y (m + 1) <= days_before_month y m')
        by (apply days_before_month_mono; lia).
      rewrite days_before_month_next in M by lia. lia.
    + subst m'. lia.
Qed.

(** Dates are ordered as year, month and day are. *)
Lemma make_date_lt y m d t y' m' d' t' :
  make_date y m d = Some t -> make_date y' m' d' = Some t' ->
  (t <? t') = (y * 10000 + m * 100 + d <? y' * 10000 + m' * 100 + d').
Proof.
  intros H H'. apply make_date_some in H, H'.
  destruct H as (Hy & Hm & Hd & ->). destruct H' as (Hy' & Hm' & Hd' & ->).
  pose proof (days_in_month_bounds y m) as B.
  pose proof (days_in_month_bounds y' m') as B'.
  unfold us_per_day.
  destruct (Z.ltb_spec (y * 10000 + m * 100 + d)
                       (y' * 10000 + m' * 100 + d')) as [K|K].
  - apply Z.ltb_lt.
    pose proof (@ordinal_lt y m d y' m' d' Hm Hd Hm' Hd' K). lia.
  - apply Z.ltb_ge.
    destruct (Z.eq_dec (y * 10000 + m * 100 + d)
                       (y' * 10000 + m' * 100 + d')) as [E|N].
    + assert (y = y') by lia. assert (m = m') by lia.
      assert (d = d') by lia. subst. lia.
    + assert (K' : y' * 10000 + m' * 100 + d' < y * 10000 + m * 100 + d)
        by lia.
      pose proof (@ordinal_lt y' m' d' y m d Hm' Hd' Hm Hd K'). lia.
Qed.

End DateOrder.

Section PaddedNames.

Lemma digit_cases c : is_digit c = true -> In c (py "0123456789").
Proof.
  each_char c; intros H; try discriminate H;
    repeat ((left; reflexivity) || right).
Qed.

Lemma digit_code c :
  is_digit c = true ->
  48 <= code c <= 57 /\ digit_val c = (Z.of_nat (code c) - 48)%Z.
Proof.
  unfold is_digit, in_range. rewrite andb_true_iff, !Nat.leb_le.
  intros H. split; [exact H|reflexivity].
Qed.

Lemma parse_month_padded m1 m2 rest m rest' :
  is_digit m1 = true -> is_digit m2 = true ->
  parse_month (m1 :: m2 :: ch "-" :: rest) = Some (m, rest') ->
  m = (10 * digit_val m1 + digit_val m2)%Z /\ rest' = rest.
Proof.
  intros H1 H2. apply digit_cases in H1, H2. cbn [py In] in H1, H2.
  repeat (destruct H1 as [<-|H1]); try contradiction;
    repeat (destruct H2 as [<-|H2]); try contradiction;
    vm_compute; intros H; try discriminate H;
    injection H as <- <-; split; reflexivity.
Qed.

Lemma parse_day_padded d1 d2 d :
  is_digit d1 = true -> is_digit d2 = true ->
  parse_day [d1; d2] = Some d ->
  d = (10 * digit_val d1 + digit_val d2)%Z.
Proof.
  intros H1 H2. apply digit_cases in H1, H2. cbn [py In] in H1, H2.
  repeat (destruct H1 as [<-|H1]); try contradiction;
    repeat (destruct H2 as [<-|H2]); try contradiction;
    vm_compute; intros H; try discriminate H;
    injection H as <-; reflexivity.
Qed.

Lemma zero_padded_inv s :
  zero_padded s = true ->
  exists y1 y2 y3 y4 m1 m2 d1 d2,
    s = [y1; y2; y3; y4; ch "-"; m1; m2; ch "-"; d1; d2]
    /\ is_digit y1 = true /\ is_digit y2 = true /\ is_digit y3 = true
    /\ is_digit y4 = true /\ is_digit m1 = true /\ is_digit m2 = true
    /\ is_digit d1 = true /\ is_digit d2 = true.
Proof.
  destruct s as [|y1 [|y2 [|y3 [|y4 [|h1 [|m1 [|m2 [|h2 [|d1 [|d2 [|x s]]]]]]]]]]];
    try discriminate.
  cbn [zero_padded]. rewrite !andb_true_iff, !chr_eqb_eq.
  intros (((((((((A & B) & C) & D) & E) & F) & G) & H) & I) & J).
  subst h1 h2. exists y1, y2, y3, y4, m1, m2, d1, d2.
  repeat split; assumption.
Qed.

Lemma strptime_padded s t :
  zero_padded s = true -> strptime_ymd s = Some t ->
  exists y m d,
    make_date y m d = Some t
    /\ padded_key s = (y * 10000 + m * 100 + d)%Z.
Proof.
  intros Hz. apply zero_padded_inv in Hz.
  destruct Hz as (y1 & y2 & y3 & y4 & m1 & m2 & d1 & d2 & -> &
                  A & B & C & D & F & G & I & J).
  cbn [strptime_ymd]. rewrite A, B, C, D.
  assert (Eh : chr_eqb (ch "-") (ch "-") = true) by reflexivity.
  rewrite Eh. cbn [andb].
  destruct (parse_month [m1; m2; ch "-"; d1; d2]) as [[m r]|] eqn:PM;
    [|discriminate].
  apply (@parse_month_padded m1 m2 [d1; d2] m r F G) in PM.
  destruct PM as [-> ->].
  destruct (parse_day [d1; d2]) as [d|] eqn:PD; [|discriminate].
  apply (@parse_day_padded d1 d2 d I J) in PD. subst d.
  intros H.
  exists (1000 * digit_val y1 + 100 * digit_val y2 + 10 * digit_val y3
          + digit_val y4)%Z,
         (10 * digit_val m1 + digit_val m2)%Z,
         (10 * digit_val d1 + digit_val d2)%Z.
  split; [exact H|]. unfold padded_key. lia.
Qed.

End PaddedNames.

Section NameOrder.

Lemma str_ltb_irrefl a : str_ltb a a = false.
Proof.
  destruct (str_ltb a a) eqn:E; [|reflexivity].
  pose proof (str_ltb_asym _ _ E). congruence.
Qed.

Ltac compare_digits a b :=
  destruct (Nat.ltb_spec (code a) (code b));
  [ cbn [orb]; symmetry; apply Z.ltb_lt; lia
  | destruct (Nat.eqb_spec (code a) (code b));
    [ cbn [orb andb]
    | cbn [orb andb]; symmetry; apply Z.ltb_ge; lia ] ].

Lemma str_ltb_padded s s' suffix :
  zero_padded s = true -> zero_padded s' = true ->
  str_ltb (s ++ suffix) (s' ++ suffix)
  = (padded_key s <? padded_key s')%Z.
Proof.
  intros H H'. apply zero_padded_inv in H, H'.
  destruct H as (y1 & y2 & y3 & y4 & m1 & m2 & d1 & d2 & -> &
                 A1 & A2 & A3 & A4 & A5 & A6 & A7 & A8).
  destruct H' as (z1 & z2 & z3 & z4 & n1 & n2 & e1 & e2 & -> &
                  B1 & B2 & B3 & B4 & B5 & B6 & B7 & B8).
  apply digit_code in A1, A2, A3, A4, A5, A6, A7, A8.
  apply digit_code in B1, B2, B3, B4, B5, B6, B7, B8.
  destruct A1 as [A1 A1'], A2 as [A2 A2'], A3 as [A3 A3'], A4 as [A4 A4'],
           A5 as [A5 A5'], A6 as [A6 A6'], A7 as [A7 A7'], A8 as [A8 A8'].
  destruct B1 as [B1 B1'], B2 as [B2 B2'], B3 as [B3 B3'], B4 as [B4 B4'],
           B5 as [B5 B5'], B6 as [B6 B6'], B7 as [B7 B7'], B8 as [B8 B8'].
  cbn [app str_ltb padded_key].
  rewrite !Nat.ltb_irrefl, !Nat.eqb_refl. cbn [orb andb].
  compare_digits y1 z1. compare_digits y2 z2.
  compare_digits y3 z3. compare_digits y4 z4.
  compare_digits m1 n1. compare_digits m2 n2.
  compare_digits d1 e1. compare_digits d2 e2.
  rewrite str_ltb_irrefl. symmetry. apply Z.ltb_ge. lia.
Qed.

Lemma endswith_app n suffix :
  endswith n suffix = true ->
  n = firstn (length n - length suffix) n ++ suffix.
Proof.
  unfold endswith. rewrite startswith_iff. intros (rest & E).
  apply (f_equal (@rev ascii)) in E.
  rewrite rev_involutive, rev_app_distr, rev_involutive in E.
  rewrite E at 2. rewrite E, length_app.
  replace (length (rev rest) + length suffix - length suffix)
    with (length (rev rest) + 0) by lia.
  rewrite firstn_app_2. cbn [firstn]. now rewrite app_nil_r.
Qed.

Lemma zero_padded_length s : zero_padded s = true -> length s = 10.
Proof.
  intros H. apply zero_padded_inv in H.
  destruct H as (y1 & y2 & y3 & y4 & m1 & m2 & d1 & d2 & -> & _).
  reflexivity.
Qed.

Lemma padded_name n :
  endswith n (py ".md") = true -> zero_padded (stem n) = true ->
  n = stem n ++ py ".md".
Proof.
  intros He Hz. unfold stem in *. rewrite He in *. cbn [andb] in *.
  destruct (3 <? length n) eqn:L.
  - apply (endswith_app _ _ He).
  - apply zero_padded_length in Hz. apply Nat.ltb_ge in L. lia.
Qed.

Lemma daily_files_md e f : In f (daily_files e) -> is_md f = true.
Proof.
  unfold daily_files, glob_md_sorted. destruct (memory_dir e) as [files|];
    [|contradiction].
  intros H.
  apply (Permutation_in f (@sort_perm _ _ name str_ltb _)) in H.
  apply filter_In in H. now destruct H.
Qed.

End NameOrder.

Section NewestFirst.

Lemma StronglySorted_filter (A : Type) (R : A -> A -> Prop) (p : A -> bool) l :
  StronglySorted R l -> StronglySorted R (filter p l).
Proof.
  induction 1 as [|x l S IH F]; cbn [filter]; [constructor|].
  destruct (p x); [|exact IH]. constructor; [exact IH|].
  rewrite Forall_forall in *. intros y Hy. apply F.
  apply filter_In in Hy. now destruct Hy.
Qed.

Lemma StronglySorted_weaken (A : Type) (R R' : A -> A -> Prop) l :
  (forall x y, In x l -> In y l -> R x y -> R' x y) ->
  StronglySorted R l -> StronglySorted R' l.
Proof.
  intros W S. induction S as [|x l S IH F]; [constructor|].
  constructor.
  - apply IH. intros a b Ha Hb. apply W; now right.
  - rewrite Forall_forall in *. intros y Hy.
    apply W; [now left|now right|now apply F].
Qed.

Lemma padded_names_by_date e f g :
  In f (daily_files e) -> In g (daily_files e) ->
  zero_padded (stem (name f)) = true -> zero_padded (stem (name g)) = true ->
  dated f = true -> dated g = true ->
  str_ltb (name f) (name g) = (file_date f <? file_date g)%Z.
Proof.
  intros Hf Hg Zf Zg Df Dg.
  apply daily_files_md in Hf, Hg. unfold is_md in Hf, Hg.
  pose proof (@padded_name (name f) Hf Zf) as Nf.
  pose proof (@padded_name (name g) Hg Zg) as Ng.
  assert (S : str_ltb (name f) (name g)
              = (padded_key (stem (name f)) <? padded_key (stem (name g)))%Z).
  { rewrite Nf at 1. rewrite Ng at 1.
    exact (@str_ltb_padded (stem (name f)) (stem (name g)) (py ".md") Zf Zg). }
  rewrite S. unfold dated in Df, Dg. unfold file_date.
  destruct (strptime_ymd (stem (name f))) as [t|] eqn:Ef; [|discriminate].
  destruct (strptime_ymd (stem (name g))) as [t'|] eqn:Eg; [|discriminate].
  destruct (@strptime_padded _ _ Zf Ef) as (y & m & d & M & ->).
  destruct (@strptime_padded _ _ Zg Eg) as (y' & m' & d' & M' & ->).
  symmetry. exact (@make_date_lt _ _ _ _ _ _ _ _ M M').
Qed.

End NewestFirst.

(** X22. When the dated files of the memory directory have zero-padded
    names ([YYYY-MM-DD.md]), the order of the names is the order of the
    dates: the search and the listing walk the dated files from the
    newest to the oldest. *)
Theorem zero_padded_newest_first e :
  (forall f, In f (daily_files e) -> dated f = true ->
             zero_padded (stem (name f)) = true) ->
  StronglySorted (fun f g => (file_date g <= file_date f)%Z)
    (filter dated (daily_files e))
  /\ forall f g,
       In f (daily_files e) -> In g (daily_files e) ->
       dated f = true -> dated g = true ->
       str_ltb (name f) (name g) = (file_date f <? file_date g)%Z.
Proof.
  intros Hz. split.
  - apply (@StronglySorted_weaken file by_file_name).
    + intros f g Hf Hg R. apply filter_In in Hf, Hg.
      destruct Hf as [Hf Df], Hg as [Hg Dg]. unfold by_file_name in R.
      rewrite (@padded_names_by_date e f g Hf Hg (Hz f Hf Df) (Hz g Hg Dg)
                 Df Dg) in R.
      apply Z.ltb_ge in R. exact R.
    + apply StronglySorted_filter, daily_files_sorted.
  - intros f g Hf Hg Df Dg.
    exact (@padded_names_by_date e f g Hf Hg (Hz f Hf Df) (Hz g Hg Dg)
             Df Dg).
Qed.

Lemma zero_padded_newest_first_witness :
  StronglySorted (fun f g => (file_date g <= file_date f)%Z)
    (filter dated (daily_files two_days_corpus))
  /\ forall f g,
       In f (daily_files two_days_corpus) ->
       In g (daily_files two_days_corpus) ->
       dated f = true -> dated g = true ->
       str_ltb (name f) (name g) = (file_date f <? file_date g)%Z.
Proof.
  apply (@zero_padded_newest_first two_days_corpus).
  intros f Hf _.
  assert (E : daily_files two_days_corpus
              = [text_file "2024-01-02.md" (py "cache");
                 text_file "2023-12-30.md" (py "cache")])
    by (vm_compute; reflexivity).
  rewrite E in Hf. destruct Hf as [<-|[<-|[]]]; vm_compute; reflexivity.
Defined.

(** ** The listing *)

(** The entry of [list_memories] for a daily file. *)
Definition memory_of (f : file) : memory :=
  {| mem_path := path_of f; mem_date := stem (name f);
     mem_size := st_size f; mem_modified := st_mtime f |}.

Lemma list_entry_filter cutoff_date files :
  flat_map (list_entry cutoff_date) files
  = map memory_of (filter (visible cutoff_date) files).
Proof.
  induction files as [|f files IH]; [reflexivity|].
  cbn [flat_map filter]. unfold list_entry at 1.
  destruct (visible cutoff_date f); cbn [map app]; now rewrite IH.
Qed.

(** X23. Once the time window is computed, [list_memories] returns one
    entry for every [*.md] file of the memory directory whose name parses
    as a date that is not before the window, with the size and the
    modification time of that file, in descending order of the file names;
    the entry of the long-term file, if it exists, comes last. *)
Theorem list_memories_entries e days cutoff_date :
  cutoff_of (now e) days = Done cutoff_date ->
  list_memories e days
  = Done (map memory_of (filter (visible cutoff_date) (daily_files e))
          ++ long_term_listing (memory_file e))
  /\ StronglySorted by_file_name (filter (visible cutoff_date) (daily_files e)).
Proof.
  intros Hc. split.
  - rewrite (@list_memories_done e days cutoff_date Hc).
    now rewrite list_entry_filter.
  - apply StronglySorted_filter, daily_files_sorted.
Qed.

Lemma list_memories_entries_witness :
  list_memories two_days_corpus (Some 1%Z)
  = Done (map memory_of
            (filter (visible (Some (noon_2024_01_02 - 1 * us_per_day)%Z))
               (daily_files two_days_corpus))
          ++ long_term_listing (memory_file two_days_corpus))
  /\ StronglySorted by_file_name
       (filter (visible (Some (noon_2024_01_02 - 1 * us_per_day)%Z))
          (daily_files two_days_corpus)).
Proof.
  apply (@list_memories_entries two_days_corpus (Some 1%Z)
           (Some (noon_2024_01_02 - 1 * us_per_day)%Z)).
  vm_compute. reflexivity.
Defined.

(** ** Plain queries in the two modes *)

Section PlainQuery.

Lemma parse_plain query :
  plain query = true -> parse query = POk (lits query Eps).
Proof.
  intros Hp. apply parse_of_seq.
  pose proof (@p_seq_plain (p_alt (length query)) query [] Eps [] 1 Hp
                eq_refl) as H.
  rewrite app_nil_r in H. apply H.
  - intros k Hk. now apply p_seq_end.
  - lia.
Qed.

Lemma is_meta_lower c : is_meta (lower_char c) = is_meta c.
Proof. each_char c. Qed.

Lemma plain_lower query : plain (lower query) = plain query.
Proof.
  unfold plain, lower. induction query as [|c q IH]; [reflexivity|].
  cbn [map forallb]. now rewrite is_meta_lower, IH.
Qed.

(** The literal pattern is found where the lower-cased text holds the
    lower-cased query. *)
Lemma literal_search content query :
  search IGNORECASE (lits query Eps) content = true
  <-> contains (lower content) (lower query) = true.
Proof.
  rewrite search_true_iff, contains_lower. split.
  - intros (skipped & rest & b & -> & M).
    apply lits_inv in M. destruct M as (t & s' & -> & Ht & _).
    change (same_text MULTILINE_IGNORECASE t query) in Ht.
    apply same_text_lower in Ht. exists skipped, t, s'. auto.
  - intros (mid & t & rest & -> & Ht).
    exists mid, (t ++ rest). eexists. split; [reflexivity|].
    apply lits_intro; [|apply MEps].
    change (same_text MULTILINE_IGNORECASE t query).
    now apply same_text_lower.
Qed.

Lemma regex_hit content pattern :
  Qpositive (score_content_regex content pattern)
  = search IGNORECASE pattern content.
Proof.
  pose proof (finditer_nil_iff IGNORECASE pattern content) as N.
  unfold score_content_regex. cbv zeta.
  destruct (finditer IGNORECASE pattern content) as [|sp ms] eqn:E.
  - destruct N as [N _]. now rewrite (N eq_refl).
  - assert (S : search IGNORECASE pattern content = true).
    { destruct (search IGNORECASE pattern content); [reflexivity|].
      destruct N as [_ N]. discriminate (N eq_refl). }
    rewrite S. apply Qpositive_iff. rewrite bonus_loop_sum.
    apply Qlt_le_trans with (y := times (length (sp :: ms)) 2).
    + apply times_pos; [simpl; lia|reflexivity].
    + rewrite <- (Qplus_0_r (times (length (sp :: ms)) 2)) at 1.
      apply Qplus_le_compat; [apply Qle_refl|apply Qsum_bonus_nonneg].
Qed.

Lemma keyword_hit_score content keyword :
  plain keyword = true ->
  exists q,
    score_content content [keyword] = Done q
    /\ Qpositive q = contains (lower content) keyword.
Proof.
  intros Hp.
  assert (Hk : forallb plain [keyword] = true) by (cbn; now rewrite Hp).
  destruct (@score_content_loop_bounds content [keyword] Hk 0%Q)
    as (q & E & L & U).
  rewrite Qplus_0_l in L, U. exists q. split; [exact E|].
  pose proof (occurrences_pos content [keyword]) as O.
  destruct (contains (lower content) keyword) eqn:C.
  - apply Qpositive_iff. eapply Qlt_le_trans; [|exact L].
    apply times_pos; [|reflexivity].
    apply O. exists keyword. split; [now left|exact C].
  - destruct (Qpositive q) eqn:P; [|reflexivity].
    apply Qpositive_iff in P.
    assert (Z : occurrences content [keyword] = 0).
    { destruct (occurrences content [keyword]) as [|n] eqn:En;
        [reflexivity|].
      assert (0 < S n) by lia.
      destruct O as [O _]. destruct (O H) as (kw & [<-|[]] & Hc).
      congruence. }
    rewrite Z, times_zero in U. exfalso. exact (Qlt_not_le _ _ P U).
Qed.

Definition hit (mt : matcher) (tags : option (list str)) (content : str)
  : Prop :=
  exists found, examine mt tags content = Done (Some found).

Lemma plain_query_hit query tags content :
  plain query = true ->
  hit (ByPattern (lits query Eps)) tags content
  <-> hit (ByKeywords [lower query]) tags content.
Proof.
  intros Hp. unfold hit, examine, bind.
  destruct (tags_pass_total tags content) as [[|] ->].
  - cbn [score_with]. rewrite regex_hit.
    assert (Hl : plain (lower query) = true) by now rewrite plain_lower.
    destruct (@keyword_hit_score content (lower query) Hl) as (q & -> & Hq).
    rewrite Hq.
    pose proof (literal_search content query) as LS.
    destruct (search IGNORECASE (lits query Eps) content);
      destruct (contains (lower content) (lower query)).
    + split; eauto.
    + destruct LS as [LS _]. discriminate (LS eq_refl).
    + destruct LS as [_ LS]. discriminate (LS eq_refl).
    + split; intros (x & H); discriminate H.
  - split; intros (x & H); discriminate H.
Qed.

Lemma daily_entry_paths mt tags cutoff_date files p :
  In p (map path (flat_map (daily_entry mt tags cutoff_date) files))
  <-> exists f, In f files /\ visible cutoff_date f = true
                /\ hit mt tags (content f) /\ p = path_of f.
Proof.
  rewrite in_map_iff. split.
  - intros (r & <- & Hr). apply daily_entry_from in Hr.
    destruct Hr as (f & sc & Hf & Hv & Hx & _ & Hp & _).
    exists f. repeat split; try assumption. unfold hit. eauto.
  - intros (f & Hf & Hv & (found & Hx) & ->).
    destruct found as [sc sn].
    exists {| path := path_of f; date := stem (name f); score := sc;
              snippets := sn |}.
    split; [reflexivity|]. apply in_flat_map. exists f.
    split; [exact Hf|]. unfold daily_entry. unfold visible in Hv.
    destruct (strptime_ymd (stem (name f))) as [d|]; [|discriminate].
    apply negb_true_iff in Hv. rewrite Hv, Hx. now left.
Qed.

Lemma long_term_entry_paths mt tags f p :
  In p (map path (long_term_entry mt tags f))
  <-> exists g, f = Some g /\ hit mt tags (content g) /\ p = MEMORY_FILE.
Proof.
  rewrite in_map_iff. split.
  - intros (r & <- & Hr). apply long_term_entry_from in Hr.
    destruct Hr as (g & sc & Hg & Hx & _ & Hp & _).
    exists g. repeat split; try assumption. unfold hit. eauto.
  - intros (g & -> & (found & Hx) & ->). destruct found as [sc sn].
    exists {| path := MEMORY_FILE; date := py "long-term";
              score := (sc * (3 # 2))%Q; snippets := sn |}.
    split; [reflexivity|]. unfold long_term_entry. rewrite Hx. now left.
Qed.

End PlainQuery.

(** X24. On Latin-1 text (the query and the files hold code points below
    256 only), for a query without regex metacharacters that keyword mode
    takes as one keyword (the lower-cased query), regex mode and keyword
    mode find the same files: with a limit above the number of files, a
    path is among the results of the one exactly when it is among the
    results of the other.  Beyond Latin-1 the two modes can differ: the
    pattern [s] matches the long s, U+017F, and the keyword [s] does not
    occur in a text that holds it. *)
Theorem plain_query_modes_agree e query days tags a b :
  plain query = true ->
  keywords_of query = [lower query] ->
  search_memory_files e query (Z.of_nat (length (daily_files e) + 1)) days
    true tags = Done a ->
  search_memory_files e query (Z.of_nat (length (daily_files e) + 1)) days
    false tags = Done b ->
  forall p, In p (map path a) <-> In p (map path b).
Proof.
  intros Hp Hk Ha Hb p. apply search_unlimited in Ha, Hb.
  destruct Ha as (ra & Ea & ->). destruct Hb as (rb & Eb & ->).
  apply collect_done in Ea, Eb.
  destruct Ea as (c1 & m1 & Hc1 & Hm1 & ->).
  destruct Eb as (c2 & m2 & Hc2 & Hm2 & ->).
  assert (c2 = c1) by congruence. subst c2.
  unfold choose_matcher in Hm1, Hm2.
  rewrite (parse_plain _ Hp) in Hm1. rewrite Hk in Hm2.
  injection Hm1 as <-. injection Hm2 as <-.
  assert (S : forall l, In p (map path (sort_desc score Qltb l))
                        <-> In p (map path l)).
  { intros l. split; apply Permutation_in, Permutation_map;
      [apply sort_perm|apply Permutation_sym, sort_perm]. }
  rewrite !S, !map_app, !in_app_iff.
  rewrite !daily_entry_paths, !long_term_entry_paths.
  split.
  - intros [(f & Hf & Hv & Hh & E)|(g & Hg & Hh & E)].
    + left. exists f. repeat split; try assumption.
      now apply (@plain_query_hit query tags (content f) Hp).
    + right. exists g. repeat split; try assumption.
      now apply (@plain_query_hit query tags (content g) Hp).
  - intros [(f & Hf & Hv & Hh & E)|(g & Hg & Hh & E)].
    + left. exists f. repeat split; try assumption.
      now apply (@plain_query_hit query tags (content f) Hp).
    + right. exists g. repeat split; try assumption.
      now apply (@plain_query_hit query tags (content g) Hp).
Qed.

Definition cache_regex_results : list result :=
  Eval vm_compute in
    match search_memory_files boost_corpus (py "cache") 5 None true None with
    | Done out => out
    | _ => []
    end.

Lemma plain_query_modes_agree_witness :
  In MEMORY_FILE (map path cache_regex_results)
  <-> In MEMORY_FILE (map path cache_results).
Proof.
  apply (@plain_query_modes_agree boost_corpus (py "cache") None None).
  - vm_compute. reflexivity.
  - vm_compute. reflexivity.
  - vm_compute. reflexivity.
  - vm_compute. reflexivity.
Defined.
